(** * skynet-accounts: aggregation pipelines and subscription-tier reconciliation

    A shallow embedding of
    - [database/database.go]: [generateUploadsPipeline],
      [generateDownloadsPipeline] and [count];
    - the Stripe handlers of package [api]: [stripePlans], [processSub],
      [createStripeCustomer], [assignTier] and [planForTier].

    The Go functions that only build data (the pipelines, the plan table) are
    Rocq functions building the same data.  The functions that talk to MongoDB
    and to Stripe are programs of a small monad whose only effect is a call to
    a collaborator; an environment answers the calls and the calls made are
    recorded, so that statements about what is written, and in which order,
    are statements about the recorded calls. *)

From Stdlib Require Import ZArith String List Ascii Bool Lia.
From stdpp Require Import base tactics option list gmap strings sorting.

Local Open Scope string_scope.
Local Open Scope Z_scope.
Local Set Warnings "-register-all".

(* ===================================================================== *)
(** * Part I. BSON values, as the driver's [bson.D] and [bson.A] build them *)
(* ===================================================================== *)

(** [bson.D] is an ordered list of key/value pairs, [bson.A] an array.  Go's
    [int] and [int64] values are [BInt]; object ids and datetimes occur in
    stored documents only. *)
Inductive bson : Type :=
| BNull
| BBool (b : bool)
| BInt (n : Z)
| BStr (s : string)
| BOid (hex : string)
| BDate (ms : Z)
| BDoc (fields : list (string * bson))
| BArr (elems : list bson).

Abbreviation doc := (list (string * bson)).

(** Induction on a value with its fields and elements. *)
Fixpoint bson_nested_ind (P : bson -> Prop)
    (HNull : P BNull) (HBool : forall b, P (BBool b)) (HInt : forall n, P (BInt n))
    (HStr : forall s, P (BStr s)) (HOid : forall h, P (BOid h))
    (HDate : forall ms, P (BDate ms))
    (HDoc : forall d, Forall (fun kv => P (snd kv)) d -> P (BDoc d))
    (HArr : forall l, Forall P l -> P (BArr l))
    (v : bson) {struct v} : P v :=
  let self := bson_nested_ind P HNull HBool HInt HStr HOid HDate HDoc HArr in
  match v with
  | BNull => HNull
  | BBool b => HBool b
  | BInt n => HInt n
  | BStr s => HStr s
  | BOid h => HOid h
  | BDate ms => HDate ms
  | BDoc d =>
      HDoc d ((fix fields (d : doc) : Forall (fun kv => P (snd kv)) d :=
                 match d with
                 | [] => List.Forall_nil _
                 | (k, x) :: d' => List.Forall_cons _ (k, x) d' (self x) (fields d')
                 end) d)
  | BArr l =>
      HArr l ((fix elems (l : list bson) : Forall P l :=
                 match l with
                 | [] => List.Forall_nil _
                 | x :: l' => List.Forall_cons _ x l' (self x) (elems l')
                 end) l)
  end.

(** The outcome of a step of the aggregation engine. *)
Inductive result (A : Type) : Type :=
| Ok (a : A)
| Err (msg : string).
Arguments Ok {A} a.
Arguments Err {A} msg.

Definition rbind {A B} (r : result A) (f : A -> result B) : result B :=
  match r with
  | Ok a => f a
  | Err m => Err m
  end.

(** ** Documents *)

Fixpoint doc_get (k : string) (d : doc) : option bson :=
  match d with
  | [] => None
  | (k', v) :: d' => if String.eqb k' k then Some v else doc_get k d'
  end.

Definition doc_has (k : string) (d : doc) : bool :=
  match doc_get k d with Some _ => true | None => false end.

(** Assigning a field keeps its position when it exists and appends it
    otherwise. *)
Fixpoint doc_set (k : string) (v : bson) (d : doc) : doc :=
  match d with
  | [] => [(k, v)]
  | (k', v') :: d' =>
      if String.eqb k' k then (k, v) :: d' else (k', v') :: doc_set k v d'
  end.

Fixpoint doc_remove (k : string) (d : doc) : doc :=
  match d with
  | [] => []
  | (k', v') :: d' =>
      if String.eqb k' k then doc_remove k d' else (k', v') :: doc_remove k d'
  end.

(** [$mergeObjects] on two documents: the fields of [d2] overwrite those of
    [d1]; fields only in [d2] follow. *)
Definition doc_merge (d1 d2 : doc) : doc :=
  map (fun kv => (fst kv, default (snd kv) (doc_get (fst kv) d2))) d1
  ++ List.filter (fun kv => negb (doc_has (fst kv) d1)) d2.

(** ** The BSON comparison order

    Values of different types compare by type bracket; a missing value sorts
    below everything. *)
Definition bson_rank (v : option bson) : nat :=
  match v with
  | None => 0
  | Some BNull => 1
  | Some (BInt _) => 2
  | Some (BStr _) => 3
  | Some (BDoc _) => 4
  | Some (BArr _) => 5
  | Some (BOid _) => 7
  | Some (BBool _) => 8
  | Some (BDate _) => 9
  end%nat.

Fixpoint bson_compare (a b : bson) {struct a} : comparison :=
  match a, b with
  | BNull, BNull => Eq
  | BBool x, BBool y => Bool.compare x y
  | BInt x, BInt y => Z.compare x y
  | BStr x, BStr y => String.compare x y
  | BOid x, BOid y => String.compare x y
  | BDate x, BDate y => Z.compare x y
  | BArr xs, BArr ys =>
      (fix go (xs ys : list bson) {struct xs} : comparison :=
         match xs, ys with
         | [], [] => Eq
         | [], _ :: _ => Lt
         | _ :: _, [] => Gt
         | x :: xs', y :: ys' =>
             match bson_compare x y with
             | Eq => go xs' ys'
             | c => c
             end
         end) xs ys
  | BDoc xs, BDoc ys =>
      (fix go (xs ys : doc) {struct xs} : comparison :=
         match xs, ys with
         | [], [] => Eq
         | [], _ :: _ => Lt
         | _ :: _, [] => Gt
         | (kx, x) :: xs', (ky, y) :: ys' =>
             match Nat.compare (bson_rank (Some x)) (bson_rank (Some y)) with
             | Eq =>
                 match String.compare kx ky with
                 | Eq =>
                     match bson_compare x y with
                     | Eq => go xs' ys'
                     | c => c
                     end
                 | c => c
                 end
             | c => c
             end
         end) xs ys
  | _, _ => Nat.compare (bson_rank (Some a)) (bson_rank (Some b))
  end.

Definition value_compare (a b : option bson) : comparison :=
  match a, b with
  | Some x, Some y => bson_compare x y
  | _, _ => Nat.compare (bson_rank a) (bson_rank b)
  end.

Definition bson_eqb (a b : bson) : bool :=
  match bson_compare a b with Eq => true | _ => false end.

(** ** Aggregation expressions

    The operators the two pipelines use: field paths ["$field"], the variable
    ["$$ROOT"], [$arrayElemAt], [$mergeObjects], [$cond] (array form) and
    [$gt].  An expression evaluates to a value, to no value (a missing
    field), or fails; an operator outside this list fails as unsupported. *)

Definition eval_string (root : doc) (s : string) : result (option bson) :=
  match s with
  | String "$" (String "$" var) =>
      if String.eqb var "ROOT" then Ok (Some (BDoc root))
      else Err "unsupported variable"
  | String "$" field => Ok (doc_get field root)
  | _ => Ok (Some (BStr s))
  end.

(** [$arrayElemAt]: a negative index counts from the end; an index out of
    range gives no value. *)
Definition array_elem (l : list bson) (i : Z) : option bson :=
  if 0 <=? i then nth_error l (Z.to_nat i)
  else if Z.of_nat (length l) + i <? 0 then None
  else nth_error l (Z.to_nat (Z.of_nat (length l) + i)).

Definition truthy (v : option bson) : bool :=
  match v with
  | None | Some BNull | Some (BBool false) => false
  | Some (BInt n) => negb (n =? 0)
  | Some _ => true
  end.

(** [$mergeObjects] over evaluated operands: [null] and missing operands are
    skipped, a later document overwrites an earlier one, anything else is an
    error. *)
Fixpoint merge_objects (acc : doc) (vs : list (result (option bson))) : result (option bson) :=
  match vs with
  | [] => Ok (Some (BDoc acc))
  | Err m :: _ => Err m
  | Ok None :: vs' | Ok (Some BNull) :: vs' => merge_objects acc vs'
  | Ok (Some (BDoc d)) :: vs' => merge_objects (doc_merge acc d) vs'
  | Ok (Some _) :: _ => Err "$mergeObjects requires object inputs"
  end.

Fixpoint eval_expr (root : doc) (e : bson) {struct e} : result (option bson) :=
  match e with
  | BStr s => eval_string root s
  | BDoc [(op, arg)] =>
      if String.eqb op "$arrayElemAt" then
        match arg with
        | BArr [a; i] =>
            rbind (eval_expr root a) (fun va =>
            rbind (eval_expr root i) (fun vi =>
              match va, vi with
              | None, _ | Some BNull, _ | _, None | _, Some BNull => Ok (Some BNull)
              | Some (BArr l), Some (BInt n) => Ok (array_elem l n)
              | _, _ => Err "$arrayElemAt: bad operand types"
              end))
        | _ => Err "$arrayElemAt takes two arguments"
        end
      else if String.eqb op "$mergeObjects" then
        match arg with
        | BArr es => merge_objects [] (map (eval_expr root) es)
        | _ => merge_objects [] [eval_expr root arg]
        end
      else if String.eqb op "$cond" then
        match arg with
        | BArr [c; t; f] =>
            rbind (eval_expr root c) (fun vc =>
              if truthy vc then eval_expr root t else eval_expr root f)
        | _ => Err "$cond: unsupported form"
        end
      else if String.eqb op "$gt" then
        match arg with
        | BArr [a; b] =>
            rbind (eval_expr root a) (fun va =>
            rbind (eval_expr root b) (fun vb =>
              Ok (Some (BBool (match value_compare va vb with Gt => true | _ => false end)))))
        | _ => Err "$gt takes two arguments"
        end
      else Err "unsupported expression"
  | BDoc _ | BArr _ => Err "unsupported expression"
  | v => Ok (Some v)
  end.

(** ** Pipeline stages

    A stage is a document with one key, the stage operator.  [parse_stage]
    reads the stages the repository builds; the engine below runs them. *)

Inductive Stage : Type :=
| SMatch (filter : bson)
| SSort (keys : list (string * Z))
| SSkip (n : Z)
| SLimit (n : Z)
| SLookup (from localField foreignField as_ : string)
| SReplaceRoot (newRoot : bson)
| SProject (spec : doc)
| SCount (field : string).

Fixpoint parse_sort_keys (d : doc) : option (list (string * Z)) :=
  match d with
  | [] => Some []
  | (k, BInt n) :: d' =>
      if ((n =? 1) || (n =? -1))%bool
      then option_map (cons (k, n)) (parse_sort_keys d')
      else None
  | _ => None
  end.

Definition parse_stage (st : doc) : option Stage :=
  match st with
  | [(op, arg)] =>
      if String.eqb op "$match" then Some (SMatch arg)
      else if String.eqb op "$sort" then
        match arg with
        | BDoc (k :: ks) => option_map SSort (parse_sort_keys (k :: ks))
        | _ => None
        end
      else if String.eqb op "$skip" then
        match arg with BInt n => Some (SSkip n) | _ => None end
      else if String.eqb op "$limit" then
        match arg with BInt n => Some (SLimit n) | _ => None end
      else if String.eqb op "$lookup" then
        match arg with
        | BDoc d =>
            match doc_get "from" d, doc_get "localField" d,
                  doc_get "foreignField" d, doc_get "as" d with
            | Some (BStr f), Some (BStr l), Some (BStr g), Some (BStr a) =>
                Some (SLookup f l g a)
            | _, _, _, _ => None
            end
        | _ => None
        end
      else if String.eqb op "$replaceRoot" then
        match arg with
        | BDoc [(k, e)] => if String.eqb k "newRoot" then Some (SReplaceRoot e) else None
        | _ => None
        end
      else if String.eqb op "$project" then
        match arg with BDoc (f :: fs) => Some (SProject (f :: fs)) | _ => None end
      else if String.eqb op "$count" then
        match arg with BStr f => Some (SCount f) | _ => None end
      else None
  | _ => None
  end.

(** A field of a document, [null] when the document does not have it: how
    [$sort] and [$lookup] read a field. *)
Definition field_or_null (k : string) (d : doc) : bson :=
  default BNull (doc_get k d).

(** *** [$sort]: a sort on the listed keys, each ascending ([1]) or
    descending ([-1]).  MongoDB leaves the order of rows that compare equal
    unspecified, and it may differ from one query to the next; this engine
    keeps such rows in the order of its input.  What is proved of a single
    page holds for any order of the ties; what compares several queries
    assumes that there is no tie. *)

Fixpoint sort_compare (keys : list (string * Z)) (d1 d2 : doc) : comparison :=
  match keys with
  | [] => Eq
  | (k, dir) :: keys' =>
      match bson_compare (field_or_null k d1) (field_or_null k d2) with
      | Eq => sort_compare keys' d1 d2
      | c => if 0 <? dir then c else CompOpp c
      end
  end.

Definition sort_leb (keys : list (string * Z)) (d1 d2 : doc) : bool :=
  match sort_compare keys d1 d2 with Gt => false | _ => true end.

Fixpoint insert_sorted (leb : doc -> doc -> bool) (x : doc) (l : list doc) : list doc :=
  match l with
  | [] => [x]
  | y :: l' => if leb x y then x :: l else y :: insert_sorted leb x l'
  end.

Definition sort_docs (leb : doc -> doc -> bool) (l : list doc) : list doc :=
  foldr (insert_sorted leb) [] l.

(** *** [$lookup]: an equality join; a missing local or foreign field joins
    as [null]. *)

Definition joined (foreign : list doc) (localField foreignField : string) (row : doc) : list doc :=
  List.filter
    (fun f => bson_eqb (field_or_null foreignField f) (field_or_null localField row))
    foreign.

(** *** [$project]

    A field given as [0] or [false] is excluded, one given as another number
    or [true] is included, any other value is an expression to compute.  A
    projection of exclusions only removes the listed fields; otherwise the
    output holds [_id] (unless excluded), the included fields in the order of
    the input, and the computed fields; a computed field with no value is
    left out. *)

Inductive proj := PExclude | PInclude | PCompute (e : bson).

Definition proj_of (v : bson) : proj :=
  match v with
  | BInt n => if n =? 0 then PExclude else PInclude
  | BBool b => if b then PInclude else PExclude
  | e => PCompute e
  end.

Definition is_exclude (v : bson) : bool :=
  match proj_of v with PExclude => true | _ => false end.

Definition is_include (v : bson) : bool :=
  match proj_of v with PInclude => true | _ => false end.

Definition exclusion_only (spec : doc) : bool :=
  forallb (fun kv => is_exclude (snd kv)) spec.

Definition project_exclude (spec : doc) (row : doc) : doc :=
  foldr (fun kv acc => doc_remove (fst kv) acc) row spec.

Definition keeps (spec : doc) (k : string) : bool :=
  if String.eqb k "_id"
  then match doc_get "_id" spec with Some v => negb (is_exclude v) | None => true end
  else match doc_get k spec with Some v => is_include v | None => false end.

Fixpoint project_computed (spec : doc) (row : doc) (acc : doc) : result doc :=
  match spec with
  | [] => Ok acc
  | (k, v) :: spec' =>
      match proj_of v with
      | PCompute e =>
          rbind (eval_expr row e) (fun r =>
            project_computed spec' row
              (match r with Some x => doc_set k x acc | None => doc_remove k acc end))
      | PInclude => project_computed spec' row acc
      | PExclude =>
          if String.eqb k "_id" then project_computed spec' row acc
          else Err "$project: exclusion in an inclusion projection"
      end
  end.

Definition project_row (spec : doc) (row : doc) : result doc :=
  if exclusion_only spec then Ok (project_exclude spec row)
  else project_computed spec row (List.filter (fun kv => keeps spec (fst kv)) row).

Fixpoint map_result {A B} (f : A -> result B) (l : list A) : result (list B) :=
  match l with
  | [] => Ok []
  | x :: l' => rbind (f x) (fun y => rbind (map_result f l') (fun ys => Ok (y :: ys)))
  end.

Definition replace_root (e : bson) (row : doc) : result doc :=
  rbind (eval_expr row e) (fun v =>
    match v with
    | Some (BDoc d) => Ok d
    | _ => Err "$replaceRoot: newRoot must evaluate to an object"
    end).

Section Engine.

(** The query language of [$match] is the caller's business: the pipelines
    pass the filter through untouched.  The engine takes its meaning as a
    parameter. *)
Variable query_matches : bson -> doc -> bool.

(** The collections of the database, by name. *)
Variable db : string -> list doc.

Definition run_stage (st : Stage) (rows : list doc) : result (list doc) :=
  match st with
  | SMatch f => Ok (List.filter (query_matches f) rows)
  | SSort keys => Ok (sort_docs (sort_leb keys) rows)
  | SSkip n =>
      if n <? 0 then Err "$skip: negative argument"
      else Ok (drop (Z.to_nat n) rows)
  | SLimit n =>
      if n <=? 0 then Err "$limit: the limit must be positive"
      else Ok (take (Z.to_nat n) rows)
  | SLookup from l f a =>
      Ok (map (fun row => doc_set a (BArr (map BDoc (joined (db from) l f row))) row) rows)
  | SReplaceRoot e => map_result (replace_root e) rows
  | SProject spec => map_result (project_row spec) rows
  | SCount f =>
      match rows with
      | [] => Ok []
      | _ :: _ => Ok [[(f, BInt (Z.of_nat (length rows)))]]
      end
  end.

Fixpoint run_pipeline (stages : list doc) (rows : list doc) : result (list doc) :=
  match stages with
  | [] => Ok rows
  | st :: stages' =>
      match parse_stage st with
      | Some s => rbind (run_stage s rows) (run_pipeline stages')
      | None => Err "unsupported stage"
      end
  end.

End Engine.

(* ===================================================================== *)
(** * Part II. [database/database.go]: the pipeline builders *)
(* ===================================================================== *)

Definition generateUploadsPipeline (matchStage : doc) (offset pageSize : Z) : list doc :=
  let sortStage := [("$sort", BDoc [("timestamp", BInt (-1))])] in
  let skipStage := [("$skip", BInt offset)] in
  let limitStage := [("$limit", BInt pageSize)] in
  let lookupStage :=
    [("$lookup", BDoc [
        ("from", BStr "skylinks");
        ("localField", BStr "skylink_id");
        ("foreignField", BStr "_id");
        ("as", BStr "fromSkylinks")])] in
  let replaceStage :=
    [("$replaceRoot", BDoc [
        ("newRoot", BDoc [
           ("$mergeObjects", BArr [
              BDoc [("$arrayElemAt", BArr [BStr "$fromSkylinks"; BInt 0])];
              BStr "$$ROOT"])])])] in
  let projectStage := [("$project", BDoc [("fromSkylinks", BInt 0)])] in
  [matchStage; sortStage; skipStage; limitStage; lookupStage; replaceStage; projectStage].

Definition generateDownloadsPipeline (matchStage : doc) (offset pageSize : Z) : list doc :=
  let sortStage := [("$sort", BDoc [("timestamp", BInt (-1))])] in
  let skipStage := [("$skip", BInt offset)] in
  let limitStage := [("$limit", BInt pageSize)] in
  let lookupStage :=
    [("$lookup", BDoc [
        ("from", BStr "skylinks");
        ("localField", BStr "skylink_id");
        ("foreignField", BStr "_id");
        ("as", BStr "fromSkylinks")])] in
  let replaceStage :=
    [("$replaceRoot", BDoc [
        ("newRoot", BDoc [
           ("$mergeObjects", BArr [
              BDoc [("$arrayElemAt", BArr [BStr "$fromSkylinks"; BInt 0])];
              BStr "$$ROOT"])])])] in
  let projectStage :=
    [("$project", BDoc [
        ("skylink", BInt 1);
        ("name", BInt 1);
        ("user_id", BInt 1);
        ("skylink_id", BInt 1);
        ("timestamp", BInt 1);
        ("size", BDoc [
           ("$cond", BArr [
              BDoc [("$gt", BArr [BStr "$bytes"; BInt 0])];
              BStr "$bytes";
              BStr "$size"])])])] in
  [matchStage; sortStage; skipStage; limitStage; lookupStage; replaceStage; projectStage].

(** A small data set to run the pipelines on: two downloads of one user, the
    first a partial download of 50 bytes, the second a whole one. *)
Definition eq_matches (f : bson) (d : doc) : bool :=
  match f with
  | BDoc conds => forallb (fun kv => bson_eqb (field_or_null (fst kv) d) (snd kv)) conds
  | _ => false
  end.

Definition demo_db (coll : string) : list doc :=
  if String.eqb coll "skylinks" then
    [ [("_id", BOid "s1"); ("skylink", BStr "AAA"); ("name", BStr "a.txt"); ("size", BInt 200)];
      [("_id", BOid "s2"); ("skylink", BStr "BBB"); ("name", BStr "b.txt"); ("size", BInt 300)] ]
  else if String.eqb coll "downloads" then
    [ [("_id", BOid "d1"); ("user_id", BOid "u1"); ("skylink_id", BOid "s1");
       ("bytes", BInt 50); ("timestamp", BDate 10)];
      [("_id", BOid "d2"); ("user_id", BOid "u1"); ("skylink_id", BOid "s1");
       ("bytes", BInt 0); ("timestamp", BDate 20)];
      [("_id", BOid "d3"); ("user_id", BOid "u2"); ("skylink_id", BOid "s2");
       ("bytes", BInt 7); ("timestamp", BDate 30)] ]
  else [].

Definition demo_match : doc := [("$match", BDoc [("user_id", BOid "u1")])].

(* ===================================================================== *)
(** * Part III. Collaborators: errors, time, users, Stripe, calls *)
(* ===================================================================== *)

(** ** Errors

    A Go [error] that may be [nil] is an [option error].  [AddContext] and
    [Compose] are those of the [errors] package the repository imports:
    [AddContext] wraps a non-nil error with a context string; [Compose]
    drops its [nil] arguments and is [nil] when none is left, the error
    itself when one is left, and the composition of those left, in order,
    otherwise. *)
Inductive error : Type :=
| ErrNew (msg : string)
| ErrContext (e : error) (ctx : string)
| ErrComposed (es : list error).

Definition AddContext (e : error) (ctx : string) : error := ErrContext e ctx.

Definition Compose (errs : list (option error)) : option error :=
  match omap id errs with
  | [] => None
  | [e] => Some e
  | es => Some (ErrComposed es)
  end.

(** ** Time

    A [time.Time] is an instant and a pointer to a location; Go's [==] and
    [!=] on it compare both (no value here carries a monotonic clock
    reading).  UTC is the [nil] pointer, [Local] the address of the local
    zone; any other location is known by its address. *)
Module time.

Inductive Location : Type :=
| LocUTC
| LocLocal
| LocAt (address : N).

Record Time : Type := mkTime {
  sec : Z;
  nsec : Z;
  loc : Location
}.

(** [time.Unix(sec, nsec)]: the local time of that instant, [nsec] brought
    into [0, 1e9). *)
Definition Unix (s n : Z) : Time :=
  if ((n <? 0) || (1000000000 <=? n))%bool then
    let q := Z.quot n 1000000000 in
    let s1 := s + q in
    let n1 := n - q * 1000000000 in
    if n1 <? 0 then mkTime (s1 - 1) (n1 + 1000000000) LocLocal
    else mkTime s1 n1 LocLocal
  else mkTime s n LocLocal.

Definition UTC (t : Time) : Time := mkTime (sec t) (nsec t) LocUTC.

End time.

#[global] Instance Location_eq_dec : EqDecision time.Location.
Proof. solve_decision. Defined.

#[global] Instance Time_eq_dec : EqDecision time.Time.
Proof. solve_decision. Defined.

(** ** Users

    Modelled from the spec: the declaration of [database.User] and of the tier
    constants ([database/user.go] is not among the sources).  A user has an
    identity, an external-identity subject, first and last name, email,
    password hash, billing-customer id, an integer tier and a
    subscription-expiry timestamp; the tiers are enumerated integers, taken
    here as parameters. *)
Record User : Type := mkUser {
  User_ID : string;
  Sub : string;
  FirstName : string;
  LastName : string;
  Email : string;
  PasswordHash : string;
  StripeId : string;
  Tier : Z;
  SubscribedUntil : time.Time
}.

Definition set_Tier (t : Z) (u : User) : User :=
  mkUser (User_ID u) (Sub u) (FirstName u) (LastName u) (Email u)
         (PasswordHash u) (StripeId u) t (SubscribedUntil u).

Definition set_SubscribedUntil (t : time.Time) (u : User) : User :=
  mkUser (User_ID u) (Sub u) (FirstName u) (LastName u) (Email u)
         (PasswordHash u) (StripeId u) (Tier u) t.

Class TierConsts : Type := {
  TierFree : Z;
  TierPremium5 : Z;
  TierPremium20 : Z;
  TierPremium80 : Z
}.

(** ** Stripe objects, the fields the handlers read or set.  A pointer field
    that may be [nil] is an [option]. *)
Record Customer : Type := { Customer_ID : string }.
Record Product : Type := { Product_ID : string }.
Record Plan : Type := { Plan_Product : option Product }.

Record Subscription : Type := {
  Subscription_ID : string;
  Subscription_Customer : option Customer;
  Subscription_Status : string;
  Subscription_Plan : option Plan;
  CurrentPeriodEnd : Z
}.

Definition SubscriptionStatusActive : string := "active".

Record CustomerParams : Type := {
  Description : option string;
  Params_Email : option string;
  Name : option string;
  Params_Plan : option string
}.

(** A handle on a MongoDB cursor. *)
Definition Cursor : Type := nat.

(** ** Calls to collaborators

    The database layer's user functions, Stripe's [customer.New] and
    [customer.Update], the driver's [Aggregate] and cursor methods, and the
    logger.  [resp] is what the caller gets back: a Go pair [(x, err)] is a
    pair of options.  [UserSetTier] is handed the pointer [u]: its answer
    includes the record [u] points to afterwards. *)
Inductive call : Type :=
| UserByStripeID (stripeID : string)
| UserSave (u : User)
| UserSetTier (u : User) (t : Z)
| customer_New (cp : CustomerParams)
| customer_Update (id : string) (cp : CustomerParams)
| Aggregate (coll : string) (pipeline : list doc)
| Cursor_Next (c : Cursor)
| Cursor_Decode (c : Cursor)
| Cursor_Close (c : Cursor)
| Log (level msg : string).

Definition resp (c : call) : Type :=
  match c with
  | UserByStripeID _ => option User * option error
  | UserSave _ => option error
  | UserSetTier _ _ => User * option error
  | customer_New _ => option Customer * option error
  | customer_Update _ _ => option Customer * option error
  | Aggregate _ _ => option Cursor * option error
  | Cursor_Next _ => bool
  | Cursor_Decode _ => Z * option error
  | Cursor_Close _ => option error
  | Log _ _ => unit
  end%type.

(** A call together with its answer, as recorded. *)
Inductive event : Type :=
| EvUserByStripeID (stripeID : string) (r : option User * option error)
| EvUserSave (u : User) (r : option error)
| EvUserSetTier (u : User) (t : Z) (r : User * option error)
| EvCustomerNew (cp : CustomerParams) (r : option Customer * option error)
| EvCustomerUpdate (id : string) (cp : CustomerParams) (r : option Customer * option error)
| EvAggregate (coll : string) (pipeline : list doc) (r : option Cursor * option error)
| EvNext (c : Cursor) (r : bool)
| EvDecode (c : Cursor) (r : Z * option error)
| EvClose (c : Cursor) (r : option error)
| EvLog (level msg : string).

Definition mk_event (c : call) : resp c -> event :=
  match c with
  | UserByStripeID id => EvUserByStripeID id
  | UserSave u => EvUserSave u
  | UserSetTier u t => EvUserSetTier u t
  | customer_New cp => EvCustomerNew cp
  | customer_Update id cp => EvCustomerUpdate id cp
  | Aggregate coll p => EvAggregate coll p
  | Cursor_Next c => EvNext c
  | Cursor_Decode c => EvDecode c
  | Cursor_Close c => EvClose c
  | Log l m => fun _ => EvLog l m
  end.

(** ** Programs: return, panic, or call a collaborator and go on with its
    answer. *)
Inductive Prog (R : Type) : Type :=
| Ret (r : R)
| Panic (msg : string)
| Do (c : call) (k : resp c -> Prog R).
Arguments Ret {R} r.
Arguments Panic {R} msg.
Arguments Do {R} c k.

Fixpoint bind {A B} (p : Prog A) (f : A -> Prog B) : Prog B :=
  match p with
  | Ret a => f a
  | Panic m => Panic m
  | Do c k => Do c (fun x => bind (k x) f)
  end.

Definition perform (c : call) : Prog (resp c) := Do c Ret.

(** Reading through a pointer: a [nil] pointer panics. *)
Definition deref {A} (p : option A) : Prog A :=
  match p with
  | Some a => Ret a
  | None => Panic "invalid memory address or nil pointer dereference"
  end.

Declare Scope prog_scope.
Delimit Scope prog_scope with prog.
Notation "x <- p ;; q" := (bind p (fun x => q))
  (at level 100, p at next level, right associativity) : prog_scope.
Notation "p ;; q" := (bind p (fun _ => q))
  (at level 100, right associativity) : prog_scope.

(** An environment answers every call, from a state of its own. *)
Definition Env (St : Type) : Type := St -> forall c : call, resp c * St.

Record Run (R St : Type) : Type := mkRun {
  value : option R;
  trace : list event;
  final : St
}.
Arguments mkRun {R St} value trace final.
Arguments value {R St} r.
Arguments trace {R St} r.
Arguments final {R St} r.

Fixpoint run {R St} (env : Env St) (st : St) (p : Prog R) : Run R St :=
  match p with
  | Ret r => mkRun (Some r) [] st
  | Panic _ => mkRun None [] st
  | Do c k =>
      let '(x, st') := env st c in
      let r := run env st' (k x) in
      mkRun (value r) (mk_event c x :: trace r) (final r)
  end.

(** The behaviours of a program, over all environments. *)
Fixpoint exec {R} (p : Prog R) (tr : list event) (v : option R) : Prop :=
  match p with
  | Ret r => tr = [] /\ v = Some r
  | Panic _ => tr = [] /\ v = None
  | Do c k => exists (x : resp c) tr', tr = mk_event c x :: tr' /\ exec (k x) tr' v
  end.

(** What a trace wrote to the database, fetched from it, and saved. *)
Definition is_db_write (e : event) : bool :=
  match e with
  | EvUserSave _ _ | EvUserSetTier _ _ _ => true
  | _ => false
  end.

Definition db_writes (tr : list event) : list event := List.filter is_db_write tr.

Definition fetched (tr : list event) : list User :=
  omap (fun e => match e with EvUserByStripeID _ (Some u, None) => Some u | _ => None end) tr.

Definition saved (tr : list event) : list User :=
  omap (fun e => match e with EvUserSave u _ => Some u | _ => None end) tr.

(* ===================================================================== *)
(** * Part IV. [database/database.go]: [count] *)
(* ===================================================================== *)

Local Open Scope prog_scope.

(** The deferred function closes the cursor once the result is computed, and
    logs a failure to close. *)
Definition count (coll : string) (matchStage : doc) : Prog (Z * option error) :=
  let pipeline := [matchStage; [("$count", BStr "count")]] in
  r <- perform (Aggregate coll pipeline) ;;
  let '(c, err) := r in
  match err with
  | Some e => Ret (0, Some (AddContext e "DB query failed"))
  | None =>
      c <- deref c ;;
      res <- (ok <- perform (Cursor_Next c) ;;
              if negb ok then
                (* No results found. This is expected. *)
                Ret (0, None)
              else
                d <- perform (Cursor_Decode c) ;;
                let '(n, err) := d in
                match err with
                | Some e => Ret (0, Some (AddContext e "failed to decode DB data"))
                | None => Ret (n, None)
                end) ;;
      errDef <- perform (Cursor_Close c) ;;
      match errDef with
      | Some _ => perform (Log "trace" "Error on closing DB cursor.") ;; Ret res
      | None => Ret res
      end
  end.

(* ===================================================================== *)
(** * Part V. Package [api]: the Stripe handlers *)
(* ===================================================================== *)

Section Billing.

Context `{TierConsts}.

(** [stripePlans] maps Stripe user plans to specific tiers. *)
Definition stripePlans : gmap string Z :=
  {[ "prod_J2FBsxvEl4VoUK" := TierFree;
     "prod_J06Q7nJH3HJcYN" := TierPremium5;
     "prod_J06Qu7zg1unO8R" := TierPremium20;
     "prod_J06QbGjCvmZQGZ" := TierPremium80 ]}.

(** A [range] over a Go map visits every entry once, in an order the runtime
    picks anew each time. *)
Definition range_of (m : gmap string Z) (order : list (string * Z)) : Prop :=
  order ≡ₚ map_to_list m.

(** [planForTier]: the loop over [range stripePlans], given the order in
    which this execution of the loop visits the entries. *)
Fixpoint planForTier (order : list (string * Z)) (t : Z) : string :=
  match order with
  | [] => ""
  | (plan, tier) :: rest => if tier =? t then plan else planForTier rest t
  end.

(** Lines 147-150 of [processSub]: the lookup in [stripePlans], unknown plans
    resolving to the free tier. *)
Definition tierForPlan (planID : string) : Z :=
  match stripePlans !! planID with
  | Some tier => tier
  | None => TierFree
  end.

Definition processSub (s : Subscription) : Prog (option error) :=
  perform (Log "trace" "Processing subscription:") ;;
  customer <- deref (Subscription_Customer s) ;;
  r <- perform (UserByStripeID (Customer_ID customer)) ;;
  let '(u, err) := r in
  match err with
  | Some e =>
      Ret (Some (AddContext e "failed to fetch user from DB based on subscription info"))
  | None =>
      u <- deref u ;;
      perform (Log "trace" "Subscribed user:") ;;
      let oldTier := Tier u in
      let oldSubbedUntil := SubscribedUntil u in
      u <- (if negb (String.eqb (Subscription_Status s) SubscriptionStatusActive) then
              (* The user's subscription is not active, demote them to "free". *)
              let u := set_Tier TierFree u in
              perform (Log "trace" "Subscription details: unsubscribed") ;;
              Ret u
            else
              (* Check the subscription plan and set it to the user. *)
              plan <- deref (Subscription_Plan s) ;;
              product <- deref (Plan_Product plan) ;;
              let tier := tierForPlan (Product_ID product) in
              let u := set_Tier tier u in
              let u := set_SubscribedUntil (time.UTC (time.Unix (CurrentPeriodEnd s) 0)) u in
              perform (Log "trace" "Subscription details: subscribed to tier %d until %s") ;;
              Ret u) ;;
      (* Avoid the trip to the DB if nothing has changed. *)
      if (negb (Tier u =? oldTier)
          || negb (bool_decide (SubscribedUntil u = oldSubbedUntil)))%bool
      then perform (UserSave u)
      else Ret None
  end.

(** [createStripeCustomer]; the user record [u] points to is returned next to
    the function's results. *)
Definition createStripeCustomer (order : list (string * Z)) (u : User)
  : Prog (User * (option Customer * option error)) :=
  let name := FirstName u ++ " " ++ LastName u in
  let freePlan := planForTier order (Tier u) in
  let cp := {| Description := Some (Sub u);
               Params_Email := Some (Email u);
               Name := Some name;
               Params_Plan := Some freePlan |} in
  r <- perform (customer_New cp) ;;
  Ret (u, r).

(** [assignTier]; [order1] and [order2] are the iteration orders of the two
    executions of [planForTier].  The user record [u] points to at the end is
    returned next to the error. *)
Definition assignTier (order1 order2 : list (string * Z)) (tier : Z) (u : User)
  : Prog (User * option error) :=
  let plan := planForTier order1 tier in
  let oldTier := Tier u in
  let cp := {| Description := None; Params_Email := None; Name := None;
               Params_Plan := Some plan |} in
  r <- perform (customer_Update (StripeId u) cp) ;;
  match snd r with
  | Some e => Ret (u, Some (AddContext e "failed to update customer on Stripe"))
  | None =>
      r <- perform (UserSetTier u tier) ;;
      let '(u, err) := r in
      match err with
      | Some e =>
          let err := AddContext e "failed to update user in DB" in
          (* Try to revert the change on Stripe's side. *)
          let plan := planForTier order2 oldTier in
          let cp := {| Description := None; Params_Email := None; Name := None;
                       Params_Plan := Some plan |} in
          r <- perform (customer_Update (StripeId u) cp) ;;
          let err2 :=
            match snd r with
            | Some e2 => Some (AddContext e2 "failed to revert the change on Stripe")
            | None => None
            end in
          Ret (u, Compose [Some err; err2])
      | None => Ret (u, None)
      end
  end.

End Billing.

(** Concrete tier constants and users, for the examples. *)
Definition demo_tiers : TierConsts :=
  {| TierFree := 1; TierPremium5 := 2; TierPremium20 := 3; TierPremium80 := 4 |}.

Definition demo_user : User :=
  mkUser "u1" "sub|1" "Ada" "Lovelace" "ada@example.com" "" "cus_1"
         2 (time.mkTime 1600000000 0 time.LocUTC).

(* ===================================================================== *)
(** * Part VI. Notions the statements use *)
(* ===================================================================== *)

(** The (tier, expiry) pair of a user record. *)
Definition tier_expiry (u : User) : Z * time.Time := (Tier u, SubscribedUntil u).

(** The (tier, expiry) a run of [processSub] resolved to: that of the record
    it saved, and when it saved none, that of the record it fetched. *)
Definition state_after (tr : list event) : option (Z * time.Time) :=
  match saved tr with
  | u' :: _ => Some (tier_expiry u')
  | [] => option_map tier_expiry (head (fetched tr))
  end.

(** The end of a run of [count] that opened cursor [c]: the deferred close,
    and a log line when closing failed. *)
Definition closes (c : Cursor) (tl : list event) : Prop :=
  tl = [EvClose c None]
  \/ exists e, tl = [EvClose c (Some e); EvLog "trace" "Error on closing DB cursor."].

(** Lines 141-154 of [processSub] without the log lines: what the record [u]
    is turned into, or nothing when reading the plan's product panics. *)
Definition reconciled `{TierConsts} (s : Subscription) (u : User) : option User :=
  if negb (String.eqb (Subscription_Status s) SubscriptionStatusActive) then
    Some (set_Tier TierFree u)
  else
    match Subscription_Plan s with
    | Some plan =>
        match Plan_Product plan with
        | Some product =>
            Some (set_SubscribedUntil (time.UTC (time.Unix (CurrentPeriodEnd s) 0))
                    (set_Tier (tierForPlan (Product_ID product)) u))
        | None => None
        end
    | None => None
    end.

(** The test of line 156. *)
Definition changed (u u' : User) : bool :=
  negb (Tier u' =? Tier u) || negb (bool_decide (SubscribedUntil u' = SubscribedUntil u)).

(** The parameters [assignTier] sends to Stripe: a plan and nothing else. *)
Definition plan_params (plan : string) : CustomerParams :=
  {| Description := None; Params_Email := None; Name := None;
     Params_Plan := Some plan |}.

(** What a run of [assignTier] can be. *)
Definition assignTier_outcome (order1 order2 : list (string * Z)) (tier : Z) (u : User)
    (tr : list event) (v : option (User * option error)) : Prop :=
  (exists c e,
      tr = [EvCustomerUpdate (StripeId u) (plan_params (planForTier order1 tier)) (c, Some e)]
      /\ v = Some (u, Some (AddContext e "failed to update customer on Stripe")))
  \/ (exists c u1,
        tr = [ EvCustomerUpdate (StripeId u) (plan_params (planForTier order1 tier)) (c, None);
               EvUserSetTier u tier (u1, None) ]
        /\ v = Some (u1, None))
  \/ (exists c u1 e c2,
        tr = [ EvCustomerUpdate (StripeId u) (plan_params (planForTier order1 tier)) (c, None);
               EvUserSetTier u tier (u1, Some e);
               EvCustomerUpdate (StripeId u1) (plan_params (planForTier order2 (Tier u)))
                 (c2, None) ]
        /\ v = Some (u1, Some (AddContext e "failed to update user in DB")))
  \/ (exists c u1 e c2 e2,
        tr = [ EvCustomerUpdate (StripeId u) (plan_params (planForTier order1 tier)) (c, None);
               EvUserSetTier u tier (u1, Some e);
               EvCustomerUpdate (StripeId u1) (plan_params (planForTier order2 (Tier u)))
                 (c2, Some e2) ]
        /\ v = Some (u1, Some (ErrComposed
                 [ AddContext e "failed to update user in DB";
                   AddContext e2 "failed to revert the change on Stripe" ]))).

(** What a run of [count] can be: the calls it made with their answers, and
    what it returned ([None] for a panic). *)
Definition count_outcome (coll : string) (matchStage : doc)
    (tr : list event) (v : option (Z * option error)) : Prop :=
  let pipeline := [matchStage; [("$count", BStr "count")]] in
  (exists c e,
      tr = [EvAggregate coll pipeline (c, Some e)]
      /\ v = Some (0, Some (AddContext e "DB query failed")))
  \/ (tr = [EvAggregate coll pipeline (None, None)] /\ v = None)
  \/ (exists c tl,
        closes c tl
        /\ tr = EvAggregate coll pipeline (Some c, None) :: EvNext c false :: tl
        /\ v = Some (0, None))
  \/ (exists c n e tl,
        closes c tl
        /\ tr = EvAggregate coll pipeline (Some c, None) :: EvNext c true
                  :: EvDecode c (n, Some e) :: tl
        /\ v = Some (0, Some (AddContext e "failed to decode DB data")))
  \/ (exists c n tl,
        closes c tl
        /\ tr = EvAggregate coll pipeline (Some c, None) :: EvNext c true
                  :: EvDecode c (n, None) :: tl
        /\ v = Some (n, None)).

(** The merge stage lets the record's own fields win: on a row whose join
    field holds the joined Skylink [sky] first, the new root has every field
    of the row, and the fields of [sky] the row does not have. *)
Definition record_fields_win (newRoot : bson) : Prop :=
  forall (record sky : doc) (others : list bson),
    let row := doc_set "fromSkylinks" (BArr (BDoc sky :: others)) record in
    exists merged,
      replace_root newRoot row = Ok merged
      /\ forall k, doc_get k merged =
                   match doc_get k row with
                   | Some v => Some v
                   | None => doc_get k sky
                   end.

(** Rows are newest first when no row has a [timestamp] below that of the
    row after it. *)
Definition newer_or_same (a b : doc) : Prop :=
  bson_compare (field_or_null "timestamp" a) (field_or_null "timestamp" b) <> Lt.

Definition sorts_newest_first (keys : list (string * Z)) : Prop :=
  forall (rows : list doc),
    sort_docs (sort_leb keys) rows ≡ₚ rows
    /\ Sorted newer_or_same (sort_docs (sort_leb keys) rows).

(** The seven stages of a listing pipeline, in order: the caller's stage, a
    sort that puts the newest rows first, skip, limit, the lookup of the
    Skylink by id, a merge in which the record's fields win, a projection. *)
Definition listing_pipeline (matchStage : doc) (offset pageSize : Z) (p : list doc) : Prop :=
  exists keys newRoot spec,
    length p = 7%nat
    /\ p !! 0%nat = Some matchStage
    /\ map parse_stage (drop 1 p) =
         [ Some (SSort keys);
           Some (SSkip offset);
           Some (SLimit pageSize);
           Some (SLookup "skylinks" "skylink_id" "_id" "fromSkylinks");
           Some (SReplaceRoot newRoot);
           Some (SProject spec) ]
    /\ keys = [("timestamp", -1)]
    /\ sorts_newest_first keys
    /\ record_fields_win newRoot.

(** The expression both pipelines give to [$replaceRoot]. *)
Definition merge_expr : bson :=
  BDoc [("$mergeObjects", BArr [
           BDoc [("$arrayElemAt", BArr [BStr "$fromSkylinks"; BInt 0])];
           BStr "$$ROOT"])].

(** The projection of the downloads pipeline. *)
Definition downloads_projection : doc :=
  [ ("skylink", BInt 1);
    ("name", BInt 1);
    ("user_id", BInt 1);
    ("skylink_id", BInt 1);
    ("timestamp", BInt 1);
    ("size", BDoc [
       ("$cond", BArr [
          BDoc [("$gt", BArr [BStr "$bytes"; BInt 0])];
          BStr "$bytes";
          BStr "$size"])]) ].

(** [$gt: [v, 0]] in the BSON order. *)
Definition gt_zero (v : option bson) : bool :=
  match value_compare v (Some (BInt 0)) with Gt => true | _ => false end.

(** The page of a listing: the matching rows, newest first, without the
    first [offset] of them, at most [pageSize] of them. *)
Definition page_of (query_matches : bson -> doc -> bool) (f : bson)
    (offset pageSize : Z) (rows : list doc) : list doc :=
  take (Z.to_nat pageSize)
    (drop (Z.to_nat offset)
       (sort_docs (sort_leb [("timestamp", -1)])
          (List.filter (query_matches f) rows))).

(** The row the lookup and merge stages make of a record [d]. *)
Definition lookup_row (db : string -> list doc) (d : doc) : doc :=
  doc_set "fromSkylinks"
    (BArr (map BDoc (joined (db "skylinks") "skylink_id" "_id" d))) d.

Definition merged_row (db : string -> list doc) (d : doc) : doc :=
  match joined (db "skylinks") "skylink_id" "_id" d with
  | [] => lookup_row db d
  | sky :: _ => doc_merge sky (lookup_row db d)
  end.

(** ** A reference driver

    An environment that answers the driver's calls by running the engine of
    Part I on stored collections: [Aggregate] opens a cursor on the rows the
    pipeline yields, [Next] advances it, [Decode] reads the [count] field of
    the current row into an [int64] (a missing field leaves the zero value).
    The other calls are not the driver's and are answered with an error. *)
Record Mongo : Type := mkMongo {
  collections : string -> list doc;
  cursors : list (option doc * list doc)
}.

Definition decode_count (d : doc) : Z * option error :=
  match doc_get "count" d with
  | Some (BInt n) => (n, None)
  | None => (0, None)
  | Some _ => (0, Some (ErrNew "cannot decode into an int64"))
  end.

Definition not_the_driver : error := ErrNew "not a call to the driver".

Definition mongo_env (query_matches : bson -> doc -> bool) : Env Mongo :=
  fun st c =>
    match c return resp c * Mongo with
    | Aggregate coll pipeline =>
        match run_pipeline query_matches (collections st) pipeline (collections st coll) with
        | Ok rows =>
            ((Some (length (cursors st)), None),
             mkMongo (collections st) (cursors st ++ [(None, rows)]))
        | Err m => ((None, Some (ErrNew m)), st)
        end
    | Cursor_Next c =>
        match cursors st !! c with
        | Some (_, d :: rest) =>
            (true, mkMongo (collections st) (<[c := (Some d, rest)]> (cursors st)))
        | _ => (false, st)
        end
    | Cursor_Decode c =>
        match cursors st !! c with
        | Some (Some d, _) => (decode_count d, st)
        | _ => ((0, Some (ErrNew "no current document")), st)
        end
    | Cursor_Close _ => (None, st)
    | Log _ _ => (tt, st)
    | UserByStripeID _ => ((None, Some not_the_driver), st)
    | UserSave _ => (Some not_the_driver, st)
    | UserSetTier u _ => ((u, Some not_the_driver), st)
    | customer_New _ => ((None, Some not_the_driver), st)
    | customer_Update _ _ => ((None, Some not_the_driver), st)
    end.

(** An environment with no state that answers every call with success; a
    lookup finds [u]. *)
Definition happy_env (u : User) : Env unit :=
  fun st c =>
    match c return resp c * unit with
    | UserByStripeID _ => ((Some u, None), st)
    | UserSave _ => (None, st)
    | UserSetTier u' t => ((set_Tier t u', None), st)
    | customer_New _ => ((Some {| Customer_ID := "cus_new" |}, None), st)
    | customer_Update id _ => ((Some {| Customer_ID := id |}, None), st)
    | Aggregate _ _ => ((Some 0%nat, None), st)
    | Cursor_Next _ => (false, st)
    | Cursor_Decode _ => ((0, None), st)
    | Cursor_Close _ => (None, st)
    | Log _ _ => (tt, st)
    end.

(** An environment in which the database refuses every write and Stripe
    accepts [budget] updates and refuses the later ones; its state is the
    number of updates Stripe has accepted. *)
Definition db_down_env (budget : nat) : Env nat :=
  fun st c =>
    match c return resp c * nat with
    | UserByStripeID _ => ((None, Some (ErrNew "db down")), st)
    | UserSave _ => (Some (ErrNew "db down"), st)
    | UserSetTier u _ => ((u, Some (ErrNew "db down")), st)
    | customer_New _ => ((None, Some (ErrNew "stripe down")), st)
    | customer_Update id _ =>
        if (st <? budget)%nat
        then ((Some {| Customer_ID := id |}, None), S st)
        else ((None, Some (ErrNew "stripe down")), st)
    | Aggregate _ _ => ((None, Some (ErrNew "db down")), st)
    | Cursor_Next _ => (false, st)
    | Cursor_Decode _ => ((0, Some (ErrNew "db down")), st)
    | Cursor_Close _ => (None, st)
    | Log _ _ => (tt, st)
    end.

Definition demo_sub (status plan : string) (periodEnd : Z) : Subscription :=
  {| Subscription_ID := "sub_1";
     Subscription_Customer := Some {| Customer_ID := "cus_1" |};
     Subscription_Status := status;
     Subscription_Plan := Some {| Plan_Product := Some {| Product_ID := plan |} |};
     CurrentPeriodEnd := periodEnd |}.

(** ** A driver that loses its connection while a cursor is read

    [Aggregate] and the other calls are answered by the reference driver;
    every [Next] fails.  The driver reports that as [Next] returning [false]
    and keeps the error for [Cursor.Err]: the second component of the state
    is the error [Cursor.Err] would return. *)
Definition broken_cursor_env (query_matches : bson -> doc -> bool)
  : Env (Mongo * option error) :=
  fun st c =>
    match c return resp c * (Mongo * option error) with
    | Cursor_Next _ => (false, (st.1, Some (ErrNew "connection reset by peer")))
    | c => let r := mongo_env query_matches st.1 c in (r.1, (r.2, st.2))
    end.

(* ===================================================================== *)
(** * Part VI-a. [user/user.go]: the email validator *)
(* ===================================================================== *)

(** ** Regular expressions, the part of Go's [regexp] syntax the validator's
    pattern uses: literals, character classes given by ranges, concatenation,
    [+] and [{lo,hi}].  A Go string is its bytes. *)
Module regexp.

Inductive Regexp : Type :=
| NoMatch
| EmptyMatch
| Literal (c : ascii)
| CharClass (ranges : list (ascii * ascii))
| Concat (r1 r2 : Regexp)
| Alternate (r1 r2 : Regexp)
| Star (r : Regexp).

(** [r+] *)
Definition Plus (r : Regexp) : Regexp := Concat r (Star r).

(** [r{lo,hi}] *)
Fixpoint Repeat (r : Regexp) (lo hi : nat) : Regexp :=
  match hi with
  | O => match lo with O => EmptyMatch | S _ => NoMatch end
  | S hi' =>
      match lo with
      | O => Alternate EmptyMatch (Concat r (Repeat r 0 hi'))
      | S lo' => Concat r (Repeat r lo' hi')
      end
  end.

Definition in_ranges (ranges : list (ascii * ascii)) (c : ascii) : bool :=
  existsb (fun lh => (nat_of_ascii (fst lh) <=? nat_of_ascii c)%nat
                     && (nat_of_ascii c <=? nat_of_ascii (snd lh))%nat) ranges.

(** The strings a regular expression matches in whole. *)
Inductive Matches : Regexp -> list ascii -> Prop :=
| MatchesEmpty : Matches EmptyMatch []
| MatchesLiteral c : Matches (Literal c) [c]
| MatchesClass ranges c : in_ranges ranges c = true -> Matches (CharClass ranges) [c]
| MatchesConcat r1 r2 s1 s2 :
    Matches r1 s1 -> Matches r2 s2 -> Matches (Concat r1 r2) (s1 ++ s2)
| MatchesLeft r1 r2 s : Matches r1 s -> Matches (Alternate r1 r2) s
| MatchesRight r1 r2 s : Matches r2 s -> Matches (Alternate r1 r2) s
| MatchesStarNil r : Matches (Star r) []
| MatchesStarApp r s1 s2 :
    Matches r s1 -> Matches (Star r) s2 -> Matches (Star r) (s1 ++ s2).

(** The matcher: the derivative of the expression by each byte in turn. *)
Fixpoint nullable (r : Regexp) : bool :=
  match r with
  | NoMatch | Literal _ | CharClass _ => false
  | EmptyMatch | Star _ => true
  | Concat r1 r2 => nullable r1 && nullable r2
  | Alternate r1 r2 => nullable r1 || nullable r2
  end.

Fixpoint derive (c : ascii) (r : Regexp) : Regexp :=
  match r with
  | NoMatch | EmptyMatch => NoMatch
  | Literal c' => if Ascii.eqb c' c then EmptyMatch else NoMatch
  | CharClass ranges => if in_ranges ranges c then EmptyMatch else NoMatch
  | Concat r1 r2 =>
      if nullable r1
      then Alternate (Concat (derive c r1) r2) (derive c r2)
      else Concat (derive c r1) r2
  | Alternate r1 r2 => Alternate (derive c r1) (derive c r2)
  | Star r1 => Concat (derive c r1) (Star r1)
  end.

Fixpoint match_bytes (r : Regexp) (s : list ascii) : bool :=
  match s with
  | [] => nullable r
  | c :: s' => match_bytes (derive c r) s'
  end.

(** [MatchString] of a pattern anchored by [^] and [$] (no flags: [$] is the
    end of the text): the whole string matches. *)
Definition MatchString (r : Regexp) (s : string) : bool :=
  match_bytes r (list_ascii_of_string s).

End regexp.

(** [EmailValidatorRegEx]:
    [^[A-Z0-9a-z._%+-]+@[A-Za-z0-9.-]+\.[A-Za-z]{2,64}$] *)
Definition EmailValidatorRegEx : regexp.Regexp :=
  let r c1 c2 : ascii * ascii := (c1, c2) in
  let one c : ascii * ascii := (c, c) in
  regexp.Concat
    (regexp.Plus (regexp.CharClass
       [r "A" "Z"; r "0" "9"; r "a" "z"; one "."; one "_"; one "%"; one "+"; one "-"])%char)
    (regexp.Concat (regexp.Literal "@")
       (regexp.Concat
          (regexp.Plus (regexp.CharClass
             [r "A" "Z"; r "a" "z"; r "0" "9"; one "."; one "-"])%char)
          (regexp.Concat (regexp.Literal ".")
             (regexp.Repeat (regexp.CharClass [r "A" "Z"; r "a" "z"]%char) 2 64)))).

(** [Email.Validate] *)
Definition Validate (e : string) : bool :=
  regexp.MatchString EmailValidatorRegEx e.

(** The bytes the pattern's three classes hold. *)
Definition is_letter (c : ascii) : bool :=
  let n := nat_of_ascii c in
  ((65 <=? n) && (n <=? 90) || (97 <=? n) && (n <=? 122))%nat.

Definition is_digit (c : ascii) : bool :=
  let n := nat_of_ascii c in ((48 <=? n) && (n <=? 57))%nat.

Definition is_local_byte (c : ascii) : bool :=
  is_letter c || is_digit c
  || Ascii.eqb c "." || Ascii.eqb c "_" || Ascii.eqb c "%"
  || Ascii.eqb c "+" || Ascii.eqb c "-".

Definition is_domain_byte (c : ascii) : bool :=
  is_letter c || is_digit c || Ascii.eqb c "." || Ascii.eqb c "-".

(* ===================================================================== *)
(** * Part VI-b. [database/database.go]: the connection string *)
(* ===================================================================== *)

(** ** [net/url]: [QueryEscape] and [QueryUnescape], on the bytes of a string *)
Module url.

(** [shouldEscape(c, encodeQueryComponent)]: everything but letters, digits
    and [-_.~]. *)
Definition shouldEscape (c : ascii) : bool :=
  negb (is_letter c || is_digit c
        || Ascii.eqb c "-" || Ascii.eqb c "_" || Ascii.eqb c "." || Ascii.eqb c "~").

(** ["0123456789ABCDEF"[n]] *)
Definition upperhex (n : nat) : ascii :=
  if (n <? 10)%nat then ascii_of_nat (48 + n) else ascii_of_nat (55 + n).

Definition escape_byte (c : ascii) : list ascii :=
  if shouldEscape c then
    if Ascii.eqb c " " then ["+"%char]
    else [ "%"%char; upperhex (nat_of_ascii c / 16); upperhex (nat_of_ascii c mod 16) ]
  else [c].

Definition escape_bytes (s : list ascii) : list ascii := flat_map escape_byte s.

Definition QueryEscape (s : string) : string :=
  string_of_list_ascii (escape_bytes (list_ascii_of_string s)).

Definition ishex (c : ascii) : bool :=
  let n := nat_of_ascii c in
  (((48 <=? n) && (n <=? 57)) || ((97 <=? n) && (n <=? 102))
   || ((65 <=? n) && (n <=? 70)))%nat.

Definition unhex (c : ascii) : nat :=
  let n := nat_of_ascii c in
  if ((48 <=? n) && (n <=? 57))%nat then n - 48
  else if ((97 <=? n) && (n <=? 102))%nat then n - 97 + 10
  else if ((65 <=? n) && (n <=? 70))%nat then n - 65 + 10
  else 0.

(** [unescape(s, encodeQueryComponent)]: [None] is the [EscapeError] of a
    [%] that two hexadecimal digits do not follow. *)
Fixpoint unescape_bytes (s : list ascii) : option (list ascii) :=
  match s with
  | [] => Some []
  | c :: rest =>
      if Ascii.eqb c "%" then
        match rest with
        | h :: l :: rest' =>
            if ishex h && ishex l
            then option_map (cons (ascii_of_nat (unhex h * 16 + unhex l)))
                            (unescape_bytes rest')
            else None
        | _ => None
        end
      else if Ascii.eqb c "+" then option_map (cons " "%char) (unescape_bytes rest)
      else option_map (cons c) (unescape_bytes rest)
  end.

Definition QueryUnescape (s : string) : option string :=
  option_map string_of_list_ascii (unescape_bytes (list_ascii_of_string s)).

End url.

Record DBCredentials : Type := {
  Creds_User : string;
  Creds_Password : string;
  Creds_Host : string;
  Creds_Port : string
}.

Definition mongoCompressors : string := "zstd,zlib,snappy".
Definition mongoReadPreference : string := "nearest".
Definition mongoWriteConcern : string := "majority".
Definition mongoWriteConcernTimeout : string := "1000".

(** [connectionString]: the [Sprintf] of
    ["mongodb://%s:%s@%s:%s/?compressors=%s&readPreference=%s&w=%s&wtimeoutMS=%s"]. *)
Definition connectionString (creds : DBCredentials) : string :=
  "mongodb://" ++ url.QueryEscape (Creds_User creds)
  ++ ":" ++ url.QueryEscape (Creds_Password creds)
  ++ "@" ++ Creds_Host creds
  ++ ":" ++ Creds_Port creds
  ++ "/?compressors=" ++ mongoCompressors
  ++ "&readPreference=" ++ mongoReadPreference
  ++ "&w=" ++ mongoWriteConcern
  ++ "&wtimeoutMS=" ++ mongoWriteConcernTimeout.

(** Reading a connection string back: the text after the scheme up to the
    first [@] is the user information, in it the text up to the first [:] is
    the user name and the rest the password, both escaped. *)
Fixpoint cut_at (c : ascii) (s : list ascii) : option (list ascii * list ascii) :=
  match s with
  | [] => None
  | x :: s' =>
      if Ascii.eqb x c then Some ([], s')
      else option_map (fun bs => (x :: fst bs, snd bs)) (cut_at c s')
  end.

Definition userinfo_of (uri : string) : option (string * string) :=
  match cut_at "@" (drop 10 (list_ascii_of_string uri)) with
  | Some (userinfo, _) =>
      match cut_at ":" userinfo with
      | Some (user, password) =>
          match url.unescape_bytes user, url.unescape_bytes password with
          | Some u, Some p => Some (string_of_list_ascii u, string_of_list_ascii p)
          | _, _ => None
          end
      | None => None
      end
  | None => None
  end.

(** The host part of a connection string: what follows the first [@]. *)
Definition hostinfo_of (uri : string) : option string :=
  match cut_at "@" (drop 10 (list_ascii_of_string uri)) with
  | Some (_, rest) => Some (string_of_list_ascii rest)
  | None => None
  end.

(* ===================================================================== *)
(** * Part VI-c. The rows of a listing *)
(* ===================================================================== *)

(** Field [k] of a record [d] after the lookup and the merge: the record's
    own value, and where it has none the value of the first joined Skylink. *)
Definition merged_field (db : string -> list doc) (d : doc) (k : string) : option bson :=
  match doc_get k d with
  | Some v => Some v
  | None =>
      match joined (db "skylinks") "skylink_id" "_id" d with
      | sky :: _ => doc_get k sky
      | [] => None
      end
  end.

(** The fields the downloads projection includes, [_id] among them. *)
Definition download_fields : list string :=
  ["_id"; "skylink"; "name"; "user_id"; "skylink_id"; "timestamp"].

(** The row the downloads projection makes of a merged row [m]. *)
Definition download_row (m : doc) : doc :=
  let kept := List.filter (fun kv => keeps downloads_projection (fst kv)) m in
  match (if gt_zero (doc_get "bytes" m) then doc_get "bytes" m else doc_get "size" m) with
  | Some x => doc_set "size" x kept
  | None => doc_remove "size" kept
  end.

(** Every row has a date as its [timestamp], and no two rows have the same:
    a sort on [timestamp] has no tie to break. *)
Definition dated_apart (rows : list doc) : Prop :=
  exists dates : list Z,
    map (field_or_null "timestamp") rows = map BDate dates /\ NoDup dates.

(** The date of a row whose [timestamp] is one. *)
Definition date_of (d : doc) : Z :=
  match field_or_null "timestamp" d with
  | BDate ms => ms
  | _ => 0
  end.

(** The two pipeline builders. *)
Definition is_listing_builder (gen : doc -> Z -> Z -> list doc) : Prop :=
  gen = generateUploadsPipeline \/ gen = generateDownloadsPipeline.

(* ===================================================================== *)
(** * Part VI-d. Reading a trace of [processSub] *)
(* ===================================================================== *)

(** The calls of a trace to Stripe, and the Stripe ids it looked users up by. *)
Definition is_stripe_call (e : event) : bool :=
  match e with
  | EvCustomerNew _ _ | EvCustomerUpdate _ _ _ => true
  | _ => false
  end.

Definition stripe_calls (tr : list event) : list event := List.filter is_stripe_call tr.

Definition lookups (tr : list event) : list string :=
  omap (fun e => match e with EvUserByStripeID id _ => Some id | _ => None end) tr.

(** The calls [processSub] may make: log lines, the lookup of a user, a save. *)
Definition is_processSub_call (e : event) : bool :=
  match e with
  | EvLog _ _ | EvUserByStripeID _ _ | EvUserSave _ _ => true
  | _ => false
  end.

(** An active subscription with no plan, for the examples. *)
Definition planless_sub : Subscription :=
  {| Subscription_ID := "sub_2";
     Subscription_Customer := Some {| Customer_ID := "cus_1" |};
     Subscription_Status := "active";
     Subscription_Plan := None;
     CurrentPeriodEnd := 1700000000 |}.

(** A pointer [processSub] reads through is [nil]: the customer, or on an
    active subscription the plan or the plan's product. *)
Definition missing_pointer (s : Subscription) : Prop :=
  Subscription_Customer s = None
  \/ (Subscription_Status s = SubscriptionStatusActive
      /\ match Subscription_Plan s with
         | Some plan => Plan_Product plan = None
         | None => True
         end).

(* ===================================================================== *)
(** * Part VI-e. Programs over any set of calls *)
(* ===================================================================== *)

(** The programs of Part III, for any type of calls [C] with answers [R c]
    recorded as events [Ev]. *)
Section Free.

Variable C : Type.
Variable R : C -> Type.
Variable Ev : Type.
Variable mk : forall c : C, R c -> Ev.

Inductive Free (A : Type) : Type :=
| FRet (a : A)
| FPanic (msg : string)
| FDo (c : C) (k : R c -> Free A).
Arguments FRet {A} a.
Arguments FPanic {A} msg.
Arguments FDo {A} c k.

Fixpoint fbind {A B} (p : Free A) (f : A -> Free B) : Free B :=
  match p with
  | FRet a => f a
  | FPanic m => FPanic m
  | FDo c k => FDo c (fun x => fbind (k x) f)
  end.

Definition fperform (c : C) : Free (R c) := FDo c FRet.

Definition fderef {A} (p : option A) : Free A :=
  match p with
  | Some a => FRet a
  | None => FPanic "invalid memory address or nil pointer dereference"
  end.

(** A run in an environment: the result ([None] for a panic), the calls with
    their answers, the environment's last state. *)
Fixpoint frun {A St} (env : St -> forall c : C, R c * St) (st : St) (p : Free A)
  : option A * list Ev * St :=
  match p with
  | FRet a => (Some a, [], st)
  | FPanic _ => (None, [], st)
  | FDo c k =>
      let '(x, st') := env st c in
      let '(v, tr, st'') := frun env st' (k x) in
      (v, mk c x :: tr, st'')
  end.

Fixpoint fexec {A} (p : Free A) (tr : list Ev) (v : option A) : Prop :=
  match p with
  | FRet a => tr = [] /\ v = Some a
  | FPanic _ => tr = [] /\ v = None
  | FDo c k => exists (x : R c) tr', tr = mk c x :: tr' /\ fexec (k x) tr' v
  end.

End Free.

Arguments FRet {C R A} a.
Arguments FPanic {C R A} msg.
Arguments FDo {C R A} c k.
Arguments fbind {C R A B} p f.
Arguments fperform {C R} c.
Arguments fderef {C R A} p.
Arguments frun {C R Ev} mk {A St} env st p.
Arguments fexec {C R Ev} mk {A} p tr v.

Declare Scope free_scope.
Delimit Scope free_scope with free.
Notation "x <- p ;; q" := (fbind p (fun x => q))
  (at level 100, p at next level, right associativity) : free_scope.
Notation "p ;; q" := (fbind p (fun _ => q))
  (at level 100, right associativity) : free_scope.

(* ===================================================================== *)
(** * Part VI-f. [database/database.go]: [New] and the schema *)
(* ===================================================================== *)

Definition dbName : string := "skynet".
Definition dbUsersCollection : string := "users".
Definition dbSkylinksCollection : string := "skylinks".
Definition dbUploadsCollection : string := "uploads".
Definition dbDownloadsCollection : string := "downloads".
Definition dbRegistryReadsCollection : string := "registry_reads".
Definition dbRegistryWritesCollection : string := "registry_writes".

(** ** The driver's objects, as handles *)
Module mongo.

Definition Client : Type := nat.
Definition Collection : Type := nat.

(** [c.Database(name)] makes no call: a database is a client and a name. *)
Record Database : Type := mkDatabase {
  Database_Client : Client;
  Database_Name : string
}.

(** An index: its keys, and the options set on it. *)
Record IndexModel : Type := mkIndexModel {
  Keys : doc;
  Options_Name : option string;
  Options_Unique : option bool
}.

End mongo.

Inductive Logger : Type :=
| LoggerZero                (* [&logrus.Logger{}] *)
| LoggerAt (id : nat).

Record DB : Type := mkDB {
  staticDB : mongo.Database;
  staticUsers : option mongo.Collection;
  staticSkylinks : option mongo.Collection;
  staticUploads : option mongo.Collection;
  staticDownloads : option mongo.Collection;
  staticRegistryReads : option mongo.Collection;
  staticRegistryWrites : option mongo.Collection;
  staticLogger : Logger
}.

(** ** Calls to the driver and the logger *)
Inductive setup_call : Type :=
| mongo_NewClient (uri : string)
| Client_Connect (c : mongo.Client)
| Client_Disconnect (c : mongo.Client)
| Database_Collection (db : mongo.Database) (name : string)
| Database_CreateCollection (db : mongo.Database) (name : string)
| IndexView_CreateMany (coll : mongo.Collection) (models : list mongo.IndexModel)
| Logger_Debugf (log : Logger) (format : string) (names : list string).

Definition setup_resp (c : setup_call) : Type :=
  match c with
  | mongo_NewClient _ => option mongo.Client * option error
  | Client_Connect _ => option error
  | Client_Disconnect _ => option error
  | Database_Collection _ _ => option mongo.Collection
  | Database_CreateCollection _ _ => option error
  | IndexView_CreateMany _ _ => list string * option error
  | Logger_Debugf _ _ _ => unit
  end%type.

Inductive setup_event : Type :=
| EvNewClient (uri : string) (r : option mongo.Client * option error)
| EvConnect (c : mongo.Client) (r : option error)
| EvDisconnect (c : mongo.Client) (r : option error)
| EvCollection (db : mongo.Database) (name : string) (r : option mongo.Collection)
| EvCreateCollection (db : mongo.Database) (name : string) (r : option error)
| EvCreateMany (coll : mongo.Collection) (models : list mongo.IndexModel)
    (r : list string * option error)
| EvDebugf (log : Logger) (format : string) (names : list string).

Definition mk_setup_event (c : setup_call) : setup_resp c -> setup_event :=
  match c with
  | mongo_NewClient uri => EvNewClient uri
  | Client_Connect c => EvConnect c
  | Client_Disconnect c => EvDisconnect c
  | Database_Collection db name => EvCollection db name
  | Database_CreateCollection db name => EvCreateCollection db name
  | IndexView_CreateMany coll models => EvCreateMany coll models
  | Logger_Debugf log format names => fun _ => EvDebugf log format names
  end.

Definition Setup (A : Type) : Type := Free setup_call setup_resp A.

Section Schema.

Local Open Scope free_scope.

(** [ensureCollection] gets the given collection from the database and
    creates it if it doesn't exist. *)
Definition ensureCollection (db : mongo.Database) (collName : string)
  : Setup (option mongo.Collection * option error) :=
  coll <- fperform (Database_Collection db collName) ;;
  match coll with
  | None =>
      err <- fperform (Database_CreateCollection db collName) ;;
      match err with
      | Some e => FRet (None, Some e)
      | None =>
          coll <- fperform (Database_Collection db collName) ;;
          match coll with
          | None => FRet (None, Some (ErrNew ("failed to create collection " ++ collName)))
          | Some c => FRet (Some c, None)
          end
      end
  | Some c => FRet (Some c, None)
  end.

Definition index_on (key name : string) (unique : option bool) : mongo.IndexModel :=
  mongo.mkIndexModel [(key, BInt 1)] (Some name) unique.

(** [schema] defines a mapping between a collection name and the indexes that
    must exist for that collection. *)
Definition schema : gmap string (list mongo.IndexModel) :=
  {[ dbUsersCollection := [index_on "sub" "sub_unique" (Some true)];
     dbSkylinksCollection := [index_on "skylink" "skylink_unique" (Some true)];
     dbUploadsCollection := [index_on "user_id" "user_id" None;
                             index_on "skylink_id" "skylink_id" None];
     dbDownloadsCollection := [index_on "user_id" "user_id" None;
                               index_on "skylink_id" "skylink_id" None];
     dbRegistryReadsCollection := [index_on "user_id" "user_id" None];
     dbRegistryWritesCollection := [index_on "user_id" "user_id" None] ]}.

(** The orders in which a [range] may visit [schema]. *)
Definition schema_range (order : list (string * list mongo.IndexModel)) : Prop :=
  order ≡ₚ map_to_list schema.

(** The loop of [ensureDBSchema] over the entries still to visit. *)
Fixpoint ensureDBSchema_loop (db : mongo.Database) (log : Logger)
    (order : list (string * list mongo.IndexModel)) : Setup (option error) :=
  match order with
  | [] => FRet None
  | (collName, models) :: rest =>
      r <- ensureCollection db collName ;;
      match snd r with
      | Some e => FRet (Some e)
      | None =>
          coll <- fderef (fst r) ;;
          r <- fperform (IndexView_CreateMany coll models) ;;
          match snd r with
          | Some e => FRet (Some (AddContext e "failed to create indexes"))
          | None =>
              fperform (Logger_Debugf log "Ensured index exists: %v" (fst r)) ;;
              ensureDBSchema_loop db log rest
          end
      end
  end.

(** [ensureDBSchema], given the order in which this execution visits the
    schema. *)
Definition ensureDBSchema (order : list (string * list mongo.IndexModel))
    (db : mongo.Database) (log : Logger) : Setup (option error) :=
  ensureDBSchema_loop db log order.

(** [New] returns a new DB connection based on the passed parameters. *)
Definition New (order : list (string * list mongo.IndexModel))
    (creds : DBCredentials) (logger : option Logger) : Setup (option DB * option error) :=
  let connStr := connectionString creds in
  r <- fperform (mongo_NewClient connStr) ;;
  match snd r with
  | Some e => FRet (None, Some (AddContext e "failed to create a new DB client"))
  | None =>
      c <- fderef (fst r) ;;
      err <- fperform (Client_Connect c) ;;
      match err with
      | Some e => FRet (None, Some (AddContext e "failed to connect to DB"))
      | None =>
          let database := mongo.mkDatabase c dbName in
          let logger := match logger with None => LoggerZero | Some l => l end in
          err <- ensureDBSchema order database logger ;;
          match err with
          | Some e => FRet (None, Some e)
          | None =>
              users <- fperform (Database_Collection database dbUsersCollection) ;;
              skylinks <- fperform (Database_Collection database dbSkylinksCollection) ;;
              uploads <- fperform (Database_Collection database dbUploadsCollection) ;;
              downloads <- fperform (Database_Collection database dbDownloadsCollection) ;;
              reads <- fperform (Database_Collection database dbRegistryReadsCollection) ;;
              writes <- fperform (Database_Collection database dbRegistryWritesCollection) ;;
              FRet (Some (mkDB database users skylinks uploads downloads reads writes logger),
                    None)
          end
      end
  end.

(** [Disconnect] closes the connection to the database. *)
Definition Disconnect (db : DB) : Setup (option error) :=
  fperform (Client_Disconnect (mongo.Database_Client (staticDB db))).

End Schema.

(** ** Reading a trace of the setup *)

(** The index requests of a trace: the collection and the models of each
    [CreateMany] that succeeded. *)
Definition indexed (tr : list setup_event) : list (mongo.Collection * list mongo.IndexModel) :=
  omap (fun e => match e with
                 | EvCreateMany coll models (_, None) => Some (coll, models)
                 | _ => None
                 end) tr.

(** The collections a trace asked to create. *)
Definition creations (tr : list setup_event) : list string :=
  omap (fun e => match e with
                 | EvCreateCollection _ name _ => Some name
                 | _ => None
                 end) tr.

(** The calls of a trace that answered with an error. *)
Definition setup_failed (e : setup_event) : bool :=
  match e with
  | EvNewClient _ (_, Some _) | EvConnect _ (Some _) | EvDisconnect _ (Some _)
  | EvCreateCollection _ _ (Some _) | EvCreateMany _ _ (_, Some _) => true
  | _ => false
  end.

(** The calls by which [ensureCollection] comes to hold collection [c]: it
    was there, or it was not, was created, and was there then. *)
Definition ensured (db : mongo.Database) (name : string) (c : mongo.Collection)
    (tr : list setup_event) : Prop :=
  tr = [EvCollection db name (Some c)]
  \/ tr = [EvCollection db name None; EvCreateCollection db name None;
           EvCollection db name (Some c)].

(** The calls of one turn of the loop of [ensureDBSchema] that went well. *)
Definition entry_done (db : mongo.Database) (log : Logger)
    (entry : string * list mongo.IndexModel) (tr : list setup_event) : Prop :=
  exists c names pre,
    ensured db entry.1 c pre
    /\ tr = (pre ++ [EvCreateMany c entry.2 (names, None);
                     EvDebugf log "Ensured index exists: %v" names])%list.

(** The calls of a turn that failed, and the error the function returns. *)
Definition entry_failed (db : mongo.Database)
    (entry : string * list mongo.IndexModel) (tr : list setup_event) (err : error) : Prop :=
  (exists e, tr = [EvCollection db entry.1 None; EvCreateCollection db entry.1 (Some e)]
             /\ err = e)
  \/ (tr = [EvCollection db entry.1 None; EvCreateCollection db entry.1 None;
            EvCollection db entry.1 None]
      /\ err = ErrNew ("failed to create collection " ++ entry.1))
  \/ (exists c names e pre,
        ensured db entry.1 c pre
        /\ tr = (pre ++ [EvCreateMany c entry.2 (names, Some e)])%list
        /\ err = AddContext e "failed to create indexes").

(** What a run of [ensureDBSchema] can be: every entry done, or the entries
    before one that failed done and nothing after the failure. *)
Definition schema_outcome (db : mongo.Database) (log : Logger)
    (order : list (string * list mongo.IndexModel))
    (tr : list setup_event) (v : option (option error)) : Prop :=
  (exists turns, Forall2 (entry_done db log) order turns
                 /\ tr = concat turns /\ v = Some None)
  \/ (exists before entry after turns last err,
        order = (before ++ entry :: after)%list
        /\ Forall2 (entry_done db log) before turns
        /\ entry_failed db entry last err
        /\ tr = (concat turns ++ last)%list
        /\ v = Some (Some err)).

(** The error [ensureDBSchema] makes of a failed call: that of
    [CreateCollection] as it is, that of [CreateMany] with a context. *)
Definition schema_error (e : setup_event) : option error :=
  match e with
  | EvCreateCollection _ _ (Some x) => Some x
  | EvCreateMany _ _ (_, Some x) => Some (AddContext x "failed to create indexes")
  | _ => None
  end.

(** The six lookups by which [New] fills the fields of [db]. *)
Definition field_lookups (db : DB) : list setup_event :=
  [ EvCollection (staticDB db) dbUsersCollection (staticUsers db);
    EvCollection (staticDB db) dbSkylinksCollection (staticSkylinks db);
    EvCollection (staticDB db) dbUploadsCollection (staticUploads db);
    EvCollection (staticDB db) dbDownloadsCollection (staticDownloads db);
    EvCollection (staticDB db) dbRegistryReadsCollection (staticRegistryReads db);
    EvCollection (staticDB db) dbRegistryWritesCollection (staticRegistryWrites db) ].

Definition is_disconnect (e : setup_event) : bool :=
  match e with EvDisconnect _ _ => true | _ => false end.

Definition is_connect (e : setup_event) : bool :=
  match e with EvConnect _ None => true | _ => false end.

(** ** Two drivers, for the examples

    One whose database has every collection, and one whose database is
    empty: its state is the list of the collections created so far.  Both
    answer every other call with success; a collection's handle is the
    length of its name. *)
Definition healthy_driver : unit -> forall c : setup_call, setup_resp c * unit :=
  fun st c =>
    match c return setup_resp c * unit with
    | mongo_NewClient _ => ((Some 1%nat, None), st)
    | Client_Connect _ => (None, st)
    | Client_Disconnect _ => (None, st)
    | Database_Collection _ name => (Some (String.length name), st)
    | Database_CreateCollection _ _ => (None, st)
    | IndexView_CreateMany _ models => ((omap mongo.Options_Name models, None), st)
    | Logger_Debugf _ _ _ => (tt, st)
    end.

Definition empty_driver : list string -> forall c : setup_call, setup_resp c * list string :=
  fun st c =>
    match c return setup_resp c * list string with
    | mongo_NewClient _ => ((Some 1%nat, None), st)
    | Client_Connect _ => (None, st)
    | Client_Disconnect _ => (None, st)
    | Database_Collection _ name =>
        (if bool_decide (name ∈ st) then Some (String.length name) else None, st)
    | Database_CreateCollection _ name => (None, name :: st)
    | IndexView_CreateMany _ models => ((omap mongo.Options_Name models, None), st)
    | Logger_Debugf _ _ _ => (tt, st)
    end.

(** A driver that cannot create indexes. *)
Definition readonly_driver : unit -> forall c : setup_call, setup_resp c * unit :=
  fun st c =>
    match c return setup_resp c * unit with
    | IndexView_CreateMany _ _ => (([], Some (ErrNew "not authorized")), st)
    | c => healthy_driver st c
    end.

Definition demo_creds : DBCredentials :=
  {| Creds_User := "admin"; Creds_Password := "p@ss:w/rd"; Creds_Host := "localhost";
     Creds_Port := "27017" |}.

(* ===================================================================== *)
(** * Part VI-g. Package [api]: the Stripe webhook *)
(* ===================================================================== *)

Module strings.

(** [strings.Contains(s, substr)] *)
Fixpoint Contains (s substr : string) : bool :=
  String.prefix substr s
  || match s with
     | EmptyString => false
     | String _ s' => Contains s' substr
     end.

End strings.

(** A reader is what it yields: bytes, and then the end of the input or an
    error. *)
Definition Reader : Type := (list ascii * option error)%type.

Module http.

Definition StatusOK : Z := 200.
Definition StatusBadRequest : Z := 400.
Definition StatusServiceUnavailable : Z := 503.

(** [http.MaxBytesReader]: the reader [r] cut after [n] bytes; reading past
    them is an error. *)
Definition MaxBytesReader (n : Z) (r : Reader) : Reader :=
  if n <? Z.of_nat (length r.1)
  then (take (Z.to_nat n) r.1, Some (ErrNew "http: request body too large"))
  else r.

(** A request: its headers and its body. *)
Record Request : Type := mkRequest {
  Header : list (string * string);
  Body : Reader
}.

End http.

Module ioutil.

(** [ioutil.ReadAll]: everything the reader yields; the end of the input is
    no error. *)
Definition ReadAll (r : Reader) : list ascii * option error := r.

End ioutil.

(** [stripe.Event], the fields the handler reads. *)
Record EventData : Type := { Raw : list ascii }.

Record Event : Type := {
  Event_Type : string;
  Event_Data : option EventData
}.

(** ** Calls of the handler: those of Part III, Stripe's [sub.Get], and the
    two ways to answer the request. *)
Inductive hook_call : Type :=
| Inner (c : call)
| sub_Get (id : string)
| WriteError (err : error) (code : Z)
| WriteSuccess.

Definition hook_resp (c : hook_call) : Type :=
  match c with
  | Inner c => resp c
  | sub_Get _ => option Subscription * option error
  | WriteError _ _ => unit
  | WriteSuccess => unit
  end%type.

Inductive hook_event : Type :=
| EvInner (e : event)
| EvSubGet (id : string) (r : option Subscription * option error)
| EvWriteError (err : error) (code : Z)
| EvWriteSuccess.

Definition mk_hook_event (c : hook_call) : hook_resp c -> hook_event :=
  match c with
  | Inner c => fun x => EvInner (mk_event c x)
  | sub_Get id => EvSubGet id
  | WriteError err code => fun _ => EvWriteError err code
  | WriteSuccess => fun _ => EvWriteSuccess
  end.

Definition Hook (A : Type) : Type := Free hook_call hook_resp A.

(** A program of Part III, run inside the handler. *)
Fixpoint lift {A} (p : Prog A) : Hook A :=
  match p with
  | Ret a => FRet a
  | Panic m => FPanic m
  | Do c k => FDo (Inner c) (fun x => lift (k x))
  end.

Definition logln (level msg : string) : Hook unit := fperform (Inner (Log level msg)).

Section Webhook.

Context `{TierConsts}.

(** [json.Unmarshal] into a [stripe.Event], a [stripe.Subscription], and the
    struct with the one field [subscription]: the value read, or the error. *)
Variable unmarshal_Event : list ascii -> Event + error.
Variable unmarshal_Subscription : list ascii -> Subscription + error.
Variable unmarshal_hasSub : list ascii -> string + error.

Local Open Scope free_scope.

Definition MaxBodyBytes : Z := 65536.

(** [readStripeEvent] reads the event from the request body.  (The
    verification of the signature is commented out in the source.) *)
Definition readStripeEvent (req : http.Request) : option Event * Z * option error :=
  let '(payload, err) := ioutil.ReadAll (http.MaxBytesReader MaxBodyBytes (http.Body req)) in
  match err with
  | Some e =>
      (None, http.StatusServiceUnavailable, Some (AddContext e "error reading request body"))
  | None =>
      (* Read the event without any verification. *)
      match unmarshal_Event payload with
      | inr e => (None, http.StatusBadRequest, Some (AddContext e "error parsing request body"))
      | inl event => (Some event, http.StatusOK, None)
      end
  end.

(** [processSub] on a pointer to a subscription, its error logged. *)
Definition process_and_log (s : option Subscription) : Hook unit :=
  s <- fderef s ;;
  err <- lift (processSub s) ;;
  match err with
  | Some _ => logln "debug" "Failed to process sub:"
  | None => FRet tt
  end.

(** [stripeWebhookHandler] handles various events issued by Stripe. *)
Definition stripeWebhookHandler (req : http.Request) : Hook unit :=
  logln "trace" "Processing request: %+v" ;;
  let '(event, code, err) := readStripeEvent req in
  match err with
  | Some e => fperform (WriteError e code)
  | None =>
      event <- fderef event ;;
      logln "debug" "Received event: %+v" ;;
      data <- fderef (Event_Data event) ;;
      logln "trace" "WH raw event data >>> " ;;
      (* Here we handle the entire class of subscription events. *)
      if strings.Contains (Event_Type event) "customer.subscription" then
        match unmarshal_Subscription (Raw data) with
        | inr _ => logln "warning" "Failed to parse event. Error: "
        | inl s =>
            process_and_log (Some s) ;;
            fperform WriteSuccess
        end
      (* Here we handle the entire class of stripeSchedule events. *)
      else if strings.Contains (Event_Type event) "subscription_schedule" then
        match unmarshal_hasSub (Raw data) with
        | inr _ => logln "warning" "Failed to parse event. Error: "
        | inl sub =>
            if String.eqb sub "" then
              logln "debug" "Event doesn't refer to a subscription."
            else
              (* Check the details about this subscription: *)
              r <- fperform (sub_Get sub) ;;
              match snd r with
              | Some _ => logln "debug" "Failed to fetch sub:"
              | None =>
                  process_and_log (fst r) ;;
                  fperform WriteSuccess
              end
        end
      else fperform WriteSuccess
  end.

End Webhook.

(** What the handler does with a subscription it is to process: [processSub]
    on it, a log line when that returned an error, and the answer of success;
    a panic ends the run. *)
Definition handled `{TierConsts} (s : option Subscription)
    (tr : list hook_event) (v : option unit) : Prop :=
  match s with
  | None => tr = [] /\ v = None
  | Some s =>
      exists trp vp,
        exec (processSub s) trp vp
        /\ match vp with
           | None => tr = map EvInner trp /\ v = None
           | Some None => tr = (map EvInner trp ++ [EvWriteSuccess])%list /\ v = Some tt
           | Some (Some _) =>
               tr = (map EvInner trp
                     ++ [EvInner (EvLog "debug" "Failed to process sub:"); EvWriteSuccess])%list
               /\ v = Some tt
           end
  end.

(** The three log lines that open the handling of an event. *)
Definition opening : list hook_event :=
  [ EvInner (EvLog "trace" "Processing request: %+v");
    EvInner (EvLog "debug" "Received event: %+v");
    EvInner (EvLog "trace" "WH raw event data >>> ") ].

(** ** Reading a trace of the handler *)

(** The answers a trace wrote to the request. *)
Definition is_response (e : hook_event) : bool :=
  match e with
  | EvWriteError _ _ | EvWriteSuccess => true
  | _ => false
  end.

Definition responses (tr : list hook_event) : list hook_event := List.filter is_response tr.

(** The calls of a trace to the database layer, the logger and Stripe's
    customer API, and those of them that are not log lines. *)
Definition inner (tr : list hook_event) : list event :=
  omap (fun e => match e with EvInner e => Some e | _ => None end) tr.

Definition is_log (e : event) : bool :=
  match e with EvLog _ _ => true | _ => false end.

Definition work (tr : list hook_event) : list hook_event :=
  List.filter (fun e => match e with
                        | EvInner e => negb (is_log e)
                        | EvSubGet _ _ => true
                        | _ => false
                        end) tr.

(** The subscriptions a trace fetched from Stripe. *)
Definition fetched_subs (tr : list hook_event) : list string :=
  omap (fun e => match e with EvSubGet id _ => Some id | _ => None end) tr.

(** ** An environment for the handler, for the examples: the calls of
    Part III answered by [env], [sub.Get] by [answer]. *)
Definition hook_env {St} (env : Env St) (answer : option Subscription * option error)
  : St -> forall c : hook_call, hook_resp c * St :=
  fun st c =>
    match c return hook_resp c * St with
    | Inner c => env st c
    | sub_Get _ => (answer, st)
    | WriteError _ _ => (tt, st)
    | WriteSuccess => (tt, st)
    end.

Definition demo_event (type : string) : Event :=
  {| Event_Type := type; Event_Data := Some {| Raw := [] |} |}.

Definition demo_request : http.Request :=
  http.mkRequest [("Stripe-Signature", "none")] (list_ascii_of_string "{}", None).

(* ===================================================================== *)
(** * Part VII. Documents and the engine: lemmas *)
(* ===================================================================== *)

Lemma doc_get_set_eq k v d : doc_get k (doc_set k v d) = Some v.
Proof.
  induction d as [|[k' v'] d IH]; simpl.
  - by rewrite String.eqb_refl.
  - destruct (String.eqb k' k) eqn:E; simpl.
    + by rewrite String.eqb_refl.
    + by rewrite E.
Qed.

Lemma doc_get_set_ne k k' v d : k <> k' -> doc_get k' (doc_set k v d) = doc_get k' d.
Proof.
  intros Hne. induction d as [|[k0 v0] d IH]; simpl.
  - destruct (String.eqb k k') eqn:E; [|done].
    apply String.eqb_eq in E. contradiction.
  - destruct (String.eqb k0 k) eqn:E; simpl.
    + apply String.eqb_eq in E. subst k0.
      destruct (String.eqb k k') eqn:E'; [|done].
      apply String.eqb_eq in E'. contradiction.
    + by rewrite IH.
Qed.

Lemma doc_get_app k d1 d2 :
  doc_get k (d1 ++ d2) = match doc_get k d1 with Some v => Some v | None => doc_get k d2 end.
Proof.
  induction d1 as [|[k' v'] d1 IH]; simpl; [done|].
  by destruct (String.eqb k' k).
Qed.

Lemma doc_get_overwritten k d1 d2 :
  doc_get k (map (fun kv => (fst kv, default (snd kv) (doc_get (fst kv) d2))) d1)
  = match doc_get k d1 with
    | Some v => Some (default v (doc_get k d2))
    | None => None
    end.
Proof.
  induction d1 as [|[k' v'] d1 IH]; simpl; [done|].
  destruct (String.eqb k' k) eqn:E; [|done].
  apply String.eqb_eq in E. by subst k'.
Qed.

Lemma doc_get_only_new k d1 d2 :
  doc_get k (List.filter (fun kv => negb (doc_has (fst kv) d1)) d2)
  = if doc_has k d1 then None else doc_get k d2.
Proof.
  induction d2 as [|[k' v'] d2 IH]; simpl.
  - by destruct (doc_has k d1).
  - destruct (doc_has k' d1) eqn:Hk'; simpl.
    + rewrite IH. destruct (String.eqb k' k) eqn:E; [|done].
      apply String.eqb_eq in E. subst k'. by rewrite Hk'.
    + destruct (String.eqb k' k) eqn:E.
      * apply String.eqb_eq in E. subst k'. by rewrite Hk'.
      * done.
Qed.

(** A lookup in a merge: the second document wins. *)
Lemma doc_get_merge k d1 d2 :
  doc_get k (doc_merge d1 d2)
  = match doc_get k d2 with Some v => Some v | None => doc_get k d1 end.
Proof.
  unfold doc_merge.
  rewrite doc_get_app, doc_get_overwritten, doc_get_only_new.
  unfold doc_has.
  destruct (doc_get k d1), (doc_get k d2); done.
Qed.

Lemma doc_merge_nil_l d : doc_merge [] d = d.
Proof.
  unfold doc_merge. simpl.
  induction d as [|kv d IH]; simpl; [done|]. by rewrite IH.
Qed.

Lemma replace_root_joined record sky others :
  replace_root merge_expr (doc_set "fromSkylinks" (BArr (BDoc sky :: others)) record)
  = Ok (doc_merge sky (doc_set "fromSkylinks" (BArr (BDoc sky :: others)) record)).
Proof.
  unfold replace_root, merge_expr. cbn -[doc_merge doc_set].
  rewrite doc_get_set_eq. cbn -[doc_merge doc_set].
  rewrite Z2Nat.inj_0. cbn -[doc_merge doc_set].
  by rewrite doc_merge_nil_l.
Qed.

(** With no Skylink joined the row stays as it is. *)
Lemma replace_root_unjoined record :
  replace_root merge_expr (doc_set "fromSkylinks" (BArr []) record)
  = Ok (doc_set "fromSkylinks" (BArr []) record).
Proof.
  unfold replace_root, merge_expr. cbn -[doc_merge doc_set].
  rewrite doc_get_set_eq. cbn -[doc_merge doc_set].
  rewrite Z2Nat.inj_0. cbn -[doc_merge doc_set].
  by rewrite doc_merge_nil_l.
Qed.

Lemma merge_expr_record_fields_win : record_fields_win merge_expr.
Proof.
  intros record sky others row. exists (doc_merge sky row). split.
  - apply replace_root_joined.
  - intros k. apply doc_get_merge.
Qed.

Lemma replace_root_lookup_row db d :
  replace_root merge_expr (lookup_row db d) = Ok (merged_row db d).
Proof.
  unfold merged_row, lookup_row.
  destruct (joined (db "skylinks") "skylink_id" "_id" d) as [|sky others]; simpl map.
  - apply replace_root_unjoined.
  - apply replace_root_joined.
Qed.

Lemma doc_get_remove_eq k d : doc_get k (doc_remove k d) = None.
Proof.
  induction d as [|[k' v'] d IH]; simpl; [done|].
  destruct (String.eqb k' k) eqn:E; simpl; [done|]. by rewrite E.
Qed.

(** The projection of the downloads pipeline never fails, and its [size] is
    the row's [bytes] when that is greater than zero and the row's [size]
    otherwise. *)
Lemma project_downloads_size (m : doc) :
  exists out,
    project_row downloads_projection m = Ok out
    /\ doc_get "size" out =
       if gt_zero (doc_get "bytes" m) then doc_get "bytes" m else doc_get "size" m.
Proof.
  unfold project_row, downloads_projection.
  cbn -[doc_get doc_set doc_remove List.filter keeps value_compare].
  fold (gt_zero (doc_get "bytes" m)).
  destruct (gt_zero (doc_get "bytes" m)); cbn -[doc_get doc_set doc_remove List.filter keeps].
  - destruct (doc_get "bytes" m) as [v|]; eexists; split; try reflexivity.
    + apply doc_get_set_eq.
    + apply doc_get_remove_eq.
  - destruct (doc_get "size" m) as [v|]; eexists; split; try reflexivity.
    + apply doc_get_set_eq.
    + apply doc_get_remove_eq.
Qed.

Lemma gt_zero_int b : gt_zero (Some (BInt b)) = (0 <? b).
Proof.
  unfold gt_zero. simpl. rewrite Z.ltb_antisym, Z.leb_compare.
  by destruct (b ?= 0).
Qed.

(** ** Lists of results *)

Lemma map_result_total {A B} (f : A -> result B) (P : A -> B -> Prop) (l : list A) :
  (forall x, In x l -> exists y, f x = Ok y /\ P x y) ->
  exists ys, map_result f l = Ok ys /\ Forall2 P l ys.
Proof.
  induction l as [|x l IH]; intros Hf; simpl.
  - exists []. split; [done | constructor].
  - destruct (Hf x) as (y & Hy & HP); [by left|].
    destruct IH as (ys & Hys & HF); [intros; apply Hf; by right|].
    exists (y :: ys). rewrite Hy, Hys. simpl. split; [done | by constructor].
Qed.

Lemma Forall2_In_r {A B} (P : A -> B -> Prop) l ys y :
  Forall2 P l ys -> In y ys -> exists x, In x l /\ P x y.
Proof.
  induction 1 as [|x y' l ys HP _ IH]; simpl; [done|].
  intros [->|Hin].
  - exists x. by split; [left|].
  - destruct (IH Hin) as (x' & ? & ?). exists x'. by split; [right|].
Qed.

(** ** Sorting, skipping and limiting select rows; they make none *)

Lemma In_insert_sorted leb (x y : doc) l :
  In x (insert_sorted leb y l) -> x = y \/ In x l.
Proof.
  induction l as [|z l IH]; simpl.
  - intros [->|[]]. by left.
  - destruct (leb y z); simpl.
    + intros [->|[->|?]]; auto.
    + intros [->|Hin]; [auto|]. destruct (IH Hin); auto.
Qed.

Lemma In_sort_docs leb (x : doc) l : In x (sort_docs leb l) -> In x l.
Proof.
  induction l as [|y l IH]; simpl; [done|].
  intros Hin. apply In_insert_sorted in Hin as [->|Hin]; auto.
Qed.

Lemma In_page {A} (x : A) n m (l : list A) : In x (take n (drop m l)) -> In x l.
Proof.
  rewrite <- !list_elem_of_In. intros Hin.
  by apply (subseteq_drop m l), (subseteq_take n (drop m l)).
Qed.

Lemma In_page_of qm f offset pageSize rows d :
  In d (page_of qm f offset pageSize rows) -> In d rows /\ qm f d = true.
Proof.
  unfold page_of. intros Hin.
  by apply In_page, In_sort_docs, filter_In in Hin.
Qed.

(** ** The BSON order is antisymmetric, so the sort is a sort *)

Lemma bson_compare_antisym a b : bson_compare b a = CompOpp (bson_compare a b).
Proof.
  revert b. induction a as [| x | x | x | x | x | d IH | l IH] using bson_nested_ind;
    intros [| y | y | y | y | y | d' | l']; try reflexivity.
  - by destruct x, y.
  - apply Z.compare_antisym.
  - apply String.compare_antisym.
  - apply String.compare_antisym.
  - apply Z.compare_antisym.
  - cbn [bson_compare]. revert d'.
    induction IH as [|[kx x] d Hx _ IHd]; intros [|[ky y] d']; try reflexivity.
    simpl in Hx. cbn -[bson_compare Nat.compare String.compare bson_rank].
    rewrite (Nat.compare_antisym (bson_rank (Some x)) (bson_rank (Some y))).
    destruct (bson_rank (Some x) ?= bson_rank (Some y))%nat; try reflexivity.
    cbn [CompOpp]. rewrite (String.compare_antisym ky kx).
    destruct (String.compare kx ky); try reflexivity.
    cbn [CompOpp]. rewrite (Hx y).
    destruct (bson_compare x y); try reflexivity. apply IHd.
  - cbn [bson_compare]. revert l'.
    induction IH as [|x l Hx _ IHl]; intros [|y l']; try reflexivity.
    cbn -[bson_compare].
    rewrite (Hx y). destruct (bson_compare x y); try reflexivity. apply IHl.
Qed.

Lemma sort_compare_antisym keys d1 d2 :
  sort_compare keys d2 d1 = CompOpp (sort_compare keys d1 d2).
Proof.
  induction keys as [|[k dir] keys IH]; simpl; [done|].
  rewrite (bson_compare_antisym (field_or_null k d1) (field_or_null k d2)).
  destruct (bson_compare (field_or_null k d1) (field_or_null k d2)); simpl; try done;
    by destruct (0 <? dir).
Qed.

Lemma sort_leb_total keys d1 d2 : sort_leb keys d1 d2 = false -> sort_leb keys d2 d1 = true.
Proof.
  unfold sort_leb. rewrite (sort_compare_antisym keys d1 d2).
  by destruct (sort_compare keys d1 d2).
Qed.

Lemma insert_sorted_Permutation leb x l : insert_sorted leb x l ≡ₚ x :: l.
Proof.
  induction l as [|y l IH]; simpl; [done|].
  destruct (leb x y); [done|]. rewrite IH. apply Permutation_swap.
Qed.

Lemma sort_docs_Permutation leb l : sort_docs leb l ≡ₚ l.
Proof.
  induction l as [|x l IH]; simpl; [done|].
  by rewrite insert_sorted_Permutation, IH.
Qed.

Lemma insert_sorted_Sorted (leb : doc -> doc -> bool) x l :
  (forall a b, leb a b = false -> leb b a = true) ->
  Sorted (fun a b => leb a b = true) l ->
  Sorted (fun a b => leb a b = true) (insert_sorted leb x l).
Proof.
  intros Htotal. induction l as [|y l IH]; simpl; intros Hs.
  - by repeat constructor.
  - destruct (leb x y) eqn:Hxy.
    + constructor; [done|]. by constructor.
    + apply Sorted_inv in Hs as [Hs Hhd]. constructor; [by apply IH|].
      destruct l as [|z l]; simpl.
      * constructor. by apply Htotal.
      * destruct (leb x z); constructor; [by apply Htotal|].
        by apply HdRel_inv in Hhd.
Qed.

Lemma sort_docs_Sorted (leb : doc -> doc -> bool) l :
  (forall a b, leb a b = false -> leb b a = true) ->
  Sorted (fun a b => leb a b = true) (sort_docs leb l).
Proof.
  intros Htotal. induction l as [|x l IH]; simpl; [constructor|].
  by apply insert_sorted_Sorted.
Qed.

Lemma Sorted_weaken {A} (R R' : A -> A -> Prop) l :
  (forall a b, R a b -> R' a b) -> Sorted R l -> Sorted R' l.
Proof.
  intros HR. induction 1 as [|x l _ IH Hhd]; constructor; [done|].
  destruct Hhd; constructor. by apply HR.
Qed.

Lemma timestamp_descending_newest_first : sorts_newest_first [("timestamp", -1)].
Proof.
  intros rows. split; [apply sort_docs_Permutation|].
  eapply Sorted_weaken; [|apply sort_docs_Sorted, sort_leb_total].
  intros a b. unfold sort_leb, newer_or_same. simpl.
  destruct (bson_compare (field_or_null "timestamp" a) (field_or_null "timestamp" b));
    simpl; done.
Qed.

(** A page holds [min pageSize (max 0 (n - offset))] rows, [n] the number of
    matching rows. *)
Lemma page_of_length qm f offset pageSize rows :
  0 <= offset -> 0 < pageSize ->
  Z.of_nat (length (page_of qm f offset pageSize rows))
  = Z.min pageSize
      (Z.max 0 (Z.of_nat (length (List.filter (qm f) rows)) - offset)).
Proof.
  intros Hoff Hps. unfold page_of.
  rewrite length_take, length_drop, (Permutation_length (sort_docs_Permutation _ _)).
  lia.
Qed.

(* ===================================================================== *)
(** * Part VIII. The pipeline builders: theorems *)
(* ===================================================================== *)

(** C3. Both builders give seven stages: the caller's match stage, a sort on
    [timestamp] descending, skip [offset], limit [pageSize], the lookup of
    the Skylink by id, the merge in which the record's own fields win, and a
    projection; skip and limit stand before the lookup. *)
Theorem pipelines_have_seven_ordered_stages (matchStage : doc) (offset pageSize : Z) :
  listing_pipeline matchStage offset pageSize
    (generateUploadsPipeline matchStage offset pageSize)
  /\ listing_pipeline matchStage offset pageSize
       (generateDownloadsPipeline matchStage offset pageSize).
Proof.
  split.
  - exists [("timestamp", -1)], merge_expr, [("fromSkylinks", BInt 0)].
    split; [done|]. split; [done|]. split; [done|]. split; [done|].
    split; [apply timestamp_descending_newest_first | apply merge_expr_record_fields_win].
  - exists [("timestamp", -1)], merge_expr, downloads_projection.
    split; [done|]. split; [done|]. split; [done|]. split; [done|].
    split; [apply timestamp_descending_newest_first | apply merge_expr_record_fields_win].
Qed.

Lemma rbind_Ok_r {A} (r : result A) : rbind r (fun a => Ok a) = r.
Proof. by destruct r. Qed.

(** With a valid page, the downloads pipeline is: select the page of the
    matching rows, newest first; join and merge each row; project each. *)
Lemma downloads_pipeline_run qm db f offset pageSize rows :
  0 <= offset -> 0 < pageSize ->
  run_pipeline qm db (generateDownloadsPipeline [("$match", f)] offset pageSize) rows
  = rbind (map_result (replace_root merge_expr)
             (map (lookup_row db) (page_of qm f offset pageSize rows)))
          (map_result (project_row downloads_projection)).
Proof.
  intros Hoff Hps. unfold generateDownloadsPipeline, page_of.
  cbn -[sort_docs List.filter take drop map_result joined doc_set Z.ltb Z.leb].
  destruct (Z.ltb_spec offset 0); [lia|].
  destruct (Z.leb_spec pageSize 0); [lia|].
  cbn -[sort_docs List.filter take drop map_result joined doc_set].
  unfold merge_expr, lookup_row, downloads_projection.
  destruct (map_result (replace_root _) _) as [merged|msg]; simpl; [|done].
  apply rbind_Ok_r.
Qed.

Lemma map_result_map_Ok {A B C} (f : B -> result C) (g : A -> B) (h : A -> C) l :
  (forall x, f (g x) = Ok (h x)) -> map_result f (map g l) = Ok (map h l).
Proof.
  intros Hf. induction l as [|x l IH]; simpl; [done|].
  by rewrite Hf, IH.
Qed.

(** With a valid page the downloads pipeline does not fail: it yields one
    row for each record of the page, in order, whose [size] is the merged
    row's [bytes] when that is greater than zero and its [size] otherwise. *)
Lemma downloads_pipeline_rows qm db f offset pageSize rows :
  0 <= offset -> 0 < pageSize ->
  exists out,
    run_pipeline qm db (generateDownloadsPipeline [("$match", f)] offset pageSize) rows
      = Ok out
    /\ Forall2
         (fun m o => doc_get "size" o =
            if gt_zero (doc_get "bytes" m) then doc_get "bytes" m
            else doc_get "size" m)
         (map (merged_row db) (page_of qm f offset pageSize rows)) out.
Proof.
  intros Hoff Hps. rewrite downloads_pipeline_run by done.
  rewrite (map_result_map_Ok _ _ (merged_row db)) by apply replace_root_lookup_row.
  simpl rbind.
  apply map_result_total. intros m _. apply project_downloads_size.
Qed.

(** The two cases the specification names, run through the whole pipeline:
    a download of 50 bytes of a Skylink of size 200 is reported with size 50,
    one with no byte count (0) with size 200. *)
Example demo_downloads_sizes :
  option_map (map (fun o => (doc_get "_id" o, doc_get "size" o)))
    (match run_pipeline eq_matches demo_db
             (generateDownloadsPipeline demo_match 0 10) (demo_db "downloads") with
     | Ok out => Some out
     | Err _ => None
     end)
  = Some [ (Some (BOid "d2"), Some (BInt 200)); (Some (BOid "d1"), Some (BInt 50)) ].
Proof. reflexivity. Qed.

(** ** The uploads pipeline, and the size of a page *)

Lemma doc_get_remove_ne k k' d : k <> k' -> doc_get k' (doc_remove k d) = doc_get k' d.
Proof.
  intros Hne. induction d as [|[k0 v0] d IH]; simpl; [done|].
  destruct (String.eqb k0 k) eqn:E; simpl.
  - apply String.eqb_eq in E. subst k0.
    destruct (String.eqb k k') eqn:E'; [|done].
    apply String.eqb_eq in E'. contradiction.
  - by rewrite IH.
Qed.

(** With a valid page, the uploads pipeline yields, for each record of the
    page in order, the merge of its Skylink and the record without the join
    field. *)
Lemma uploads_pipeline_run qm db f offset pageSize rows :
  0 <= offset -> 0 < pageSize ->
  run_pipeline qm db (generateUploadsPipeline [("$match", f)] offset pageSize) rows
  = Ok (map (fun d => doc_remove "fromSkylinks" (merged_row db d))
          (page_of qm f offset pageSize rows)).
Proof.
  intros Hoff Hps. unfold generateUploadsPipeline, page_of.
  cbn -[sort_docs List.filter take drop map_result joined doc_set Z.ltb Z.leb].
  destruct (Z.ltb_spec offset 0); [lia|].
  destruct (Z.leb_spec pageSize 0); [lia|].
  cbn -[sort_docs List.filter take drop map_result joined doc_set].
  rewrite (map_result_map_Ok _ _ (merged_row db)) by apply replace_root_lookup_row.
  cbn -[sort_docs List.filter take drop map_result joined doc_set merged_row].
  rewrite <- (map_id (map (merged_row db) _)) at 1.
  rewrite (map_result_map_Ok _ _ (doc_remove "fromSkylinks")) by done.
  simpl. by rewrite map_map.
Qed.

(** An upload row has the record's fields and, where the record has none,
    the Skylink's (its size among them); the join field is gone. *)
Lemma uploads_row_fields db d sky others k :
  joined (db "skylinks") "skylink_id" "_id" d = sky :: others ->
  doc_get k (doc_remove "fromSkylinks" (merged_row db d))
  = if String.eqb k "fromSkylinks" then None
    else match doc_get k d with Some v => Some v | None => doc_get k sky end.
Proof.
  intros Hjoin. unfold merged_row, lookup_row. rewrite Hjoin.
  destruct (String.eqb_spec k "fromSkylinks") as [->|Hne].
  - apply doc_get_remove_eq.
  - rewrite doc_get_remove_ne, doc_get_merge, doc_get_set_ne by done. done.
Qed.

(* ===================================================================== *)
(** * Part IX. Programs and their runs *)
(* ===================================================================== *)

(** Every run in an environment is one of the program's behaviours. *)
Lemma run_exec {R St} (env : Env St) (st : St) (p : Prog R) :
  exec p (trace (run env st p)) (value (run env st p)).
Proof.
  revert st. induction p as [r|m|c k IH]; intros st; simpl; [done..|].
  destruct (env st c) as [x st']. simpl. eauto.
Qed.

Ltac exec_call H :=
  let x := fresh "x" in
  let tr := fresh "tr" in
  cbn [exec bind perform deref mk_event] in H; destruct H as (x & tr & ? & H);
  subst; cbn [exec bind perform deref mk_event] in H.

Ltac exec_end H := cbn [exec bind perform deref] in H; destruct H as [? ?]; subst.

Lemma exec_closing {R} (c : Cursor) (res : R) tr v :
  exec (errDef <- perform (Cursor_Close c) ;;
        match errDef with
        | Some _ => perform (Log "trace" "Error on closing DB cursor.") ;; Ret res
        | None => Ret res
        end) tr v ->
  closes c tr /\ v = Some res.
Proof.
  intros H. exec_call H. destruct x as [e|].
  - exec_call H. exec_end H. split; [right; by exists e | done].
  - exec_end H. split; [by left | done].
Qed.

(** On any collection, the pipeline [count] submits yields no row when no
    document matches, and otherwise one row holding the number of matching
    documents. *)
Lemma count_pipeline_rows qm db f rows :
  run_pipeline qm db [[("$match", f)]; [("$count", BStr "count")]] rows
  = Ok (match List.filter (qm f) rows with
        | [] => []
        | _ :: _ => [[("count", BInt (Z.of_nat (length (List.filter (qm f) rows))))]]
        end).
Proof.
  cbn -[List.filter]. by destruct (List.filter (qm f) rows).
Qed.

(** Every run of [count]: it submits the pipeline [match, count] and,
    whatever the driver answers, returns the decoded count with no error, or
    0 with no error when [Next] answers [false], or 0 with the wrapped error
    when [Aggregate] or [Decode] answered with one.  On the reference driver
    it returns the number of documents of the collection that match, 0
    included, with no error. *)
Theorem count_returns_matching_documents (coll : string) :
  (forall St (env : Env St) (st : St) (matchStage : doc),
      count_outcome coll matchStage
        (trace (run env st (count coll matchStage)))
        (value (run env st (count coll matchStage))))
  /\ (forall (qm : bson -> doc -> bool) (colls : string -> list doc) (f : bson),
        value (run (mongo_env qm) (mkMongo colls []) (count coll [("$match", f)]))
        = Some (Z.of_nat (length (List.filter (qm f) (colls coll))), None)).
Proof.
  split.
  - intros St env st matchStage.
    pose proof (run_exec env st (count coll matchStage)) as Hx.
    set (tr := trace _) in *. set (v := value _) in *. clearbody tr v.
    unfold count in Hx. unfold count_outcome.
    exec_call Hx. destruct x as [c [e|]].
    + exec_end Hx. left. by exists c, e.
    + destruct c as [c|].
      * right. right. exec_call Hx. destruct x.
        -- exec_call Hx. destruct x as [n [e|]]; apply exec_closing in Hx as [Hcl ->].
           ++ right. left. eexists c, n, e, _. eauto.
           ++ right. right. eexists c, n, _. eauto.
        -- apply exec_closing in Hx as [Hcl ->]. left. eexists c, _. eauto.
      * exec_end Hx. right. left. done.
  - intros qm colls f. unfold count.
    cbn -[run_pipeline List.filter]. rewrite count_pipeline_rows.
    destruct (List.filter (qm f) (colls coll)) as [|d l] eqn:E; reflexivity.
Qed.

(* ===================================================================== *)
(** * Part X. The Stripe handlers: theorems *)
(* ===================================================================== *)

Section BillingTheorems.

Context `{TierConsts}.

(** The behaviours of [processSub]: either no user was fetched and nothing
    was written, or one user [u] was fetched and the record computed from it
    was saved exactly when its (tier, expiry) differs from that of [u]. *)
Lemma processSub_exec s tr v :
  exec (processSub s) tr v ->
  (fetched tr = [] /\ db_writes tr = [] /\ saved tr = [])
  \/ exists u,
       fetched tr = [u]
       /\ match reconciled s u with
          | None => db_writes tr = [] /\ saved tr = [] /\ v = None
          | Some u' =>
              if changed u u'
              then exists r, db_writes tr = [EvUserSave u' r] /\ saved tr = [u'] /\ v = Some r
              else db_writes tr = [] /\ saved tr = [] /\ v = Some None
          end.
Proof.
  unfold processSub. intros Hx.
  exec_call Hx.
  destruct (Subscription_Customer s) as [customer|]; [|exec_end Hx; by left].
  exec_call Hx. destruct x0 as [[u|] [e|]]; try (exec_end Hx; by left).
  right. exists u. unfold reconciled.
  exec_call Hx.
  destruct (negb (String.eqb (Subscription_Status s) SubscriptionStatusActive)).
  - exec_call Hx. fold (changed u (set_Tier TierFree u)) in Hx.
    destruct (changed u (set_Tier TierFree u)).
    + exec_call Hx. exec_end Hx. split; [done|]. by exists x2.
    + by exec_end Hx.
  - destruct (Subscription_Plan s) as [plan|]; [|by exec_end Hx].
    cbn [exec bind perform deref] in Hx.
    destruct (Plan_Product plan) as [product|]; [|by exec_end Hx].
    exec_call Hx.
    match type of Hx with
    | context [UserSave ?u'] => fold (changed u u') in Hx; destruct (changed u u')
    end.
    + exec_call Hx. exec_end Hx. split; [done|]. by exists x2.
    + by exec_end Hx.
Qed.

(** X13. When the lookup of the user fails, [processSub] returns that failure,
    wrapped, and writes nothing. *)
Lemma processSub_lookup_failure St (env : Env St) (st : St) s id u e :
  In (EvUserByStripeID id (u, Some e)) (trace (run env st (processSub s))) ->
  value (run env st (processSub s))
  = Some (Some (AddContext e "failed to fetch user from DB based on subscription info"))
  /\ db_writes (trace (run env st (processSub s))) = [].
Proof.
  pose proof (run_exec env st (processSub s)) as Hx.
  set (tr := trace _) in *. set (v := value _) in *. clearbody tr v.
  unfold processSub in Hx. intros Hin.
  exec_call Hx.
  destruct (Subscription_Customer s) as [customer|];
    [|exec_end Hx; simpl in Hin; intuition congruence].
  exec_call Hx. destruct x0 as [[u0|] [e0|]];
    try (exec_end Hx; simpl in Hin; intuition congruence).
  exfalso. exec_call Hx.
  destruct (negb _).
  - exec_call Hx. destruct (_ || _).
    + exec_call Hx. exec_end Hx. simpl in Hin. intuition congruence.
    + exec_end Hx. simpl in Hin. intuition congruence.
  - destruct (Subscription_Plan s) as [plan|];
      [|exec_end Hx; simpl in Hin; intuition congruence].
    cbn [exec bind perform deref] in Hx.
    destruct (Plan_Product plan) as [product|];
      [|exec_end Hx; simpl in Hin; intuition congruence].
    exec_call Hx. destruct (_ || _).
    + exec_call Hx. exec_end Hx. simpl in Hin. intuition congruence.
    + exec_end Hx. simpl in Hin. intuition congruence.
Qed.

Lemma changed_false u u' : changed u u' = false <-> tier_expiry u' = tier_expiry u.
Proof.
  unfold changed, tier_expiry.
  rewrite orb_false_iff, !negb_false_iff, Z.eqb_eq, bool_decide_eq_true.
  split; [intros [-> ->] | intros [= -> ->]]; done.
Qed.

Lemma changed_true u u' : changed u u' = true <-> tier_expiry u' <> tier_expiry u.
Proof.
  rewrite <- changed_false. destruct (changed u u'); split; congruence.
Qed.

(** The (tier, expiry) the event resolves to does not depend on more of the
    record than its (tier, expiry): replaying the event on a record already
    there changes nothing. *)
Lemma reconciled_replay s u1 u1' u2 :
  reconciled s u1 = Some u1' ->
  tier_expiry u2 = tier_expiry u1' ->
  exists u2', reconciled s u2 = Some u2' /\ changed u2 u2' = false.
Proof.
  unfold reconciled.
  destruct (negb (String.eqb (Subscription_Status s) SubscriptionStatusActive)).
  - intros [= <-] Heq. eexists; split; [done|].
    apply changed_false. unfold tier_expiry in *. simpl in *. congruence.
  - destruct (Subscription_Plan s) as [plan|]; [|done].
    destruct (Plan_Product plan) as [product|]; [|done].
    intros [= <-] Heq. eexists; split; [done|].
    apply changed_false. unfold tier_expiry in *. simpl in *. congruence.
Qed.

(** C1. [processSub] saves a record only if its (tier, expiry) differs from
    that of the record it fetched, and then it is its only write; and the
    same event applied to a user already at the (tier, expiry) a first
    application resolved to writes nothing. *)
Theorem processSub_persists_only_on_change (s : Subscription) :
  (forall St (env : Env St) (st : St) (u' : User),
      let tr := trace (run env st (processSub s)) in
      In u' (saved tr) ->
      exists u, fetched tr = [u]
        /\ tier_expiry u' <> tier_expiry u
        /\ exists r, db_writes tr = [EvUserSave u' r])
  /\ (forall St1 (env1 : Env St1) (st1 : St1) St2 (env2 : Env St2) (st2 : St2) (u2 : User),
        let tr1 := trace (run env1 st1 (processSub s)) in
        let tr2 := trace (run env2 st2 (processSub s)) in
        fetched tr2 = [u2] ->
        state_after tr1 = Some (tier_expiry u2) ->
        db_writes tr2 = []).
Proof.
  split.
  - intros St env st u' tr Hin. subst tr.
    destruct (processSub_exec s _ _ (run_exec env st (processSub s)))
      as [(_ & _ & Hs) | (u & Hf & Hcase)].
    + rewrite Hs in Hin. destruct Hin.
    + exists u. split; [done|].
      destruct (reconciled s u) as [u1|]; [|destruct Hcase as (_ & Hs & _)].
      * destruct (changed u u1) eqn:Hch.
        -- destruct Hcase as (r & Hw & Hs & _). rewrite Hs in Hin.
           destruct Hin as [<-|[]]. split; [by apply changed_true | by exists r].
        -- destruct Hcase as (_ & Hs & _). rewrite Hs in Hin. destruct Hin.
      * rewrite Hs in Hin. destruct Hin.
  - intros St1 env1 st1 St2 env2 st2 u2 tr1 tr2 Hf2 Hafter. subst tr1 tr2.
    destruct (processSub_exec s _ _ (run_exec env2 st2 (processSub s)))
      as [(_ & Hw & _) | (u & Hf & Hcase2)]; [done|].
    rewrite Hf in Hf2. injection Hf2 as ->.
    destruct (processSub_exec s _ _ (run_exec env1 st1 (processSub s)))
      as [(Hf1 & _ & Hs1) | (u1 & Hf1 & Hcase1)].
    { unfold state_after in Hafter. by rewrite Hs1, Hf1 in Hafter. }
    unfold state_after in Hafter. rewrite Hf1 in Hafter.
    destruct (reconciled s u1) as [u1'|] eqn:Hr1.
    + assert (tier_expiry u2 = tier_expiry u1') as Heq.
      { destruct (changed u1 u1') eqn:Hch.
        - destruct Hcase1 as (r & _ & Hs1 & _). rewrite Hs1 in Hafter. congruence.
        - destruct Hcase1 as (_ & Hs1 & _). rewrite Hs1 in Hafter.
          apply changed_false in Hch. simpl in Hafter. congruence. }
      destruct (reconciled_replay s u1 u1' u2 Hr1 Heq) as (u2' & Hr2 & Hch2).
      rewrite Hr2, Hch2 in Hcase2. by destruct Hcase2.
    + assert (reconciled s u2 = None) as Hr2.
      { revert Hr1. unfold reconciled.
        destruct (negb _); [done|].
        destruct (Subscription_Plan s) as [plan|]; [|done].
        by destruct (Plan_Product plan). }
      rewrite Hr2 in Hcase2. by destruct Hcase2.
Qed.

(** C5. For an event whose status is not active, every write is a save of
    the fetched record with its tier set to free and nothing else changed:
    the expiry and the other fields are those fetched.  It happens exactly
    when the fetched tier was not free already. *)
Theorem processSub_inactive_only_demotes
    St (env : Env St) (st : St) (s : Subscription) (u : User) :
  Subscription_Status s <> SubscriptionStatusActive ->
  fetched (trace (run env st (processSub s))) = [u] ->
  let tr := trace (run env st (processSub s)) in
  let u' := set_Tier TierFree u in
  (forall e, In e (db_writes tr) -> exists r, e = EvUserSave u' r)
  /\ (Tier u <> TierFree -> saved tr = [u'])
  /\ (Tier u = TierFree -> db_writes tr = [])
  /\ Tier u' = TierFree
  /\ SubscribedUntil u' = SubscribedUntil u
  /\ (User_ID u', Sub u', FirstName u', LastName u', Email u', PasswordHash u', StripeId u')
     = (User_ID u, Sub u, FirstName u, LastName u, Email u, PasswordHash u, StripeId u).
Proof.
  intros Hstatus Hf tr u'.
  pose proof (processSub_exec s _ _ (run_exec env st (processSub s))) as Hx.
  set (v := value _) in Hx.
  change (trace (run env st (processSub s))) with tr in Hx, Hf.
  clearbody tr v.
  destruct Hx as [(Hf0 & _) | (u0 & Hf0 & Hcase)]; [congruence|].
  rewrite Hf0 in Hf. injection Hf as ->.
  unfold reconciled in Hcase.
  apply String.eqb_neq in Hstatus. rewrite Hstatus in Hcase. simpl in Hcase.
  fold u' in Hcase.
  assert (changed u u' = negb (Tier u =? TierFree)) as Hch.
  { unfold changed, u'. simpl. rewrite bool_decide_eq_true_2 by done.
    rewrite orb_false_r. by rewrite Z.eqb_sym. }
  rewrite Hch in Hcase.
  destruct (Z.eqb_spec (Tier u) TierFree) as [Heq|Hne]; simpl in Hcase.
  - destruct Hcase as (Hw & Hs & _). rewrite Hw.
    split; [intros e [] | by repeat split].
  - destruct Hcase as (r & Hw & Hs & _). rewrite Hw.
    split; [|by repeat split].
    intros e [<-|[]]. by exists r.
Qed.

(** C9. For an active event whose product is not in [stripePlans], every
    write is a save of the fetched record with its tier set to free and its
    expiry set to the period end, in UTC; and the record is saved whenever
    the fetched expiry is not that time, whatever the fetched tier. *)
Theorem processSub_unknown_plan_sets_expiry
    St (env : Env St) (st : St) (s : Subscription) (plan : Plan) (product : Product)
    (u : User) :
  Subscription_Status s = SubscriptionStatusActive ->
  Subscription_Plan s = Some plan ->
  Plan_Product plan = Some product ->
  stripePlans !! Product_ID product = None ->
  fetched (trace (run env st (processSub s))) = [u] ->
  let tr := trace (run env st (processSub s)) in
  let expiry := time.UTC (time.Unix (CurrentPeriodEnd s) 0) in
  let u' := set_SubscribedUntil expiry (set_Tier TierFree u) in
  expiry = time.mkTime (CurrentPeriodEnd s) 0 time.LocUTC
  /\ Tier u' = TierFree
  /\ SubscribedUntil u' = expiry
  /\ (forall e, In e (db_writes tr) -> exists r, e = EvUserSave u' r)
  /\ (SubscribedUntil u <> expiry -> saved tr = [u']).
Proof.
  intros Hstatus Hplan Hproduct Hunknown Hf tr expiry u'.
  pose proof (processSub_exec s _ _ (run_exec env st (processSub s))) as Hx.
  set (v := value _) in Hx.
  change (trace (run env st (processSub s))) with tr in Hx, Hf.
  clearbody tr v.
  destruct Hx as [(Hf0 & _) | (u0 & Hf0 & Hcase)]; [congruence|].
  rewrite Hf0 in Hf. injection Hf as ->.
  unfold reconciled in Hcase.
  rewrite Hstatus, Hplan, Hproduct in Hcase. simpl in Hcase.
  unfold tierForPlan in Hcase. rewrite Hunknown in Hcase.
  fold expiry in Hcase. fold u' in Hcase.
  repeat split; try done.
  - intros e Hin. destruct (changed u u').
    + destruct Hcase as (r & Hw & _). rewrite Hw in Hin.
      destruct Hin as [<-|[]]. by exists r.
    + destruct Hcase as (Hw & _). rewrite Hw in Hin. destruct Hin.
  - intros Hne. destruct (changed u u') eqn:Hch.
    + by destruct Hcase as (r & _ & Hs & _).
    + apply changed_false in Hch. unfold tier_expiry in Hch. simpl in Hch.
      congruence.
Qed.

(** ** The plan table *)

Lemma stripePlans_entries :
  map_to_list stripePlans
  = [ ("prod_J2FBsxvEl4VoUK", TierFree);
      ("prod_J06Q7nJH3HJcYN", TierPremium5);
      ("prod_J06Qu7zg1unO8R", TierPremium20);
      ("prod_J06QbGjCvmZQGZ", TierPremium80) ].
Proof. vm_compute. reflexivity. Qed.

Lemma range_of_lookup order plan t :
  range_of stripePlans order -> ((plan, t) ∈ order <-> stripePlans !! plan = Some t).
Proof.
  unfold range_of. intros ->. apply elem_of_map_to_list.
Qed.

(** The loop returns the plan of an entry whose tier is [t], or the empty
    string when there is no such entry. *)
Lemma planForTier_cases order t :
  (planForTier order t = "" /\ forall plan, (plan, t) ∉ order)
  \/ (planForTier order t, t) ∈ order.
Proof.
  induction order as [|[plan tier] rest IH]; simpl.
  - left. split; [done|]. intros plan Hin. by apply elem_of_nil in Hin.
  - destruct (Z.eqb_spec tier t) as [->|Hne].
    + right. left.
    + destruct IH as [[Hr Hnone]|Hin].
      * left. split; [done|]. intros p Hin.
        apply elem_of_cons in Hin as [[= -> ->]|Hin]; [done|]. by apply (Hnone p).
      * right. by right.
Qed.

(** When no two entries have the same tier, the loop returns the plan of the
    one entry whose tier is [t]. *)
Lemma planForTier_unique order t plan :
  NoDup order.*2 -> (plan, t) ∈ order -> planForTier order t = plan.
Proof.
  induction order as [|[plan' tier] rest IH]; simpl; intros Hnd Hin.
  - by apply elem_of_nil in Hin.
  - apply NoDup_cons in Hnd as [Hfresh Hnd].
    apply elem_of_cons in Hin as [[= -> ->]|Hin].
    + by rewrite Z.eqb_refl.
    + destruct (Z.eqb_spec tier t) as [->|Hne]; [|by apply IH].
      exfalso. apply Hfresh. apply list_elem_of_fmap. by exists (plan, t).
Qed.

(** With the four tiers distinct, [planForTier] inverts the table: the plan of
    the tier of an entry is that entry's plan, in whatever order the table is
    visited. *)
Lemma planForTier_inverts_table order plan t :
  NoDup [TierFree; TierPremium5; TierPremium20; TierPremium80] ->
  range_of stripePlans order ->
  stripePlans !! plan = Some t ->
  planForTier order t = plan.
Proof.
  intros Hnd Hrange Hl. apply planForTier_unique.
  - unfold range_of in Hrange. rewrite Hrange, stripePlans_entries. exact Hnd.
  - by apply (range_of_lookup _ _ _ Hrange).
Qed.

(** C6. The tier of a plan is the table's entry, and the free tier for a plan
    the table does not have.  In whatever order the table is visited, the
    plan of a tier is a plan the table maps to that tier when there is one,
    and the empty string when no entry has that tier. *)
Theorem tier_plan_lookups_are_total :
  (forall planID tier, stripePlans !! planID = Some tier -> tierForPlan planID = tier)
  /\ (forall planID, stripePlans !! planID = None -> tierForPlan planID = TierFree)
  /\ (forall order t plan,
        range_of stripePlans order ->
        stripePlans !! plan = Some t ->
        stripePlans !! planForTier order t = Some t)
  /\ (forall order t,
        range_of stripePlans order ->
        (forall plan, stripePlans !! plan <> Some t) ->
        planForTier order t = "").
Proof.
  split; [|split; [|split]].
  - intros planID tier Hl. unfold tierForPlan. by rewrite Hl.
  - intros planID Hl. unfold tierForPlan. by rewrite Hl.
  - intros order t plan Hrange Hl.
    destruct (planForTier_cases order t) as [[_ Hnone]|Hin].
    + exfalso. apply (Hnone plan). by apply (range_of_lookup _ _ _ Hrange).
    + by apply (range_of_lookup _ _ _ Hrange) in Hin.
  - intros order t Hrange Hnone.
    destruct (planForTier_cases order t) as [[Hr _]|Hin]; [done|].
    apply (range_of_lookup _ _ _ Hrange) in Hin. by apply Hnone in Hin.
Qed.

(** C10. With the four tiers distinct, [planForTier] returns the same plan in
    whatever order the table is visited. *)
Theorem planForTier_deterministic (order1 order2 : list (string * Z)) (t : Z) :
  NoDup [TierFree; TierPremium5; TierPremium20; TierPremium80] ->
  range_of stripePlans order1 ->
  range_of stripePlans order2 ->
  planForTier order1 t = planForTier order2 t.
Proof.
  intros Hnd H1 H2.
  assert (NoDup order2.*2) as Hnd2.
  { unfold range_of in H2. rewrite H2, stripePlans_entries. exact Hnd. }
  destruct (planForTier_cases order1 t) as [[Hr Hnone]|Hin].
  - rewrite Hr. destruct (planForTier_cases order2 t) as [[Hr2 _]|Hin2]; [done|].
    apply (range_of_lookup _ _ _ H2) in Hin2.
    apply (range_of_lookup _ _ _ H1) in Hin2. by apply Hnone in Hin2.
  - apply (range_of_lookup _ _ _ H1) in Hin.
    apply (range_of_lookup _ _ _ H2) in Hin.
    symmetry. by apply planForTier_unique.
Qed.

(** For a user whose tier is free, [createStripeCustomer] makes one call,
    [customer.New], with a plan the table maps to the free tier; it writes
    nothing to the database and leaves the user record as it was. *)
Theorem createStripeCustomer_on_free_plan
    St (env : Env St) (st : St) (order : list (string * Z)) (u : User) :
  range_of stripePlans order ->
  Tier u = TierFree ->
  let r := run env st (createStripeCustomer order u) in
  exists plan answer,
    trace r = [ EvCustomerNew
                  {| Description := Some (Sub u);
                     Params_Email := Some (Email u);
                     Name := Some (FirstName u ++ " " ++ LastName u);
                     Params_Plan := Some plan |} answer ]
    /\ stripePlans !! plan = Some TierFree
    /\ db_writes (trace r) = []
    /\ value r = Some (u, answer).
Proof.
  intros Hrange Hfree r. subst r. unfold createStripeCustomer.
  cbn [run bind perform].
  destruct (env st _) as [answer st']. cbn.
  exists (planForTier order (Tier u)), answer. repeat split.
  rewrite Hfree.
  destruct (planForTier_cases order TierFree) as [[_ Hnone]|Hin].
  - exfalso. apply (Hnone "prod_J2FBsxvEl4VoUK").
    apply (range_of_lookup _ _ _ Hrange). reflexivity.
  - by apply (range_of_lookup _ _ _ Hrange) in Hin.
Qed.

(** The plan [createStripeCustomer] sends is that of the user's tier,
    whatever it is. *)
Lemma createStripeCustomer_plan_follows_tier
    St (env : Env St) (st : St) (order : list (string * Z)) (u : User) :
  exists cp answer,
    trace (run env st (createStripeCustomer order u)) = [EvCustomerNew cp answer]
    /\ Params_Plan cp = Some (planForTier order (Tier u)).
Proof.
  unfold createStripeCustomer. cbn [run bind perform].
  destruct (env st _) as [answer st']. cbn. by eexists _, answer.
Qed.

(** C2. [assignTier] first updates the Stripe customer to the plan of the new
    tier.  If that fails nothing is written locally and the failure is
    returned.  Otherwise it sets the tier in the database; if that fails it
    updates the Stripe customer back to the plan of the tier the user had,
    and returns the database failure, with its context, when that
    compensation succeeded, and the composition of the database failure and
    of the failure of the compensation when it failed too. *)
Theorem assignTier_compensates
    St (env : Env St) (st : St) (order1 order2 : list (string * Z)) (tier : Z) (u : User) :
  assignTier_outcome order1 order2 tier u
    (trace (run env st (assignTier order1 order2 tier u)))
    (value (run env st (assignTier order1 order2 tier u))).
Proof.
  pose proof (run_exec env st (assignTier order1 order2 tier u)) as Hx.
  set (tr := trace _) in *. set (v := value _) in *. clearbody tr v.
  unfold assignTier in Hx. unfold assignTier_outcome, plan_params.
  exec_call Hx. destruct x as [c [e|]]; cbn [snd] in Hx.
  - exec_end Hx. left. by exists c, e.
  - right. exec_call Hx. destruct x as [u1 [e|]].
    + right. exec_call Hx. destruct x as [c2 [e2|]]; cbn [snd] in Hx; exec_end Hx.
      * right. by exists c, u1, e, c2, e2.
      * left. by exists c, u1, e, c2.
    + exec_end Hx. left. by exists c, u1.
Qed.

End BillingTheorems.

(* ===================================================================== *)
(** * Part XI. The theorems at concrete inputs *)
(* ===================================================================== *)

(** A replayed active event: the first application moves the user from
    (premium-5, an old expiry) to (premium-20, the period end) with one save;
    the second, on the saved record, writes nothing. *)
Lemma processSub_persists_only_on_change_witness :
  let s := demo_sub "active" "prod_J06Qu7zg1unO8R" 1700000000 in
  let u' := set_SubscribedUntil (time.mkTime 1700000000 0 time.LocUTC)
              (set_Tier 3 demo_user) in
  (exists u,
      fetched (trace (run (happy_env demo_user) tt (@processSub demo_tiers s))) = [u]
      /\ tier_expiry u' <> tier_expiry u
      /\ exists r,
           db_writes (trace (run (happy_env demo_user) tt (@processSub demo_tiers s)))
           = [EvUserSave u' r])
  /\ db_writes (trace (run (happy_env u') tt (@processSub demo_tiers s))) = [].
Proof.
  intros s u'. split.
  - apply (proj1 (@processSub_persists_only_on_change demo_tiers s)
             unit (happy_env demo_user) tt u').
    vm_compute. by left.
  - apply (proj2 (@processSub_persists_only_on_change demo_tiers s)
             unit (happy_env demo_user) tt unit (happy_env u') tt u');
      reflexivity.
Defined.

(** A cancelled subscription of a premium-5 user: one save, of the same
    record with the free tier. *)
Lemma processSub_inactive_only_demotes_witness :
  let s := demo_sub "canceled" "prod_J06Q7nJH3HJcYN" 1700000000 in
  let tr := trace (run (happy_env demo_user) tt (@processSub demo_tiers s)) in
  let u' := set_Tier 1 demo_user in
  (forall e, In e (db_writes tr) -> exists r, e = EvUserSave u' r)
  /\ (Tier demo_user <> 1 -> saved tr = [u'])
  /\ (Tier demo_user = 1 -> db_writes tr = [])
  /\ Tier u' = 1
  /\ SubscribedUntil u' = SubscribedUntil demo_user
  /\ (User_ID u', Sub u', FirstName u', LastName u', Email u', PasswordHash u', StripeId u')
     = (User_ID demo_user, Sub demo_user, FirstName demo_user, LastName demo_user,
        Email demo_user, PasswordHash demo_user, StripeId demo_user).
Proof.
  intros s tr u'.
  apply (@processSub_inactive_only_demotes demo_tiers unit (happy_env demo_user) tt s demo_user).
  - by vm_compute.
  - reflexivity.
Defined.

(** An active subscription to a product the table does not know, for a user
    who is on the free tier already: the expiry is still moved, and saved. *)
Lemma processSub_unknown_plan_sets_expiry_witness :
  let u := set_Tier 1 demo_user in
  let s := demo_sub "active" "prod_unknown" 1700000000 in
  let tr := trace (run (happy_env u) tt (@processSub demo_tiers s)) in
  let expiry := time.UTC (time.Unix 1700000000 0) in
  let u' := set_SubscribedUntil expiry (set_Tier 1 u) in
  expiry = time.mkTime 1700000000 0 time.LocUTC
  /\ Tier u' = 1
  /\ SubscribedUntil u' = expiry
  /\ (forall e, In e (db_writes tr) -> exists r, e = EvUserSave u' r)
  /\ (SubscribedUntil u <> expiry -> saved tr = [u']).
Proof.
  intros u s tr expiry u'.
  apply (@processSub_unknown_plan_sets_expiry demo_tiers unit (happy_env u) tt s
           {| Plan_Product := Some {| Product_ID := "prod_unknown" |} |}
           {| Product_ID := "prod_unknown" |} u); reflexivity.
Defined.

Lemma tier_plan_lookups_are_total_witness :
  @tierForPlan demo_tiers "prod_J06QbGjCvmZQGZ" = 4
  /\ @tierForPlan demo_tiers "prod_unknown" = 1
  /\ @stripePlans demo_tiers
       !! planForTier (reverse (map_to_list (@stripePlans demo_tiers))) 2 = Some 2
  /\ planForTier (map_to_list (@stripePlans demo_tiers)) 0 = "".
Proof.
  destruct (@tier_plan_lookups_are_total demo_tiers)
    as (Hknown & Hunknown & Hplan & Hnone).
  split; [|split; [|split]].
  - apply Hknown. reflexivity.
  - apply Hunknown. reflexivity.
  - apply (Hplan _ _ "prod_J06Q7nJH3HJcYN"); [apply reverse_Permutation | reflexivity].
  - apply Hnone.
    + by unfold range_of.
    + intros plan Hl.
      apply (elem_of_map_to_list (@stripePlans demo_tiers)) in Hl.
      vm_compute in Hl.
      repeat (apply elem_of_cons in Hl as [[=]|Hl]). by apply elem_of_nil in Hl.
Defined.

Lemma planForTier_deterministic_witness :
  planForTier (map_to_list (@stripePlans demo_tiers)) 3
  = planForTier (reverse (map_to_list (@stripePlans demo_tiers))) 3.
Proof.
  apply (@planForTier_deterministic demo_tiers).
  - compute_done.
  - by unfold range_of.
  - apply reverse_Permutation.
Defined.

Lemma createStripeCustomer_on_free_plan_witness :
  let u := set_Tier 1 demo_user in
  let r := run (happy_env u) tt
             (createStripeCustomer (map_to_list (@stripePlans demo_tiers)) u) in
  exists plan answer,
    trace r = [ EvCustomerNew
                  {| Description := Some (Sub u);
                     Params_Email := Some (Email u);
                     Name := Some (FirstName u ++ " " ++ LastName u);
                     Params_Plan := Some plan |} answer ]
    /\ @stripePlans demo_tiers !! plan = Some 1
    /\ db_writes (trace r) = []
    /\ value r = Some (u, answer).
Proof.
  intros u.
  apply (@createStripeCustomer_on_free_plan demo_tiers unit (happy_env u) tt
           (map_to_list (@stripePlans demo_tiers)) u); [by unfold range_of | reflexivity].
Defined.

(** Were two tiers the same number, the order of the visit would show: with
    the free and the premium-5 tier both 1, the table read from either end
    gives a different plan for tier 1. *)
Example planForTier_order_shows_on_collision :
  let tiers := {| TierFree := 1; TierPremium5 := 1; TierPremium20 := 3; TierPremium80 := 4 |} in
  planForTier (map_to_list (@stripePlans tiers)) 1 = "prod_J2FBsxvEl4VoUK"
  /\ planForTier (reverse (map_to_list (@stripePlans tiers))) 1 = "prod_J06Q7nJH3HJcYN".
Proof. split; reflexivity. Qed.

(** A user on a paid tier would be given that tier's plan. *)
Example createStripeCustomer_of_premium_user :
  trace (run (happy_env demo_user) tt
           (createStripeCustomer (map_to_list (@stripePlans demo_tiers)) demo_user))
  = [ EvCustomerNew
        {| Description := Some "sub|1";
           Params_Email := Some "ada@example.com";
           Name := Some "Ada Lovelace";
           Params_Plan := Some "prod_J06Q7nJH3HJcYN" |}
        (Some {| Customer_ID := "cus_new" |}, None) ].
Proof. reflexivity. Qed.

(** [assignTier] to premium-20 for a premium-5 user when the database is
    down: Stripe is updated to the premium-20 plan, the write fails, Stripe
    is updated back to the premium-5 plan; when Stripe refuses that second
    update both failures come back. *)
Example assignTier_database_down :
  let order := map_to_list (@stripePlans demo_tiers) in
  run (db_down_env 2) 0%nat (assignTier order (reverse order) 3 demo_user)
  = mkRun
      (Some (demo_user, Some (ErrContext (ErrNew "db down") "failed to update user in DB")))
      [ EvCustomerUpdate "cus_1" (plan_params "prod_J06Qu7zg1unO8R")
          (Some {| Customer_ID := "cus_1" |}, None);
        EvUserSetTier demo_user 3 (demo_user, Some (ErrNew "db down"));
        EvCustomerUpdate "cus_1" (plan_params "prod_J06Q7nJH3HJcYN")
          (Some {| Customer_ID := "cus_1" |}, None) ]
      2%nat
  /\ value (run (db_down_env 1) 0%nat (assignTier order (reverse order) 3 demo_user))
     = Some (demo_user,
             Some (ErrComposed
                     [ ErrContext (ErrNew "db down") "failed to update user in DB";
                       ErrContext (ErrNew "stripe down") "failed to revert the change on Stripe" ]))
  /\ run (db_down_env 0) 0%nat (assignTier order (reverse order) 3 demo_user)
     = mkRun
         (Some (demo_user,
                Some (ErrContext (ErrNew "stripe down") "failed to update customer on Stripe")))
         [ EvCustomerUpdate "cus_1" (plan_params "prod_J06Qu7zg1unO8R")
             (None, Some (ErrNew "stripe down")) ]
         0%nat.
Proof. repeat split. Qed.

(** [count] on the reference driver: two downloads of user [u1], none of a
    user the collection does not know, and the failure of a pipeline the
    engine refuses. *)
Example count_on_demo_data :
  value (run (mongo_env eq_matches) (mkMongo demo_db []) (count "downloads" demo_match))
  = Some (2, None)
  /\ value (run (mongo_env eq_matches) (mkMongo demo_db [])
              (count "downloads" [("$match", BDoc [("user_id", BOid "nobody")])]))
     = Some (0, None)
  /\ value (run (mongo_env eq_matches) (mkMongo demo_db [])
              (count "downloads" [("$unknown", BNull)]))
     = Some (0, Some (ErrContext (ErrNew "unsupported stage") "DB query failed")).
Proof. repeat split. Qed.


(* ===================================================================== *)
(** * Part XII. The email validator *)
(* ===================================================================== *)

Module regexp_facts.
Import regexp.

Lemma nullable_Matches r : nullable r = true <-> Matches r [].
Proof.
  split.
  - induction r; simpl; intros Hn; try discriminate.
    + constructor.
    + apply andb_true_iff in Hn as [H1 H2].
      apply (MatchesConcat _ _ [] []); auto.
    + apply orb_true_iff in Hn as [H1|H2];
        [apply MatchesLeft | apply MatchesRight]; auto.
    + constructor.
  - intros Hm. remember [] as s eqn:Hs.
    induction Hm; simpl; try discriminate; try reflexivity.
    + apply app_eq_nil in Hs as [-> ->]. by rewrite IHHm1, IHHm2.
    + by rewrite IHHm.
    + rewrite IHHm by done. apply orb_true_r.
Qed.

Lemma Matches_derive c r s : Matches r (c :: s) -> Matches (derive c r) s.
Proof.
  intros Hm. remember (c :: s) as cs eqn:Hcs. revert s Hcs.
  induction Hm as [ | c' | ranges c' Hin | r1 r2 s1 s2 Hm1 IH1 Hm2 IH2
                  | r1 r2 s' Hm IH | r1 r2 s' Hm IH | r | r s1 s2 Hm1 IH1 Hm2 IH2 ];
    intros s Hcs; simpl.
  - discriminate.
  - injection Hcs as -> <-. rewrite Ascii.eqb_refl. constructor.
  - injection Hcs as -> <-. rewrite Hin. constructor.
  - destruct s1 as [|c1 s1]; simpl in Hcs.
    + subst s2. apply nullable_Matches in Hm1. rewrite Hm1.
      apply MatchesRight. by apply IH2.
    + injection Hcs as -> <-.
      assert (Matches (Concat (derive c r1) r2) (s1 ++ s2)) as Hc
        by (constructor; auto).
      destruct (nullable r1); [by apply MatchesLeft | done].
  - apply MatchesLeft. by apply IH.
  - apply MatchesRight. by apply IH.
  - discriminate.
  - destruct s1 as [|c1 s1]; simpl in Hcs.
    + by apply IH2.
    + injection Hcs as -> <-. constructor; auto.
Qed.

Lemma derive_Matches c r s : Matches (derive c r) s -> Matches r (c :: s).
Proof.
  revert s. induction r as [ | | c' | ranges | r1 IH1 r2 IH2 | r1 IH1 r2 IH2 | r1 IH1 ];
    intros s; simpl; intros Hm.
  - inversion Hm.
  - inversion Hm.
  - destruct (Ascii.eqb_spec c' c) as [->|]; inversion Hm. constructor.
  - destruct (in_ranges ranges c) eqn:Hin; inversion Hm. by constructor.
  - assert (forall t, Matches (Concat (derive c r1) r2) t -> Matches (Concat r1 r2) (c :: t))
      as Hleft.
    { intros t Ht. inversion Ht as [ | | | ? ? s1 s2 H1 H2 | | | | ]; subst.
      apply (MatchesConcat r1 r2 (c :: s1) s2); auto. }
    destruct (nullable r1) eqn:Hn; [|by apply Hleft].
    inversion Hm; subst; [by apply Hleft|].
    apply (MatchesConcat r1 r2 [] (c :: s)); [by apply nullable_Matches | auto].
  - inversion Hm; subst; [apply MatchesLeft | apply MatchesRight]; auto.
  - inversion Hm as [ | | | ? ? s1 s2 H1 H2 | | | | ]; subst.
    apply (MatchesStarApp r1 (c :: s1) s2); auto.
Qed.

(** The matcher decides the language. *)
Lemma match_bytes_Matches r s : match_bytes r s = true <-> Matches r s.
Proof.
  revert r. induction s as [|c s IH]; intros r; simpl.
  - apply nullable_Matches.
  - rewrite IH. split; [apply derive_Matches | apply Matches_derive].
Qed.

Lemma Matches_class_inv ranges s :
  Matches (CharClass ranges) s -> exists c, s = [c] /\ in_ranges ranges c = true.
Proof. inversion 1; subst. eauto. Qed.

Lemma Matches_Star_class ranges s :
  Matches (Star (CharClass ranges)) s <-> Forall (fun c => in_ranges ranges c = true) s.
Proof.
  split.
  - intros Hm. remember (Star (CharClass ranges)) as r eqn:Hr.
    induction Hm; try discriminate.
    + constructor.
    + injection Hr as ->.
      apply Matches_class_inv in Hm1 as (c & -> & Hc). simpl.
      constructor; auto.
  - induction 1 as [|c s Hc _ IH]; [constructor|].
    apply (MatchesStarApp _ [c] s); [by constructor | done].
Qed.

Lemma Matches_Plus_class ranges s :
  Matches (Plus (CharClass ranges)) s
  <-> s <> [] /\ Forall (fun c => in_ranges ranges c = true) s.
Proof.
  unfold Plus. split.
  - inversion 1 as [ | | | ? ? s1 s2 H1 H2 | | | | ]; subst.
    apply Matches_class_inv in H1 as (c & -> & Hc).
    apply Matches_Star_class in H2. split; [done | by constructor].
  - intros [Hne Hall]. destruct Hall as [|c s Hc Hall]; [done|].
    apply (MatchesConcat _ _ [c] s); [by constructor | by apply Matches_Star_class].
Qed.

Lemma Matches_Repeat_class ranges lo hi s :
  Matches (Repeat (CharClass ranges) lo hi) s
  <-> Forall (fun c => in_ranges ranges c = true) s
      /\ (lo <= length s <= hi)%nat.
Proof.
  revert lo s. induction hi as [|hi IH]; intros lo s; simpl.
  - destruct lo; split.
    + inversion 1. split; [constructor | simpl; lia].
    + intros [_ Hlen]. destruct s; [constructor | simpl in Hlen; lia].
    + inversion 1.
    + intros [_ Hlen]. lia.
  - destruct lo as [|lo]; split.
    + inversion 1 as [ | | | | ? ? ? Hl | ? ? ? Hr | | ]; subst.
      * inversion Hl. split; [constructor | simpl; lia].
      * inversion Hr as [ | | | ? ? s1 s2 H1 H2 | | | | ]; subst.
        apply Matches_class_inv in H1 as (c & -> & Hc).
        apply IH in H2 as [Hall Hlen]. split; [by constructor | simpl; lia].
    + intros [Hall Hlen]. destruct Hall as [|c s Hc Hall].
      * apply MatchesLeft. constructor.
      * apply MatchesRight. apply (MatchesConcat _ _ [c] s); [by constructor|].
        apply IH. split; [done | simpl in Hlen; lia].
    + inversion 1 as [ | | | ? ? s1 s2 H1 H2 | | | | ]; subst.
      apply Matches_class_inv in H1 as (c & -> & Hc).
      apply IH in H2 as [Hall Hlen]. split; [by constructor | simpl; lia].
    + intros [Hall Hlen]. destruct Hall as [|c s Hc Hall]; [simpl in Hlen; lia|].
      apply (MatchesConcat _ _ [c] s); [by constructor|].
      apply IH. split; [done | simpl in Hlen; lia].
Qed.

Lemma Matches_Concat_inv r1 r2 s :
  Matches (Concat r1 r2) s
  <-> exists s1 s2 : list ascii, s = (s1 ++ s2)%list /\ Matches r1 s1 /\ Matches r2 s2.
Proof.
  split.
  - inversion 1; subst. eauto.
  - intros (s1 & s2 & -> & H1 & H2). by constructor.
Qed.

Lemma Matches_Literal_inv c s : Matches (Literal c) s <-> s = [c].
Proof. split; [by inversion 1 | intros ->; constructor]. Qed.

End regexp_facts.

Lemma local_class_bytes c :
  regexp.in_ranges
    [("A", "Z"); ("0", "9"); ("a", "z"); (".", "."); ("_", "_"); ("%", "%");
     ("+", "+"); ("-", "-")]%char c
  = is_local_byte c.
Proof. destruct c as [[] [] [] [] [] [] [] []]; reflexivity. Qed.

Lemma domain_class_bytes c :
  regexp.in_ranges [("A", "Z"); ("a", "z"); ("0", "9"); (".", "."); ("-", "-")]%char c
  = is_domain_byte c.
Proof. destruct c as [[] [] [] [] [] [] [] []]; reflexivity. Qed.

Lemma letter_class_bytes c :
  regexp.in_ranges [("A", "Z"); ("a", "z")]%char c = is_letter c.
Proof. destruct c as [[] [] [] [] [] [] [] []]; reflexivity. Qed.

Lemma Forall_class_bytes (f g : ascii -> bool) (l : list ascii) :
  (forall c, f c = g c) ->
  Forall (fun c => f c = true) l <-> Forall (fun c => g c = true) l.
Proof. intros Hfg. apply Forall_iff. intros c. by rewrite Hfg. Qed.

(** The parts of an address [Validate] accepts. *)
Lemma Validate_parts (e : string) :
  Validate e = true ->
  exists local domain tld : list ascii,
    list_ascii_of_string e = (local ++ "@"%char :: domain ++ "."%char :: tld)%list
    /\ local <> [] /\ Forall (fun c => is_local_byte c = true) local
    /\ domain <> [] /\ Forall (fun c => is_domain_byte c = true) domain
    /\ Forall (fun c => is_letter c = true) tld
    /\ (2 <= length tld <= 64)%nat.
Proof.
  unfold Validate, regexp.MatchString, EmailValidatorRegEx.
  rewrite regexp_facts.match_bytes_Matches.
  rewrite regexp_facts.Matches_Concat_inv.
  intros (local & rest & -> & Hlocal & Hrest).
  apply regexp_facts.Matches_Concat_inv in Hrest as (at_ & rest1 & -> & Hat & Hrest).
  apply regexp_facts.Matches_Literal_inv in Hat as ->.
  apply regexp_facts.Matches_Concat_inv in Hrest as (domain & rest2 & -> & Hdomain & Hrest).
  apply regexp_facts.Matches_Concat_inv in Hrest as (dot & tld & -> & Hdot & Htld).
  apply regexp_facts.Matches_Literal_inv in Hdot as ->.
  apply regexp_facts.Matches_Plus_class in Hlocal as [Hl1 Hl2].
  apply regexp_facts.Matches_Plus_class in Hdomain as [Hd1 Hd2].
  apply regexp_facts.Matches_Repeat_class in Htld as [Ht1 Ht2].
  exists local, domain, tld. simpl.
  rewrite (Forall_class_bytes _ _ _ local_class_bytes) in Hl2.
  rewrite (Forall_class_bytes _ _ _ domain_class_bytes) in Hd2.
  rewrite (Forall_class_bytes _ _ _ letter_class_bytes) in Ht1.
  done.
Qed.

(** X1. [Validate] accepts exactly the strings [local@domain.tld] with a
    non-empty [local] of letters, digits and [._%+-], a non-empty [domain] of
    letters, digits, [.] and [-], and a [tld] of 2 to 64 letters. *)
Theorem Validate_shape (e : string) :
  Validate e = true
  <-> exists local domain tld : list ascii,
        list_ascii_of_string e = (local ++ "@"%char :: domain ++ "."%char :: tld)%list
        /\ local <> [] /\ Forall (fun c => is_local_byte c = true) local
        /\ domain <> [] /\ Forall (fun c => is_domain_byte c = true) domain
        /\ Forall (fun c => is_letter c = true) tld
        /\ (2 <= length tld <= 64)%nat.
Proof.
  split; [apply Validate_parts|].
  unfold Validate, regexp.MatchString, EmailValidatorRegEx.
  rewrite regexp_facts.match_bytes_Matches.
  intros (local & domain & tld & -> & Hl1 & Hl2 & Hd1 & Hd2 & Ht1 & Ht2).
  apply regexp.MatchesConcat.
  - apply regexp_facts.Matches_Plus_class.
    by rewrite (Forall_class_bytes _ _ _ local_class_bytes).
  - apply (regexp.MatchesConcat _ _ ["@"%char]); [constructor|].
    apply regexp.MatchesConcat.
    + apply regexp_facts.Matches_Plus_class.
      by rewrite (Forall_class_bytes _ _ _ domain_class_bytes).
    + apply (regexp.MatchesConcat _ _ ["."%char]); [constructor|].
      apply regexp_facts.Matches_Repeat_class.
      by rewrite (Forall_class_bytes _ _ _ letter_class_bytes).
Qed.

Lemma domain_byte_is_local c : is_domain_byte c = true -> is_local_byte c = true.
Proof. destruct c as [[] [] [] [] [] [] [] []]; simpl; done. Qed.

Lemma letter_is_local c : is_letter c = true -> is_local_byte c = true.
Proof. destruct c as [[] [] [] [] [] [] [] []]; simpl; done. Qed.

Lemma no_at_sign_in_local (l : list ascii) :
  Forall (fun c => is_local_byte c = true) l -> count_occ ascii_dec l "@"%char = 0%nat.
Proof.
  induction 1 as [|c l Hc _ IH]; simpl; [done|].
  destruct (ascii_dec c "@") as [->|_]; [discriminate Hc | done].
Qed.

(** X2. An address [Validate] accepts has exactly one [@], and every other
    byte of it is a letter, a digit or one of [._%+-]: no blank, no control
    character, no byte outside ASCII. *)
Theorem Validate_one_at_sign (e : string) :
  Validate e = true ->
  count_occ ascii_dec (list_ascii_of_string e) "@"%char = 1%nat
  /\ Forall (fun c => c = "@"%char \/ is_local_byte c = true) (list_ascii_of_string e).
Proof.
  intros Hv. apply Validate_parts in Hv
    as (local & domain & tld & -> & _ & Hlocal & _ & Hdomain & Htld & _).
  assert (Forall (fun c => is_local_byte c = true) domain) as Hd
    by (eapply Forall_impl; [exact Hdomain | apply domain_byte_is_local]).
  assert (Forall (fun c => is_local_byte c = true) tld) as Ht
    by (eapply Forall_impl; [exact Htld | apply letter_is_local]).
  split.
  - rewrite count_occ_app. simpl. rewrite count_occ_app. simpl.
    rewrite !no_at_sign_in_local by done. done.
  - apply Forall_app. split; [eapply Forall_impl; [exact Hlocal | by right]|].
    constructor; [by left|].
    apply Forall_app. split; [eapply Forall_impl; [exact Hd | by right]|].
    constructor; [by right|].
    eapply Forall_impl; [exact Ht | by right].
Qed.

Lemma Validate_one_at_sign_witness :
  count_occ ascii_dec (list_ascii_of_string "ada@example.com") "@"%char = 1%nat
  /\ Forall (fun c => c = "@"%char \/ is_local_byte c = true)
       (list_ascii_of_string "ada@example.com").
Proof. apply (Validate_one_at_sign "ada@example.com"). reflexivity. Defined.

(* ===================================================================== *)
(** * Part XIII. The connection string *)
(* ===================================================================== *)

Lemma list_ascii_of_string_app (a b : string) :
  list_ascii_of_string (a ++ b) = (list_ascii_of_string a ++ list_ascii_of_string b)%list.
Proof.
  induction a as [|c a IH]; [done|].
  change (String c a ++ b) with (String c (a ++ b)).
  cbn [list_ascii_of_string app]. by rewrite IH.
Qed.

Lemma unescape_escape_byte (c : ascii) (rest : list ascii) :
  url.unescape_bytes (url.escape_byte c ++ rest)%list
  = option_map (cons c) (url.unescape_bytes rest).
Proof. destruct c as [[] [] [] [] [] [] [] []]; reflexivity. Qed.

Lemma unescape_escape_bytes (s rest : list ascii) :
  url.unescape_bytes (url.escape_bytes s ++ rest)%list
  = option_map (app s) (url.unescape_bytes rest).
Proof.
  induction s as [|c s IH]; cbn [url.escape_bytes flat_map app].
  - by destruct (url.unescape_bytes rest).
  - rewrite <- List.app_assoc, unescape_escape_byte.
    fold (url.escape_bytes s). rewrite IH.
    by destruct (url.unescape_bytes rest).
Qed.

Lemma escape_byte_no_separator (c : ascii) :
  Forall (fun x => x <> ":"%char /\ x <> "@"%char) (url.escape_byte c).
Proof.
  destruct c as [[] [] [] [] [] [] [] []]; cbv;
    repeat (apply List.Forall_cons; [split; discriminate|]); apply List.Forall_nil.
Qed.

Lemma escape_bytes_no_separator (s : list ascii) :
  Forall (fun x => x <> ":"%char /\ x <> "@"%char) (url.escape_bytes s).
Proof.
  induction s as [|c s IH]; cbn [url.escape_bytes flat_map].
  - apply List.Forall_nil.
  - apply Forall_app. split; [apply escape_byte_no_separator | exact IH].
Qed.

Lemma cut_at_first (c : ascii) (l1 l2 : list ascii) :
  Forall (fun x => x <> c) l1 ->
  cut_at c (l1 ++ c :: l2)%list = Some (l1, l2).
Proof.
  induction 1 as [|x l1 Hx _ IH]; cbn.
  - by rewrite Ascii.eqb_refl.
  - destruct (Ascii.eqb_spec x c) as [->|_]; [done|]. by rewrite IH.
Qed.

(** X3. [connectionString] keeps the credentials apart from the rest of the
    URI, whatever bytes they hold: after the scheme, the first [@] is the one
    of the format string, before it the first [:] is the one between user
    name and password, [url.QueryUnescape] gives both back unchanged, and
    what follows the [@] is the host, the port and the fixed options. *)
Theorem connectionString_round_trip (creds : DBCredentials) :
  userinfo_of (connectionString creds)
  = Some (Creds_User creds, Creds_Password creds)
  /\ hostinfo_of (connectionString creds)
     = Some (Creds_Host creds ++ ":" ++ Creds_Port creds
             ++ "/?compressors=zstd,zlib,snappy&readPreference=nearest&w=majority&wtimeoutMS=1000").
Proof.
  destruct creds as [user password host port].
  unfold userinfo_of, hostinfo_of, connectionString, url.QueryEscape.
  cbn [Creds_User Creds_Password Creds_Host Creds_Port].
  set (tail := (host ++ _)%string).
  assert (Hcut :
    cut_at "@" (drop 10 (list_ascii_of_string
      ("mongodb://" ++ string_of_list_ascii (url.escape_bytes (list_ascii_of_string user))
       ++ ":" ++ string_of_list_ascii (url.escape_bytes (list_ascii_of_string password))
       ++ "@" ++ tail)))
    = Some ((url.escape_bytes (list_ascii_of_string user)
             ++ ":"%char :: url.escape_bytes (list_ascii_of_string password))%list,
            list_ascii_of_string tail)).
  { rewrite !list_ascii_of_string_app, !list_ascii_of_string_of_list_ascii.
    cbn [list_ascii_of_string drop app].
    rewrite drop_0.
    set (A := url.escape_bytes (list_ascii_of_string user)).
    set (B := url.escape_bytes (list_ascii_of_string password)).
    replace (A ++ ":"%char :: B ++ "@"%char :: list_ascii_of_string tail)%list
      with ((A ++ ":"%char :: B) ++ "@"%char :: list_ascii_of_string tail)%list
      by (by rewrite <- List.app_assoc).
    apply cut_at_first.
    apply Forall_app. split.
    - eapply Forall_impl; [apply escape_bytes_no_separator|]. by intros x [_ ?].
    - apply List.Forall_cons; [discriminate|].
      eapply Forall_impl; [apply escape_bytes_no_separator|]. by intros x [_ ?]. }
  rewrite Hcut. split.
  - rewrite cut_at_first.
    2:{ eapply Forall_impl; [apply escape_bytes_no_separator|]. by intros x [? _]. }
    rewrite <- (List.app_nil_r (url.escape_bytes (list_ascii_of_string user))).
    rewrite <- (List.app_nil_r (url.escape_bytes (list_ascii_of_string password))).
    rewrite !unescape_escape_bytes. cbn.
    by rewrite !List.app_nil_r, !string_of_list_ascii_of_string.
  - f_equal. subst tail. by rewrite string_of_list_ascii_of_string.
Qed.

(* ===================================================================== *)
(** * Part XIV. The pages of a listing *)
(* ===================================================================== *)

Lemma doc_get_filter (p : string -> bool) (row : doc) (k : string) :
  doc_get k (List.filter (fun kv => p (fst kv)) row)
  = if p k then doc_get k row else None.
Proof.
  induction row as [|[k' v'] row IH]; simpl; [by destruct (p k)|].
  destruct (String.eqb_spec k' k) as [->|Hne].
  - destruct (p k) eqn:E; simpl; [by rewrite String.eqb_refl | exact IH].
  - destruct (p k'); simpl; [|done].
    destruct (String.eqb_spec k' k); [done|]. exact IH.
Qed.

Lemma merged_row_field db d k :
  k <> "fromSkylinks" -> doc_get k (merged_row db d) = merged_field db d k.
Proof.
  intros Hne. unfold merged_row, merged_field, lookup_row.
  destruct (joined (db "skylinks") "skylink_id" "_id" d) as [|sky others].
  - rewrite doc_get_set_ne by done. by destruct (doc_get k d).
  - by rewrite doc_get_merge, doc_get_set_ne.
Qed.

Lemma project_downloads_row (m : doc) :
  project_row downloads_projection m = Ok (download_row m).
Proof.
  unfold project_row, downloads_projection, download_row.
  cbn -[doc_get doc_set doc_remove List.filter keeps value_compare].
  fold (gt_zero (doc_get "bytes" m)).
  destruct (gt_zero (doc_get "bytes" m)); cbn -[doc_get doc_set doc_remove List.filter keeps].
  - by destruct (doc_get "bytes" m).
  - by destruct (doc_get "size" m).
Qed.

Lemma downloads_pipeline_out qm db f offset pageSize rows :
  0 <= offset -> 0 < pageSize ->
  run_pipeline qm db (generateDownloadsPipeline [("$match", f)] offset pageSize) rows
  = Ok (map (fun d => download_row (merged_row db d)) (page_of qm f offset pageSize rows)).
Proof.
  intros Hoff Hps. rewrite downloads_pipeline_run by done.
  rewrite (map_result_map_Ok _ _ (merged_row db)) by apply replace_root_lookup_row.
  simpl rbind.
  rewrite <- (map_id (map (merged_row db) _)) at 1.
  rewrite (map_result_map_Ok _ _ download_row) by apply project_downloads_row.
  by rewrite map_map.
Qed.

Lemma Forall2_map_same {A B} (P : A -> B -> Prop) (g : A -> B) (l : list A) :
  (forall x, P x (g x)) -> Forall2 P l (map g l).
Proof. intros HP. induction l; simpl; by constructor. Qed.

Lemma upload_row_field db d k :
  doc_get k (doc_remove "fromSkylinks" (merged_row db d))
  = if String.eqb k "fromSkylinks" then None else merged_field db d k.
Proof.
  destruct (String.eqb_spec k "fromSkylinks") as [->|Hne].
  - apply doc_get_remove_eq.
  - rewrite doc_get_remove_ne by done. by apply merged_row_field.
Qed.

Lemma keeps_downloads_projection k :
  keeps downloads_projection k = bool_decide (k ∈ download_fields).
Proof.
  unfold keeps, downloads_projection, download_fields.
  destruct (String.eqb_spec k "_id") as [->|H0]; [done|].
  cbn [doc_get].
  repeat match goal with
         | |- context [String.eqb ?a k] =>
             destruct (String.eqb_spec a k) as [<-|?]; [done|]
         end.
  symmetry. apply bool_decide_eq_false_2. intros Hin.
  repeat (apply elem_of_cons in Hin as [->|Hin]; [done|]).
  by apply elem_of_nil in Hin.
Qed.

Lemma download_row_field db d k :
  doc_get k (download_row (merged_row db d))
  = if String.eqb k "size" then
      if gt_zero (merged_field db d "bytes") then merged_field db d "bytes"
      else merged_field db d "size"
    else if bool_decide (k ∈ download_fields) then merged_field db d k else None.
Proof.
  unfold download_row.
  rewrite !(merged_row_field db d "bytes"), !(merged_row_field db d "size") by done.
  set (sz := if gt_zero _ then _ else _).
  destruct (String.eqb_spec k "size") as [->|Hne].
  - destruct sz; [apply doc_get_set_eq | apply doc_get_remove_eq].
  - assert (doc_get k (List.filter (fun kv => keeps downloads_projection (fst kv))
                         (merged_row db d))
            = if bool_decide (k ∈ download_fields) then merged_field db d k else None)
      as Hkept.
    { rewrite doc_get_filter, keeps_downloads_projection.
      destruct (bool_decide_reflect (k ∈ download_fields)) as [Hin|_]; [|done].
      apply merged_row_field. intros ->.
      unfold download_fields in Hin.
      repeat (apply elem_of_cons in Hin as [[=]|Hin]).
      by apply elem_of_nil in Hin. }
    destruct sz.
    + by rewrite doc_get_set_ne by done.
    + by rewrite doc_get_remove_ne by done.
Qed.

(** X4. With a valid page, the uploads pipeline yields one row for each record
    of the page, in order: the row has the record's own fields and, where the
    record has none, those of the Skylink the lookup joined; the join field
    [fromSkylinks] is not in it. *)
Theorem uploads_rows_enriched qm db f offset pageSize rows :
  0 <= offset -> 0 < pageSize ->
  exists out,
    run_pipeline qm db (generateUploadsPipeline [("$match", f)] offset pageSize) rows
      = Ok out
    /\ Forall2
         (fun d o => forall k,
            doc_get k o
            = if String.eqb k "fromSkylinks" then None else merged_field db d k)
         (page_of qm f offset pageSize rows) out.
Proof.
  intros Hoff Hps. rewrite uploads_pipeline_run by done.
  eexists. split; [reflexivity|].
  apply Forall2_map_same. intros d k. apply upload_row_field.
Qed.

Lemma uploads_rows_enriched_witness :
  exists out,
    run_pipeline eq_matches demo_db
      (generateUploadsPipeline [("$match", BDoc [("user_id", BOid "u1")])] 1 5)
      (demo_db "downloads") = Ok out
    /\ Forall2
         (fun d o => forall k,
            doc_get k o
            = if String.eqb k "fromSkylinks" then None else merged_field demo_db d k)
         (page_of eq_matches (BDoc [("user_id", BOid "u1")]) 1 5 (demo_db "downloads")) out.
Proof.
  apply (uploads_rows_enriched eq_matches demo_db (BDoc [("user_id", BOid "u1")]) 1 5
           (demo_db "downloads")); lia.
Defined.

Lemma page_of_single qm f d :
  qm f d = true -> page_of qm f 0 1 [d] = [d].
Proof. intros Hq. unfold page_of. simpl. by rewrite Hq. Qed.

(** C4. The downloads pipeline, run on a valid page, yields one row for each
    record of the page, in the order of the page, and the [size] of the row
    of a record is the effective size of that record: for a record with no
    [size] of its own whose lookup joined a Skylink of size [sz], the
    record's own byte count [b] when [b] is greater than zero, and [sz] when
    [b] is not, or when neither the record nor the Skylink has a byte count.
    In particular a matching record with byte count 50 of a Skylink of size
    200, alone in its collection, gives the one row of size 50, and one with
    byte count 0 the one row of size 200. *)
Theorem downloads_effective_size
    (qm : bson -> doc -> bool) (db : string -> list doc)
    (f : bson) (offset pageSize : Z) (rows : list doc) :
  0 <= offset -> 0 < pageSize ->
  (exists out,
      run_pipeline qm db (generateDownloadsPipeline [("$match", f)] offset pageSize) rows
      = Ok out
      /\ Forall2
           (fun d o =>
              forall sky others sz,
                joined (db "skylinks") "skylink_id" "_id" d = sky :: others ->
                doc_get "size" d = None ->
                doc_get "size" sky = Some sz ->
                (forall b, doc_get "bytes" d = Some (BInt b) ->
                           doc_get "size" o = Some (if 0 <? b then BInt b else sz))
                /\ (doc_get "bytes" d = None -> doc_get "bytes" sky = None ->
                    doc_get "size" o = Some sz))
           (page_of qm f offset pageSize rows) out)
  /\ (forall d sky others,
        qm f d = true ->
        joined (db "skylinks") "skylink_id" "_id" d = sky :: others ->
        doc_get "size" d = None ->
        doc_get "size" sky = Some (BInt 200) ->
        (doc_get "bytes" d = Some (BInt 50) ->
         exists o,
           run_pipeline qm db (generateDownloadsPipeline [("$match", f)] 0 1) [d] = Ok [o]
           /\ doc_get "size" o = Some (BInt 50))
        /\ (doc_get "bytes" d = Some (BInt 0) ->
            exists o,
              run_pipeline qm db (generateDownloadsPipeline [("$match", f)] 0 1) [d] = Ok [o]
              /\ doc_get "size" o = Some (BInt 200))).
Proof.
  intros Hoff Hps.
  assert (forall d sky others sz b,
            joined (db "skylinks") "skylink_id" "_id" d = sky :: others ->
            doc_get "size" d = None ->
            doc_get "size" sky = Some sz ->
            doc_get "bytes" d = Some (BInt b) ->
            doc_get "size" (download_row (merged_row db d))
            = Some (if 0 <? b then BInt b else sz)) as Hsize.
  { intros d sky others sz b Hjoin Hnosize Hsz Hb.
    rewrite download_row_field. simpl String.eqb. cbv iota.
    unfold merged_field. rewrite Hb, Hnosize, Hjoin, Hsz, gt_zero_int.
    by destruct (0 <? b). }
  split.
  - rewrite downloads_pipeline_out by done.
    eexists. split; [reflexivity|].
    apply Forall2_map_same. intros d sky others sz Hjoin Hnosize Hsz. split.
    + intros b Hb. by apply (Hsize d sky others).
    + intros Hnob Hnob'. rewrite download_row_field. simpl String.eqb. cbv iota.
      unfold merged_field. by rewrite Hnob, Hnosize, Hjoin, Hnob', Hsz.
  - intros d sky others Hq Hjoin Hnosize Hsz. split; intros Hb.
    + eexists. rewrite downloads_pipeline_out, (page_of_single _ _ _ Hq) by lia.
      split; [reflexivity|]. by rewrite (Hsize d sky others (BInt 200) 50).
    + eexists. rewrite downloads_pipeline_out, (page_of_single _ _ _ Hq) by lia.
      split; [reflexivity|]. by rewrite (Hsize d sky others (BInt 200) 0).
Qed.

(** X5. With a valid page, a row of the downloads pipeline holds the fields
    [_id], [skylink], [name], [user_id], [skylink_id] and [timestamp] of the
    merged record and the computed [size], and no other field: the byte
    count and the join field do not leave the database. *)
Theorem downloads_rows_fields qm db f offset pageSize rows :
  0 <= offset -> 0 < pageSize ->
  exists out,
    run_pipeline qm db (generateDownloadsPipeline [("$match", f)] offset pageSize) rows
      = Ok out
    /\ Forall2
         (fun d o => forall k,
            doc_get k o
            = if String.eqb k "size" then
                if gt_zero (merged_field db d "bytes") then merged_field db d "bytes"
                else merged_field db d "size"
              else if bool_decide (k ∈ download_fields) then merged_field db d k
              else None)
         (page_of qm f offset pageSize rows) out.
Proof.
  intros Hoff Hps. rewrite downloads_pipeline_out by done.
  eexists. split; [reflexivity|].
  apply Forall2_map_same. intros d k. apply download_row_field.
Qed.

Lemma downloads_rows_fields_witness :
  exists out,
    run_pipeline eq_matches demo_db
      (generateDownloadsPipeline [("$match", BDoc [("user_id", BOid "u1")])] 0 10)
      (demo_db "downloads") = Ok out
    /\ Forall2
         (fun d o => forall k,
            doc_get k o
            = if String.eqb k "size" then
                if gt_zero (merged_field demo_db d "bytes") then merged_field demo_db d "bytes"
                else merged_field demo_db d "size"
              else if bool_decide (k ∈ download_fields) then merged_field demo_db d k
              else None)
         (page_of eq_matches (BDoc [("user_id", BOid "u1")]) 0 10 (demo_db "downloads")) out.
Proof.
  apply (downloads_rows_fields eq_matches demo_db (BDoc [("user_id", BOid "u1")]) 0 10
           (demo_db "downloads")); lia.
Defined.

Lemma listing_run_valid qm db f rows gen :
  is_listing_builder gen ->
  exists h : doc -> doc,
    (forall offset pageSize, 0 <= offset -> 0 < pageSize ->
       run_pipeline qm db (gen [("$match", f)] offset pageSize) rows
       = Ok (map h (page_of qm f offset pageSize rows)))
    /\ (forall d, doc_get "timestamp" d <> None ->
                  field_or_null "timestamp" (h d) = field_or_null "timestamp" d).
Proof.
  intros [-> | ->].
  - exists (fun d => doc_remove "fromSkylinks" (merged_row db d)).
    split; [intros; by apply uploads_pipeline_run|].
    intros d Hts. unfold field_or_null.
    rewrite upload_row_field. simpl. unfold merged_field.
    by destruct (doc_get "timestamp" d).
  - exists (fun d => download_row (merged_row db d)).
    split; [intros; by apply downloads_pipeline_out|].
    intros d Hts. unfold field_or_null.
    rewrite download_row_field. simpl. unfold merged_field.
    by destruct (doc_get "timestamp" d).
Qed.

Lemma listing_run_invalid qm db f offset pageSize rows gen :
  is_listing_builder gen -> offset < 0 \/ pageSize <= 0 ->
  exists msg, run_pipeline qm db (gen [("$match", f)] offset pageSize) rows = Err msg.
Proof.
  intros [-> | ->] Hbad.
  - unfold generateUploadsPipeline.
    cbn -[sort_docs List.filter take drop map_result joined doc_set Z.ltb Z.leb].
    destruct (Z.ltb_spec offset 0); [by eexists|].
    destruct (Z.leb_spec pageSize 0); [by eexists | lia].
  - unfold generateDownloadsPipeline.
    cbn -[sort_docs List.filter take drop map_result joined doc_set Z.ltb Z.leb].
    destruct (Z.ltb_spec offset 0); [by eexists|].
    destruct (Z.leb_spec pageSize 0); [by eexists | lia].
Qed.

(** X6. A listing pipeline runs exactly when the page is valid: a negative
    offset or a page size of zero or less makes the engine reject either
    pipeline, whatever the collection holds, and any other page is served. *)
Theorem listing_runs_iff_valid_page qm db f offset pageSize rows gen :
  is_listing_builder gen ->
  (exists out, run_pipeline qm db (gen [("$match", f)] offset pageSize) rows = Ok out)
  <-> 0 <= offset /\ 0 < pageSize.
Proof.
  intros Hgen. split.
  - intros [out Hout].
    destruct (Z.lt_ge_cases offset 0) as [Hneg|Hoff].
    { destruct (listing_run_invalid qm db f offset pageSize rows gen Hgen) as [msg Hmsg];
        [by left | congruence]. }
    destruct (Z.le_gt_cases pageSize 0) as [Hzero|Hps]; [|done].
    destruct (listing_run_invalid qm db f offset pageSize rows gen Hgen) as [msg Hmsg];
      [by right | congruence].
  - intros [Hoff Hps].
    destruct (listing_run_valid qm db f rows gen Hgen) as (h & Hrun & _).
    eexists. by apply Hrun.
Qed.

Lemma listing_runs_iff_valid_page_witness :
  (exists out,
      run_pipeline eq_matches demo_db
        (generateDownloadsPipeline [("$match", BDoc [("user_id", BOid "u1")])] 0 0)
        (demo_db "downloads") = Ok out)
  <-> 0 <= 0 /\ 0 < 0.
Proof.
  apply (listing_runs_iff_valid_page eq_matches demo_db (BDoc [("user_id", BOid "u1")])
           0 0 (demo_db "downloads") generateDownloadsPipeline).
  by right.
Defined.

Lemma Sorted_drop {A} (R : A -> A -> Prop) (n : nat) (l : list A) :
  Sorted R l -> Sorted R (drop n l).
Proof.
  revert l. induction n as [|n IH]; intros l Hs; [by rewrite drop_0|].
  destruct l as [|x l]; [done|]. simpl. apply IH. by inversion Hs.
Qed.

Lemma Sorted_take {A} (R : A -> A -> Prop) (n : nat) (l : list A) :
  Sorted R l -> Sorted R (take n l).
Proof.
  revert l. induction n as [|n IH]; intros l Hs; [constructor|].
  destruct l as [|x l]; [constructor|]. simpl.
  inversion Hs as [|? ? Hs' Hhd]; subst. constructor; [by apply IH|].
  destruct n; [constructor|]. destruct Hhd; simpl; by constructor.
Qed.

Lemma Sorted_map_on {A B} (R : A -> A -> Prop) (R' : B -> B -> Prop) (g : A -> B) l :
  (forall a b, In a l -> In b l -> R a b -> R' (g a) (g b)) ->
  Sorted R l -> Sorted R' (map g l).
Proof.
  intros Hg Hs. induction Hs as [|x l Hs IH Hhd]; simpl; [constructor|].
  constructor.
  - apply IH. intros a b Ha Hb. apply Hg; by right.
  - destruct Hhd as [|y l' Hxy]; simpl; constructor.
    apply Hg; [by left | right; by left | done].
Qed.

(** X7. When every matching record has a [timestamp] of its own, the rows a
    listing pipeline returns are newest first: no row has a [timestamp]
    below that of the row after it.  (The rows are sorted on the records'
    own [timestamp] before the merge; a record without one would show the
    Skylink's.) *)
Theorem listing_rows_newest_first qm db f offset pageSize rows gen :
  is_listing_builder gen -> 0 <= offset -> 0 < pageSize ->
  (forall d, In d rows -> qm f d = true -> doc_get "timestamp" d <> None) ->
  exists out,
    run_pipeline qm db (gen [("$match", f)] offset pageSize) rows = Ok out
    /\ Sorted newer_or_same out.
Proof.
  intros Hgen Hoff Hps Hts.
  destruct (listing_run_valid qm db f rows gen Hgen) as (h & Hrun & Hh).
  eexists. split; [by apply Hrun|].
  apply (Sorted_map_on newer_or_same).
  - intros a b Ha Hb Hab.
    apply In_page_of in Ha as [Ha Hqa]. apply In_page_of in Hb as [Hb Hqb].
    unfold newer_or_same. rewrite !Hh by eauto. exact Hab.
  - unfold page_of. apply Sorted_take, Sorted_drop.
    apply timestamp_descending_newest_first.
Qed.

(** X8. Both pipelines return [min pageSize (max 0 (n - offset))] rows on a
    valid page, [n] the number of records that match: a page is never longer
    than [pageSize], and only the last one is shorter. *)
Theorem listing_page_length qm db f offset pageSize rows gen :
  is_listing_builder gen -> 0 <= offset -> 0 < pageSize ->
  exists out,
    run_pipeline qm db (gen [("$match", f)] offset pageSize) rows = Ok out
    /\ Z.of_nat (length out)
       = Z.min pageSize
           (Z.max 0 (Z.of_nat (length (List.filter (qm f) rows)) - offset)).
Proof.
  intros Hgen Hoff Hps.
  destruct (listing_run_valid qm db f rows gen Hgen) as (h & Hrun & _).
  eexists. split; [by apply Hrun|].
  rewrite length_map. by apply page_of_length.
Qed.

Lemma page_of_app qm f offset n m rows :
  0 <= offset -> 0 < n -> 0 < m ->
  (page_of qm f offset n rows ++ page_of qm f (offset + n) m rows)%list
  = page_of qm f offset (n + m) rows.
Proof.
  intros Hoff Hn Hm. unfold page_of.
  set (l := sort_docs _ _).
  rewrite !Z2Nat.inj_add by lia.
  rewrite <- (drop_drop l). apply take_take_drop.
Qed.

Lemma dated_apart_dates rows :
  dated_apart rows ->
  (forall d, In d rows -> field_or_null "timestamp" d = BDate (date_of d))
  /\ NoDup (map date_of rows).
Proof.
  intros (dates & Hmap & Hnd).
  assert (forall d, In d rows -> field_or_null "timestamp" d = BDate (date_of d)) as Hd.
  { intros d Hin.
    assert (In (field_or_null "timestamp" d) (map BDate dates)) as Hin'
      by (rewrite <- Hmap; by apply in_map).
    apply in_map_iff in Hin' as (t & Ht & _). unfold date_of. by rewrite <- Ht. }
  split; [done|].
  assert (map date_of rows = dates) as ->; [|done].
  clear Hnd. revert dates Hmap. induction rows as [|d rows IH]; intros [|t dates] Hmap;
    simpl in Hmap; try discriminate; [done|].
  injection Hmap as Ht Hrest. simpl. f_equal.
  - unfold date_of. by rewrite Ht.
  - apply IH; [|done]. intros d' Hin. apply Hd. by right.
Qed.

Lemma NoDup_map_inj {A B} (g : A -> B) (l : list A) a b :
  NoDup (map g l) -> In a l -> In b l -> g a = g b -> a = b.
Proof.
  induction l as [|x l IH]; simpl; [done|].
  intros Hnd Ha Hb Hg. apply NoDup_cons in Hnd as [Hx Hnd].
  destruct Ha as [->|Ha], Hb as [->|Hb]; [done| | |by apply IH].
  - exfalso. apply Hx. rewrite Hg. apply list_elem_of_In. by apply in_map.
  - exfalso. apply Hx. rewrite <- Hg. apply list_elem_of_In. by apply in_map.
Qed.

Lemma map_inj_on {A B} (g : A -> B) (l1 l2 : list A) :
  (forall a b, In a l1 -> In b l2 -> g a = g b -> a = b) ->
  map g l1 = map g l2 -> l1 = l2.
Proof.
  revert l2. induction l1 as [|a l1 IH]; intros [|b l2] Hinj Hmap;
    simpl in Hmap; try discriminate; [done|].
  injection Hmap as Hab Hrest. f_equal.
  - apply Hinj; [by left | by left | done].
  - apply IH; [|done]. intros x y Hx Hy. apply Hinj; by right.
Qed.

(** With a date on every row and no date twice, there is one newest-first
    arrangement of the rows: whatever sort the engine runs, it returns it. *)
Lemma newest_first_unique (l s1 s2 : list doc) :
  dated_apart l ->
  s1 ≡ₚ l -> Sorted newer_or_same s1 ->
  s2 ≡ₚ l -> Sorted newer_or_same s2 ->
  s1 = s2.
Proof.
  intros Hdated Hp1 Hs1 Hp2 Hs2.
  destruct (dated_apart_dates l Hdated) as [Hdate Hnd].
  assert (forall s, s ≡ₚ l -> Sorted newer_or_same s ->
                    Sorted (fun x y : Z => y <= x) (map date_of s)) as Hsorted.
  { intros s Hp Hs. apply (Sorted_map_on newer_or_same); [|done].
    intros a b Ha Hb. unfold newer_or_same.
    rewrite (Hdate a), (Hdate b)
      by (apply list_elem_of_In; rewrite <- Hp; by apply list_elem_of_In).
    simpl. intros Hc. destruct (Z.compare_spec (date_of a) (date_of b)); [lia|done|lia]. }
  assert (Transitive (fun x y : Z => y <= x)) as Htrans by (intros x y z; lia).
  assert (AntiSymm eq (fun x y : Z => y <= x)) as Hanti by (intros x y; lia).
  assert (map date_of s1 = map date_of s2) as Hmap.
  { apply (Sorted_unique (fun x y : Z => y <= x)); [by apply Hsorted..|].
    change (date_of <$> s1 ≡ₚ date_of <$> s2). by rewrite Hp1, Hp2. }
  apply (map_inj_on date_of); [|done].
  intros a b Ha Hb. apply (NoDup_map_inj date_of l); [done| |].
  - apply list_elem_of_In. rewrite <- Hp1. by apply list_elem_of_In.
  - apply list_elem_of_In. rewrite <- Hp2. by apply list_elem_of_In.
Qed.

(** X9. When every matching record has a date as its [timestamp] and no two
    have the same, pages compose.  There is then one newest-first
    arrangement of the matching records, so that the sort of every query
    returns the same one, whatever the engine does with ties; and on either
    pipeline the page of [n] rows at [offset] followed by the page of [m]
    rows at [offset + n] is the page of [n + m] rows at [offset]. *)
Theorem listing_pages_compose qm db f offset n m rows gen :
  is_listing_builder gen -> 0 <= offset -> 0 < n -> 0 < m ->
  dated_apart (List.filter (qm f) rows) ->
  (forall s1 s2,
      s1 ≡ₚ List.filter (qm f) rows -> Sorted newer_or_same s1 ->
      s2 ≡ₚ List.filter (qm f) rows -> Sorted newer_or_same s2 ->
      s1 = s2)
  /\ exists p1 p2,
       run_pipeline qm db (gen [("$match", f)] offset n) rows = Ok p1
       /\ run_pipeline qm db (gen [("$match", f)] (offset + n) m) rows = Ok p2
       /\ run_pipeline qm db (gen [("$match", f)] offset (n + m)) rows = Ok (p1 ++ p2)%list
       /\ NoDup (map date_of (p1 ++ p2)).
Proof.
  intros Hgen Hoff Hn Hm Hdated. split.
  - intros s1 s2. by apply newest_first_unique.
  - destruct (listing_run_valid qm db f rows gen Hgen) as (h & Hrun & Hh).
    eexists _, _.
    split; [by apply Hrun|]. split; [apply Hrun; lia|].
    split; [rewrite Hrun by lia; by rewrite <- map_app, page_of_app|].
    rewrite <- map_app, page_of_app by done.
    destruct (dated_apart_dates _ Hdated) as [Hdate Hnd].
    set (sorted := sort_docs (sort_leb [("timestamp", -1)]) (List.filter (qm f) rows)).
    assert (sorted ≡ₚ List.filter (qm f) rows) as Hperm by apply sort_docs_Permutation.
    assert (map date_of (map h (page_of qm f offset (n + m) rows))
            = map date_of (page_of qm f offset (n + m) rows)) as ->.
    { rewrite map_map. apply map_ext_in. intros d Hin.
      assert (In d (List.filter (qm f) rows)) as Hd.
      { unfold page_of in Hin. apply In_page in Hin.
        apply list_elem_of_In. rewrite <- Hperm. by apply list_elem_of_In. }
      unfold date_of. rewrite Hh; [done|].
      specialize (Hdate d Hd). unfold field_or_null in Hdate.
      by destruct (doc_get "timestamp" d). }
    unfold page_of. fold sorted.
    assert (NoDup (map date_of sorted)) as Hnd'.
    { change (NoDup (date_of <$> sorted)). by rewrite Hperm. }
    apply (sublist_NoDup _ (map date_of sorted)); [done|].
    change (date_of <$> take (Z.to_nat (n + m)) (drop (Z.to_nat offset) sorted)
            `sublist_of` date_of <$> sorted).
    apply fmap_sublist. etrans; [apply sublist_take | apply sublist_drop].
Qed.

(* ===================================================================== *)
(** * Part XV. [processSub]: what it calls, and what it returns *)
(* ===================================================================== *)

Section ProcessSubRuns.

Context `{TierConsts}.

(** Every behaviour of [processSub], call by call. *)
Lemma processSub_behaviour s tr v :
  exec (processSub s) tr v ->
  match Subscription_Customer s with
  | None => tr = [EvLog "trace" "Processing subscription:"] /\ v = None
  | Some c =>
      exists r rest,
        tr = EvLog "trace" "Processing subscription:"
               :: EvUserByStripeID (Customer_ID c) r :: rest
        /\ match r with
           | (_, Some e) =>
               rest = []
               /\ v = Some (Some (AddContext e
                        "failed to fetch user from DB based on subscription info"))
           | (None, None) => rest = [] /\ v = None
           | (Some u, None) =>
               match reconciled s u with
               | None => rest = [EvLog "trace" "Subscribed user:"] /\ v = None
               | Some u' =>
                   exists details,
                     if changed u u'
                     then exists a,
                         rest = [EvLog "trace" "Subscribed user:"; EvLog "trace" details;
                                 EvUserSave u' a]
                         /\ v = Some a
                     else rest = [EvLog "trace" "Subscribed user:"; EvLog "trace" details]
                          /\ v = Some None
               end
           end
  end.
Proof.
  unfold processSub. intros Hx.
  exec_call Hx.
  destruct (Subscription_Customer s) as [customer|]; [|by exec_end Hx].
  exec_call Hx. exists x0. destruct x0 as [[u|] [e|]]; try (exec_end Hx; by eexists).
  exec_call Hx. eexists. split; [done|]. unfold reconciled.
  destruct (negb (String.eqb (Subscription_Status s) SubscriptionStatusActive)).
  - exec_call Hx. fold (changed u (set_Tier TierFree u)) in Hx.
    eexists. destruct (changed u (set_Tier TierFree u)).
    + exec_call Hx. exec_end Hx. by eexists.
    + by exec_end Hx.
  - destruct (Subscription_Plan s) as [plan|]; [|by exec_end Hx].
    cbn [exec bind perform deref] in Hx.
    destruct (Plan_Product plan) as [product|]; [|by exec_end Hx].
    exec_call Hx. eexists.
    match type of Hx with
    | context [UserSave ?u'] => fold (changed u u') in Hx; destruct (changed u u')
    end.
    + exec_call Hx. exec_end Hx. by eexists.
    + by exec_end Hx.
Qed.

(** X10. Whatever the database answers, [processSub] calls nothing but the
    logger, the lookup of the user of the subscription's customer, at most
    once, and the save of a user, at most once; it never calls Stripe; and
    when it saves, what the save answers is what it returns. *)
Theorem processSub_calls St (env : Env St) (st : St) (s : Subscription) :
  let R := run env st (processSub s) in
  forallb is_processSub_call (trace R) = true
  /\ stripe_calls (trace R) = []
  /\ lookups (trace R)
     = match Subscription_Customer s with Some c => [Customer_ID c] | None => [] end
  /\ (length (db_writes (trace R)) <= 1)%nat
  /\ (forall u' a, In (EvUserSave u' a) (trace R) -> value R = Some a).
Proof.
  intros R. subst R.
  pose proof (processSub_behaviour s _ _ (run_exec env st (processSub s))) as Hx.
  set (tr := trace _) in *. set (v := value _) in *. clearbody tr v.
  destruct (Subscription_Customer s) as [c|].
  2:{ destruct Hx as [-> ->]. repeat split; try done; try (simpl; lia).
      intros u' a [Hin|[]]. discriminate. }
  destruct Hx as (r & rest & -> & Hr).
  destruct r as [[u|] [e|]]; try (destruct Hr as [-> ->]; repeat split; try done;
    try (simpl; lia); intros u' a Hin; simpl in Hin; intuition discriminate).
  destruct (reconciled s u) as [u1|].
  - destruct Hr as (details & Hr). destruct (changed u u1).
    + destruct Hr as (a & -> & ->). repeat split; try done; try (simpl; lia).
      intros u' a' Hin. simpl in Hin.
      destruct Hin as [Hin|[Hin|[Hin|[Hin|[Hin|[]]]]]]; try discriminate.
      by injection Hin as _ ->.
    + destruct Hr as [-> ->]. repeat split; try done; try (simpl; lia).
      intros u' a Hin; simpl in Hin; intuition discriminate.
  - destruct Hr as [-> ->]. repeat split; try done; try (simpl; lia).
    intros u' a Hin; simpl in Hin; intuition discriminate.
Qed.

(** X11. When the subscription has no customer, or is active and has no plan
    or a plan with no product, [processSub] reads through a [nil] pointer:
    it writes nothing and never reports success, and once the user has been
    fetched the run ends in a panic. *)
Theorem processSub_nil_pointer St (env : Env St) (st : St) (s : Subscription) :
  missing_pointer s ->
  let R := run env st (processSub s) in
  db_writes (trace R) = []
  /\ value R <> Some None
  /\ (fetched (trace R) <> [] \/ Subscription_Customer s = None -> value R = None).
Proof.
  intros Hmiss R. subst R.
  pose proof (processSub_behaviour s _ _ (run_exec env st (processSub s))) as Hx.
  set (tr := trace _) in *. set (v := value _) in *. clearbody tr v.
  destruct (Subscription_Customer s) as [c|] eqn:Hc.
  2:{ by destruct Hx as [-> ->]. }
  destruct Hmiss as [Hm|[Hactive Hplan]]; [congruence|].
  destruct Hx as (r & rest & -> & Hr).
  destruct r as [[u|] [e|]].
  - destruct Hr as [-> ->]. repeat split; try done. by intros [?|?].
  - assert (reconciled s u = None) as Hrec.
    { unfold reconciled. rewrite Hactive. simpl.
      destruct (Subscription_Plan s) as [plan|]; [by rewrite Hplan | done]. }
    rewrite Hrec in Hr. by destruct Hr as [-> ->].
  - destruct Hr as [-> ->]. repeat split; try done. by intros [?|?].
  - by destruct Hr as [-> ->].
Qed.

(** X12. For an active subscription to a product of the plan table, once the
    user is fetched: the record is saved exactly when its tier is not the
    table's tier for that product or its expiry is not the period end in
    UTC; the saved record is the fetched one with those two fields set and
    nothing else changed; and [processSub] returns the answer of the save,
    and [nil] when it did not save. *)
Theorem processSub_known_plan_promotes
    St (env : Env St) (st : St) (s : Subscription) (plan : Plan) (product : Product)
    (tier : Z) (u : User) :
  Subscription_Status s = SubscriptionStatusActive ->
  Subscription_Plan s = Some plan ->
  Plan_Product plan = Some product ->
  stripePlans !! Product_ID product = Some tier ->
  fetched (trace (run env st (processSub s))) = [u] ->
  let R := run env st (processSub s) in
  let expiry := time.mkTime (CurrentPeriodEnd s) 0 time.LocUTC in
  let u' := set_SubscribedUntil expiry (set_Tier tier u) in
  (Tier u = tier /\ SubscribedUntil u = expiry ->
     db_writes (trace R) = [] /\ value R = Some None)
  /\ (Tier u <> tier \/ SubscribedUntil u <> expiry ->
        exists a, db_writes (trace R) = [EvUserSave u' a] /\ value R = Some a)
  /\ Tier u' = tier /\ SubscribedUntil u' = expiry
  /\ (User_ID u', Sub u', FirstName u', LastName u', Email u', PasswordHash u', StripeId u')
     = (User_ID u, Sub u, FirstName u, LastName u, Email u, PasswordHash u, StripeId u).
Proof.
  intros Hstatus Hplan Hproduct Hknown Hf R expiry u'. subst R.
  pose proof (processSub_behaviour s _ _ (run_exec env st (processSub s))) as Hx.
  set (v := value _) in *.
  set (tr := trace (run env st (processSub s))) in *. clearbody tr v.
  destruct (Subscription_Customer s) as [c|].
  2:{ destruct Hx as [-> ->]. discriminate. }
  destruct Hx as (r & rest & -> & Hr).
  destruct r as [[u0|] [e|]]; try (destruct Hr as [-> ->]; discriminate).
  assert (reconciled s u0 = Some (set_SubscribedUntil expiry (set_Tier tier u0))) as Hrec.
  { unfold reconciled. rewrite Hstatus, Hplan, Hproduct. simpl.
    unfold tierForPlan. by rewrite Hknown. }
  rewrite Hrec in Hr. destruct Hr as (details & Hr).
  assert (u0 = u) as ->.
  { destruct (changed u0 _); [destruct Hr as (a & -> & _) | destruct Hr as [-> _]];
      simpl in Hf; congruence. }
  fold u' in Hr.
  split; [|split; [|done]].
  - intros [Ht He].
    assert (changed u u' = false) as Hch.
    { apply changed_false. unfold tier_expiry, u'. simpl. congruence. }
    rewrite Hch in Hr. by destruct Hr as [-> ->].
  - intros Hne.
    assert (changed u u' = true) as Hch.
    { apply changed_true. unfold tier_expiry, u'. simpl. intros [= Ht He].
      destruct Hne as [Hne|Hne]; congruence. }
    rewrite Hch in Hr. destruct Hr as (a & -> & ->). by exists a.
Qed.

End ProcessSubRuns.

(* ===================================================================== *)
(** * Part XVI. The plan table, both ways *)
(* ===================================================================== *)

Section PlanTable.

Context `{TierConsts}.

Lemma table_tier_has_plan t :
  t ∈ [TierFree; TierPremium5; TierPremium20; TierPremium80] ->
  exists plan, stripePlans !! plan = Some t.
Proof.
  intros Hin.
  assert (t ∈ (map_to_list stripePlans).*2) as Ht by (by rewrite stripePlans_entries).
  apply list_elem_of_fmap in Ht as ([plan t'] & -> & Hpt).
  exists plan. by apply elem_of_map_to_list.
Qed.

(** X14. [planForTier] and [tierForPlan] undo each other on the table, in
    whatever order the table is visited: the tier of the plan of one of the
    four tiers is that tier, and, the four tiers being distinct, the plan of
    the tier of a plan of the table is that plan.  The plan of any other
    tier is the empty string, whose tier is the free one. *)
Theorem plan_tier_round_trip (order : list (string * Z)) :
  range_of stripePlans order ->
  (forall t, t ∈ [TierFree; TierPremium5; TierPremium20; TierPremium80] ->
             tierForPlan (planForTier order t) = t)
  /\ (forall t, t ∉ [TierFree; TierPremium5; TierPremium20; TierPremium80] ->
                planForTier order t = "" /\ tierForPlan (planForTier order t) = TierFree)
  /\ (NoDup [TierFree; TierPremium5; TierPremium20; TierPremium80] ->
      forall plan, is_Some (stripePlans !! plan) ->
                   planForTier order (tierForPlan plan) = plan).
Proof.
  intros Hrange. split; [|split].
  - intros t Ht. destruct (table_tier_has_plan t Ht) as [plan Hplan].
    destruct (planForTier_cases order t) as [[_ Hnone]|Hin].
    + exfalso. apply (Hnone plan). by apply (range_of_lookup _ _ _ Hrange).
    + apply (range_of_lookup _ _ _ Hrange) in Hin. unfold tierForPlan. by rewrite Hin.
  - intros t Ht.
    assert (planForTier order t = "") as Hempty.
    { destruct (planForTier_cases order t) as [[Hr _]|Hin]; [done|].
      exfalso. apply Ht.
      apply (range_of_lookup _ _ _ Hrange), elem_of_map_to_list in Hin.
      rewrite stripePlans_entries in Hin.
      repeat (apply elem_of_cons in Hin as [[= _ ->]|Hin]; [set_solver|]).
      by apply elem_of_nil in Hin. }
    split; [done|]. rewrite Hempty. unfold tierForPlan.
    destruct (stripePlans !! "") as [t'|] eqn:Hl; [|done].
    apply elem_of_map_to_list in Hl. rewrite stripePlans_entries in Hl.
    repeat (apply elem_of_cons in Hl as [[=]|Hl]). by apply elem_of_nil in Hl.
  - intros Hnd plan [t Hl]. unfold tierForPlan. rewrite Hl.
    by apply planForTier_inverts_table.
Qed.

End PlanTable.

(* ===================================================================== *)
(** * Part XVII. [New] and the schema *)
(* ===================================================================== *)

Section FreeFacts.

Context {C : Type} {R : C -> Type} {Ev : Type} (mk : forall c : C, R c -> Ev).

(** Every run in an environment is one of the program's behaviours. *)
Lemma frun_fexec {A St} (env : St -> forall c : C, R c * St) (st : St) (p : Free C R A) :
  fexec mk p (frun mk env st p).1.2 (frun mk env st p).1.1.
Proof.
  revert st. induction p as [a|m|c k IH]; intros st; simpl; [done..|].
  destruct (env st c) as [x st']. specialize (IH x st').
  destruct (frun mk env st' (k x)) as [[v tr] st'']. simpl in *. eauto.
Qed.

(** A behaviour of [p] followed by [f]: one of [p], and when [p] returned,
    one of [f] after it. *)
Lemma fexec_bind {A B} (p : Free C R A) (f : A -> Free C R B) tr v :
  fexec mk (fbind p f) tr v ->
  exists tr1 v1,
    fexec mk p tr1 v1
    /\ match v1 with
       | None => tr = tr1 /\ v = None
       | Some a => exists tr2, tr = (tr1 ++ tr2)%list /\ fexec mk (f a) tr2 v
       end.
Proof.
  revert tr. induction p as [a|m|c k IH]; intros tr; simpl.
  - intros Hf. exists [], (Some a). split; [done|]. by exists tr.
  - intros [-> ->]. by exists [], None.
  - intros (x & tr' & -> & Hx).
    destruct (IH x tr' Hx) as (tr1 & v1 & H1 & Hrest).
    exists (mk c x :: tr1), v1. split; [by exists x, tr1|].
    destruct v1 as [a|].
    + destruct Hrest as (tr2 & -> & H2). by exists tr2.
    + by destruct Hrest as [-> ->].
Qed.

End FreeFacts.

Ltac fexec_call H :=
  let x := fresh "x" in
  let tr := fresh "tr" in
  cbn [fexec fbind fperform fderef mk_setup_event] in H; destruct H as (x & tr & ? & H);
  subst; cbn [fexec fbind fperform fderef mk_setup_event] in H.

Ltac fexec_end H := cbn [fexec fbind fperform fderef] in H; destruct H as [? ?]; subst.

(** Every behaviour of [ensureCollection]. *)
Lemma ensureCollection_behaviour db name tr v :
  fexec mk_setup_event (ensureCollection db name) tr v ->
  (exists c, tr = [EvCollection db name (Some c)] /\ v = Some (Some c, None))
  \/ (exists e, tr = [EvCollection db name None; EvCreateCollection db name (Some e)]
                /\ v = Some (None, Some e))
  \/ (tr = [EvCollection db name None; EvCreateCollection db name None;
            EvCollection db name None]
      /\ v = Some (None, Some (ErrNew ("failed to create collection " ++ name))))
  \/ (exists c, tr = [EvCollection db name None; EvCreateCollection db name None;
                      EvCollection db name (Some c)]
                /\ v = Some (Some c, None)).
Proof.
  unfold ensureCollection. intros Hx.
  fexec_call Hx. destruct x as [c|].
  - fexec_end Hx. left. by exists c.
  - fexec_call Hx. destruct x as [e|].
    + fexec_end Hx. right. left. by exists e.
    + fexec_call Hx. destruct x as [c|]; fexec_end Hx.
      * right. right. right. by exists c.
      * right. right. by left.
Qed.

Lemma ensureDBSchema_loop_outcome db log order tr v :
  fexec mk_setup_event (ensureDBSchema_loop db log order) tr v ->
  schema_outcome db log order tr v.
Proof.
  revert tr v. induction order as [|[name models] rest IH]; intros tr v Hx.
  - destruct Hx as [-> ->]. left. exists []. by repeat split.
  - cbn [ensureDBSchema_loop] in Hx.
    apply fexec_bind in Hx as (tr1 & v1 & H1 & Hrest).
    assert (forall c pre tr2,
              ensured db name c pre ->
              fexec mk_setup_event
                (r <- fperform (IndexView_CreateMany c models) ;;
                 match snd r with
                 | Some e => FRet (Some (AddContext e "failed to create indexes"))
                 | None =>
                     fperform (Logger_Debugf log "Ensured index exists: %v" (fst r)) ;;
                     ensureDBSchema_loop db log rest
                 end)%free tr2 v ->
              schema_outcome db log ((name, models) :: rest) (pre ++ tr2) v) as Hturn.
    { clear tr1 v1 H1 Hrest. intros c pre tr2 Hpre Hx.
      fexec_call Hx. destruct x as [names [e|]]; cbn [fst snd] in Hx.
      - fexec_end Hx. right.
        eexists [], (name, models), rest, [], _, _.
        split; [done|]. split; [constructor|]. split; [|split; [|done]].
        + right. right. by exists c, names, e, pre.
        + done.
      - fexec_call Hx. destruct x.
        destruct (IH _ _ Hx) as [(turns & Hall & -> & ->)
                                | (before & entry & after & turns & last & err
                                   & -> & Hall & Hfail & -> & ->)].
        + left. eexists (_ :: turns). split; [|split; [|done]].
          * constructor; [|done]. by exists c, names, pre.
          * simpl. by rewrite <- List.app_assoc.
        + right.
          eexists ((name, models) :: before), entry, after, (_ :: turns), last, err.
          split; [done|]. split; [|split; [done|split; [|done]]].
          * constructor; [|done]. by exists c, names, pre.
          * simpl. by rewrite <- !List.app_assoc. }
    apply ensureCollection_behaviour in H1
      as [(c & -> & ->) | [(e & -> & ->) | [[-> ->] | (c & -> & ->)]]];
      destruct Hrest as (tr2 & -> & Hx); cbn [fst snd] in Hx.
    + apply (Hturn c); [by left | done].
    + fexec_end Hx. right.
      eexists [], (name, models), rest, [], _, _.
      split; [done|]. split; [constructor|]. split; [|split; [|done]].
      * left. by exists e.
      * done.
    + fexec_end Hx. right.
      eexists [], (name, models), rest, [], _, _.
      split; [done|]. split; [constructor|]. split; [|split; [|done]].
      * right. by left.
      * done.
    + apply (Hturn c); [by right | done].
Qed.

Lemma ensured_facts db name c pre :
  ensured db name c pre ->
  indexed pre = [] /\ List.filter setup_failed pre = []
  /\ In (EvCollection db name (Some c)) pre /\ pre <> []
  /\ List.filter is_disconnect pre = [].
Proof. intros [-> | ->]; repeat split; simpl; auto; discriminate. Qed.

Lemma indexed_app tr1 tr2 : indexed (tr1 ++ tr2) = (indexed tr1 ++ indexed tr2)%list.
Proof. apply omap_app. Qed.

Lemma turns_done db log order turns :
  Forall2 (entry_done db log) order turns ->
  length (indexed (concat turns)) = length order
  /\ List.filter setup_failed (concat turns) = []
  /\ List.filter is_disconnect (concat turns) = []
  /\ forall name models, In (name, models) order ->
       exists c, In (c, models) (indexed (concat turns))
                 /\ In (EvCollection db name (Some c)) (concat turns).
Proof.
  induction 1 as [|[name models] turn order turns Hdone _ IH]; simpl.
  - by repeat split.
  - destruct IH as (Hlen & Hnofail & Hnodis & Hall).
    destruct Hdone as (c & names & pre & Hpre & ->). simpl in Hpre.
    destruct (ensured_facts _ _ _ _ Hpre) as (Hi & Hf & Hin & _ & Hd).
    rewrite !indexed_app, !List.filter_app, Hi, Hf, Hd, Hnofail, Hnodis. simpl.
    rewrite Hlen. repeat split; try done.
    intros name' models' [[= <- <-]|Hin'].
    + exists c. split; [by left|]. apply in_or_app. left. apply in_or_app. by left.
    + destruct (Hall _ _ Hin') as (c' & H1 & H2). exists c'.
      split; [by right | apply in_or_app; by right].
Qed.

Lemma entry_failed_facts db entry fin err :
  entry_failed db entry fin err ->
  indexed fin = [] /\ List.filter is_disconnect fin = []
  /\ ((List.filter setup_failed fin = []
       /\ last fin = Some (EvCollection db entry.1 None)
       /\ err = ErrNew ("failed to create collection " ++ entry.1))
      \/ exists e, List.filter setup_failed fin = [e]
                   /\ last fin = Some e /\ schema_error e = Some err).
Proof.
  intros [(e & -> & ->) | [[-> ->] | (c & names & e & pre & Hpre & -> & ->)]].
  - repeat split; try done. right. by eexists.
  - repeat split; try done. by left.
  - destruct (ensured_facts _ _ _ _ Hpre) as (Hi & Hf & _ & _ & Hd).
    rewrite indexed_app, !List.filter_app, Hi, Hf, Hd. repeat split; try done.
    right. eexists. split; [done|]. split; [|done].
    by rewrite last_snoc.
Qed.

Lemma schema_range_length order : schema_range order -> length order = 6%nat.
Proof. unfold schema_range. intros Hr. rewrite (Permutation_length Hr). by vm_compute. Qed.

Lemma schema_range_In order name models :
  schema_range order -> (In (name, models) order <-> schema !! name = Some models).
Proof.
  unfold schema_range. intros Hr. rewrite <- list_elem_of_In, Hr. apply elem_of_map_to_list.
Qed.

(** X15. [ensureCollection] never panics and returns a collection or an error,
    never both and never neither; the collection it returns is the one the
    database answered last.  It asks to create the collection at most once,
    and only after the database answered that it has none. *)
Theorem ensureCollection_returns
    St (env : St -> forall c, setup_resp c * St) (st : St) db name :
  let r := frun mk_setup_event env st (ensureCollection db name) in
  ((exists c, r.1.1 = Some (Some c, None)
              /\ last r.1.2 = Some (EvCollection db name (Some c)))
   \/ (exists e, r.1.1 = Some (None, Some e)))
  /\ (creations r.1.2 = []
      \/ (creations r.1.2 = [name] /\ head r.1.2 = Some (EvCollection db name None))).
Proof.
  intros r. subst r.
  pose proof (frun_fexec mk_setup_event env st (ensureCollection db name)) as Hx.
  destruct (frun mk_setup_event env st (ensureCollection db name)) as [[v tr] st'].
  cbn [fst snd] in *.
  apply ensureCollection_behaviour in Hx
    as [(c & -> & ->) | [(e & -> & ->) | [[-> ->] | (c & -> & ->)]]].
  - split; [left; by exists c | by left].
  - split; [right; by exists e | by right].
  - split; [right; by eexists | by right].
  - split; [left; by exists c | by right].
Qed.

(** X16. When [ensureDBSchema] returns no error, every collection of the
    schema was looked up or created, and its indexes were requested on the
    collection the database answered, with the models the schema gives it:
    six requests in all, in whatever order the schema was visited, and no
    call failed. *)
Theorem ensureDBSchema_indexes_every_collection
    St (env : St -> forall c, setup_resp c * St) (st : St) order db log :
  schema_range order ->
  let r := frun mk_setup_event env st (ensureDBSchema order db log) in
  r.1.1 = Some None ->
  length (indexed r.1.2) = 6%nat
  /\ List.filter setup_failed r.1.2 = []
  /\ forall name models, schema !! name = Some models ->
       exists c, In (c, models) (indexed r.1.2)
                 /\ In (EvCollection db name (Some c)) r.1.2.
Proof.
  intros Hrange r. subst r.
  pose proof (frun_fexec mk_setup_event env st (ensureDBSchema order db log)) as Hx.
  destruct (frun mk_setup_event env st (ensureDBSchema order db log)) as [[v tr] st'].
  cbn [fst snd] in *. intros ->.
  apply ensureDBSchema_loop_outcome in Hx
    as [(turns & Hall & -> & _)
       | (before & entry & after & turns & fin & err & _ & _ & _ & _ & [=])].
  destruct (turns_done _ _ _ _ Hall) as (Hlen & Hnofail & _ & Hin).
  split; [by rewrite Hlen, (schema_range_length _ Hrange)|]. split; [done|].
  intros name models Hl. apply Hin. by apply (schema_range_In _ _ _ Hrange).
Qed.

(** X17. [ensureDBSchema] never panics and stops at the first failure: when it
    returns an error, fewer index requests succeeded than the schema has
    collections, at most one call answered with an error, that call is the
    last one, and the error returned is that of [CreateCollection] as it is
    or that of [CreateMany] with a context; when no call answered with an
    error, the last call is a lookup that found no collection after it was
    created.  When it returns no error, no call failed and there is one
    index request for each entry. *)
Theorem ensureDBSchema_stops_at_first_failure
    St (env : St -> forall c, setup_resp c * St) (st : St) order db log :
  let r := frun mk_setup_event env st (ensureDBSchema order db log) in
  match r.1.1 with
  | None => False
  | Some None =>
      List.filter setup_failed r.1.2 = [] /\ length (indexed r.1.2) = length order
  | Some (Some err) =>
      (length (indexed r.1.2) < length order)%nat
      /\ ((List.filter setup_failed r.1.2 = []
           /\ exists name, last r.1.2 = Some (EvCollection db name None)
                           /\ err = ErrNew ("failed to create collection " ++ name))
          \/ exists e, List.filter setup_failed r.1.2 = [e]
                       /\ last r.1.2 = Some e /\ schema_error e = Some err)
  end.
Proof.
  intros r. subst r.
  pose proof (frun_fexec mk_setup_event env st (ensureDBSchema order db log)) as Hx.
  destruct (frun mk_setup_event env st (ensureDBSchema order db log)) as [[v tr] st'].
  cbn [fst snd] in *.
  apply ensureDBSchema_loop_outcome in Hx
    as [(turns & Hall & -> & ->)
       | (before & entry & after & turns & fin & err & -> & Hall & Hfail & -> & ->)].
  - destruct (turns_done _ _ _ _ Hall) as (Hlen & Hnofail & _ & _). done.
  - destruct (turns_done _ _ _ _ Hall) as (Hlen & Hnofail & _ & _).
    destruct (entry_failed_facts _ _ _ _ Hfail) as (Hi & _ & Hcase).
    rewrite indexed_app, Hi, List.app_nil_r, Hlen, List.filter_app, Hnofail.
    split; [rewrite length_app; simpl; lia|]. simpl.
    destruct Hcase as [(Hf & Hlast & ->) | (e & Hf & Hlast & Herr)].
    + left. split; [done|]. exists entry.1. split; [|done].
      rewrite last_app. by rewrite Hlast.
    + right. exists e. split; [done|]. split; [|done].
      rewrite last_app. by rewrite Hlast.
Qed.

(** Every behaviour of [New]. *)
Lemma New_behaviour order creds logger tr v :
  fexec mk_setup_event (New order creds logger) tr v ->
  let uri := connectionString creds in
  let log := default LoggerZero logger in
  (exists c e, tr = [EvNewClient uri (c, Some e)]
               /\ v = Some (None, Some (AddContext e "failed to create a new DB client")))
  \/ (tr = [EvNewClient uri (None, None)] /\ v = None)
  \/ (exists c e, tr = [EvNewClient uri (Some c, None); EvConnect c (Some e)]
                  /\ v = Some (None, Some (AddContext e "failed to connect to DB")))
  \/ (exists c str err,
        schema_outcome (mongo.mkDatabase c dbName) log order str (Some (Some err))
        /\ tr = EvNewClient uri (Some c, None) :: EvConnect c None :: str
        /\ v = Some (None, Some err))
  \/ (exists c str db,
        schema_outcome (mongo.mkDatabase c dbName) log order str (Some None)
        /\ staticDB db = mongo.mkDatabase c dbName
        /\ staticLogger db = log
        /\ tr = (EvNewClient uri (Some c, None) :: EvConnect c None :: str
                 ++ field_lookups db)%list
        /\ v = Some (Some db, None)).
Proof.
  intros Hx uri log. unfold New in Hx.
  fexec_call Hx. destruct x as [c [e|]]; cbn [fst snd] in Hx.
  { fexec_end Hx. left. by exists c, e. }
  destruct c as [c|]; [|fexec_end Hx; right; by left].
  fexec_call Hx. destruct x as [e|].
  { fexec_end Hx. right. right. left. by exists c, e. }
  apply fexec_bind in Hx as (str & v1 & H1 & Hrest).
  apply ensureDBSchema_loop_outcome in H1.
  assert (default LoggerZero logger = match logger with Some l => l | None => LoggerZero end)
    as Hlog by (by destruct logger).
  fold log in Hlog. rewrite <- Hlog in *. clear Hlog.
  destruct v1 as [[err|]|].
  - destruct Hrest as (tr2 & -> & Hx). fexec_end Hx.
    right. right. right. left. exists c, str, err. by rewrite List.app_nil_r.
  - destruct Hrest as (tr2 & -> & Hx).
    do 6 fexec_call Hx. fexec_end Hx.
    right. right. right. right. by eexists c, str, (mkDB _ _ _ _ _ _ _ _).
  - exfalso. destruct H1 as [(? & _ & _ & [=]) | (? & ? & ? & ? & ? & ? & _ & _ & _ & _ & [=])].
Qed.

(** X18. [New] asks for a client with the connection string of the
    credentials first, and never disconnects.  It returns a database or an
    error, never both and never neither.  When it returns a database no
    call has failed, the client is connected, the schema's indexes were all
    requested, the logger is the one given, a fresh one for [nil], and the
    six collections of the result are what the database answered to the six
    last calls, unchecked.  When it returns an error, the client may be left
    connected: an error of the schema comes after a successful [Connect]. *)
Theorem New_returns_database_or_error
    St (env : St -> forall c, setup_resp c * St) (st : St) order creds logger :
  let r := frun mk_setup_event env st (New order creds logger) in
  (exists a, head r.1.2 = Some (EvNewClient (connectionString creds) a))
  /\ List.filter is_disconnect r.1.2 = []
  /\ match r.1.1 with
     | Some (Some db, None) =>
         List.filter setup_failed r.1.2 = []
         /\ In (EvConnect (mongo.Database_Client (staticDB db)) None) r.1.2
         /\ mongo.Database_Name (staticDB db) = "skynet"
         /\ staticLogger db = default LoggerZero logger
         /\ length (indexed r.1.2) = length order
         /\ exists before, r.1.2 = (before ++ field_lookups db)%list
     | Some (None, Some err) =>
         (exists c e, r.1.2 = [EvNewClient (connectionString creds) (c, Some e)]
                      /\ err = AddContext e "failed to create a new DB client")
         \/ (exists c e, r.1.2 = [EvNewClient (connectionString creds) (Some c, None);
                                  EvConnect c (Some e)]
                         /\ err = AddContext e "failed to connect to DB")
         \/ (exists c, In (EvConnect c None) r.1.2
                       /\ (length (indexed r.1.2) < length order)%nat)
     | Some (Some _, Some _) | Some (None, None) => False
     | None => r.1.2 = [EvNewClient (connectionString creds) (None, None)]
     end.
Proof.
  intros r. subst r.
  pose proof (frun_fexec mk_setup_event env st (New order creds logger)) as Hx.
  destruct (frun mk_setup_event env st (New order creds logger)) as [[v tr] st'].
  cbn [fst snd] in *.
  apply New_behaviour in Hx
    as [(c & e & -> & ->) | [[-> ->] | [(c & e & -> & ->)
       | [(c & str & err & Hout & -> & ->) | (c & str & db & Hout & Hdb & Hlog & -> & ->)]]]].
  - split; [by eexists|]. split; [done|]. left. by exists c, e.
  - split; [by eexists|]. by split.
  - split; [by eexists|]. split; [done|]. right. left. by exists c, e.
  - split; [by eexists|].
    destruct Hout as [(turns & _ & _ & [=])
                     | (before & entry & after & turns & fin & err' & -> & Hall & Hfail
                        & -> & [= <-])].
    destruct (turns_done _ _ _ _ Hall) as (Hlen & _ & Hnodis & _).
    destruct (entry_failed_facts _ _ _ _ Hfail) as (Hi & Hd & _).
    split.
    + simpl. by rewrite List.filter_app, Hnodis, Hd.
    + right. right. exists c. split; [simpl; by right; left|].
      simpl. rewrite indexed_app, Hi, List.app_nil_r, Hlen, length_app. simpl. lia.
  - split; [by eexists|].
    destruct Hout as [(turns & Hall & -> & _)
                     | (? & ? & ? & ? & ? & ? & _ & _ & _ & _ & [=])].
    destruct (turns_done _ _ _ _ Hall) as (Hlen & Hnofail & Hnodis & _).
    split.
    + simpl. by rewrite List.filter_app, Hnodis.
    + split; [simpl; by rewrite List.filter_app, Hnofail|].
      split; [rewrite Hdb; simpl; by right; left|].
      split; [by rewrite Hdb|]. split; [done|].
      split; [simpl; by rewrite indexed_app, List.app_nil_r|].
      by eexists (_ :: _ :: _).
Qed.

(* ===================================================================== *)
(** * Part XVIII. The Stripe webhook *)
(* ===================================================================== *)

Lemma fexec_lift_bind {A B} (p : Prog A) (f : A -> Hook B) tr v :
  fexec mk_hook_event (fbind (lift p) f) tr v ->
  exists trp vp,
    exec p trp vp
    /\ match vp with
       | None => tr = map EvInner trp /\ v = None
       | Some a => exists tr2, tr = (map EvInner trp ++ tr2)%list
                               /\ fexec mk_hook_event (f a) tr2 v
       end.
Proof.
  revert tr. induction p as [a|m|c k IH]; intros tr; simpl.
  - intros Hf. exists [], (Some a). split; [done|]. by exists tr.
  - intros [-> ->]. by exists [], None.
  - intros (x & tr' & -> & Hx).
    destruct (IH x tr' Hx) as (trp & vp & Hp & Hrest).
    exists (mk_event c x :: trp), vp. split; [by exists x, trp|].
    destruct vp as [a|].
    + destruct Hrest as (tr2 & -> & H2). by exists tr2.
    + by destruct Hrest as [-> ->].
Qed.

Ltac hexec_call H :=
  let x := fresh "x" in
  let tr := fresh "tr" in
  cbn [fexec fbind fperform fderef mk_hook_event mk_event logln] in H;
  destruct H as (x & tr & ? & H);
  subst; cbn [fexec fbind fperform fderef mk_hook_event mk_event logln] in H.

Ltac hexec_end H :=
  cbn [fexec fbind fperform fderef logln] in H; destruct H as [? ?]; subst.

Section WebhookRuns.

Context `{TierConsts}.

Variable unmarshal_Event : list ascii -> Event + error.
Variable unmarshal_Subscription : list ascii -> Subscription + error.
Variable unmarshal_hasSub : list ascii -> string + error.

Lemma process_and_log_then_success s tr v :
  fexec mk_hook_event (process_and_log s ;; fperform WriteSuccess)%free tr v ->
  handled s tr v.
Proof.
  unfold process_and_log, handled. intros Hx.
  destruct s as [s|]; [|by hexec_end Hx].
  cbn [fbind fderef] in Hx.
  change (fbind (fbind (lift (processSub s)) ?f) ?g)
    with (fbind (fbind (lift (processSub s)) f) g) in Hx.
  apply fexec_bind in Hx as (tr1 & v1 & H1 & Hrest).
  apply fexec_lift_bind in H1 as (trp & vp & Hp & H1).
  exists trp, vp. split; [done|].
  destruct vp as [[e|]|].
  - destruct H1 as (tr2 & -> & H1). hexec_call H1. destruct x. hexec_end H1.
    destruct Hrest as (tr3 & -> & Hx). hexec_call Hx. destruct x. hexec_end Hx.
    by rewrite <- List.app_assoc.
  - destruct H1 as (tr2 & -> & H1). hexec_end H1.
    destruct Hrest as (tr3 & -> & Hx). hexec_call Hx. destruct x. hexec_end Hx.
    by rewrite List.app_nil_r.
  - destruct H1 as [-> ->]. by destruct Hrest as [-> ->].
Qed.

(** What [readStripeEvent] returns. *)
Lemma readStripeEvent_cases (req : http.Request) :
  let payload := (http.Body req).1 in
  (exists event,
      readStripeEvent unmarshal_Event req = (Some event, 200, None)
      /\ Z.of_nat (length payload) <= 65536 /\ (http.Body req).2 = None
      /\ unmarshal_Event payload = inl event)
  \/ (exists e,
        readStripeEvent unmarshal_Event req
        = (None, 400, Some (AddContext e "error parsing request body"))
        /\ Z.of_nat (length payload) <= 65536 /\ (http.Body req).2 = None
        /\ unmarshal_Event payload = inr e)
  \/ (exists e,
        readStripeEvent unmarshal_Event req
        = (None, 503, Some (AddContext e "error reading request body"))
        /\ Z.of_nat (length payload) <= 65536 /\ (http.Body req).2 = Some e)
  \/ (readStripeEvent unmarshal_Event req
      = (None, 503, Some (AddContext (ErrNew "http: request body too large")
                            "error reading request body"))
      /\ 65536 < Z.of_nat (length payload)).
Proof.
  intros payload. subst payload.
  unfold readStripeEvent, ioutil.ReadAll, http.MaxBytesReader, MaxBodyBytes.
  destruct (http.Body req) as [payload err]. cbn [fst snd].
  destruct (Z.ltb_spec 65536 (Z.of_nat (length payload))) as [Hlong|Hshort].
  - right. right. by right.
  - destruct err as [e|].
    + right. right. left. by exists e.
    + destruct (unmarshal_Event payload) as [event|e].
      * left. by exists event.
      * right. left. by exists e.
Qed.

(** Every behaviour of the handler. *)
Lemma stripeWebhookHandler_behaviour (req : http.Request) tr v :
  fexec mk_hook_event
    (stripeWebhookHandler unmarshal_Event unmarshal_Subscription unmarshal_hasSub req) tr v ->
  match readStripeEvent unmarshal_Event req with
  | (_, code, Some e) =>
      tr = [EvInner (EvLog "trace" "Processing request: %+v"); EvWriteError e code]
      /\ v = Some tt
  | (None, _, None) => tr = [EvInner (EvLog "trace" "Processing request: %+v")] /\ v = None
  | (Some event, _, None) =>
      match Event_Data event with
      | None => tr = take 2 opening /\ v = None
      | Some data =>
          exists rest,
            tr = (opening ++ rest)%list
            /\ if strings.Contains (Event_Type event) "customer.subscription" then
                 match unmarshal_Subscription (Raw data) with
                 | inr _ =>
                     rest = [EvInner (EvLog "warning" "Failed to parse event. Error: ")]
                     /\ v = Some tt
                 | inl s => handled (Some s) rest v
                 end
               else if strings.Contains (Event_Type event) "subscription_schedule" then
                 match unmarshal_hasSub (Raw data) with
                 | inr _ =>
                     rest = [EvInner (EvLog "warning" "Failed to parse event. Error: ")]
                     /\ v = Some tt
                 | inl sub =>
                     if String.eqb sub "" then
                       rest = [EvInner (EvLog "debug" "Event doesn't refer to a subscription.")]
                       /\ v = Some tt
                     else
                       exists r rest',
                         rest = EvSubGet sub r :: rest'
                         /\ match snd r with
                            | Some _ =>
                                rest' = [EvInner (EvLog "debug" "Failed to fetch sub:")]
                                /\ v = Some tt
                            | None => handled (fst r) rest' v
                            end
                 end
               else rest = [EvWriteSuccess] /\ v = Some tt
      end
  end.
Proof.
  unfold stripeWebhookHandler. intros Hx.
  hexec_call Hx. destruct x.
  destruct (readStripeEvent unmarshal_Event req) as [[event code] [e|]].
  { hexec_call Hx. destruct x. hexec_end Hx. by destruct event. }
  destruct event as [event|]; [|by hexec_end Hx].
  hexec_call Hx. destruct x.
  destruct (Event_Data event) as [data|]; [|by hexec_end Hx].
  hexec_call Hx. destruct x.
  eexists. split; [reflexivity|].
  destruct (strings.Contains (Event_Type event) "customer.subscription").
  { destruct (unmarshal_Subscription (Raw data)) as [s|e].
    - by apply process_and_log_then_success.
    - hexec_call Hx. destruct x. by hexec_end Hx. }
  destruct (strings.Contains (Event_Type event) "subscription_schedule").
  2:{ hexec_call Hx. destruct x. by hexec_end Hx. }
  destruct (unmarshal_hasSub (Raw data)) as [sub|e].
  2:{ hexec_call Hx. destruct x. by hexec_end Hx. }
  destruct (String.eqb sub "").
  { hexec_call Hx. destruct x. by hexec_end Hx. }
  hexec_call Hx. exists x, tr. split; [done|].
  destruct x as [s [e|]]; cbn [fst snd] in *.
  - hexec_call Hx. destruct x. by hexec_end Hx.
  - by apply process_and_log_then_success.
Qed.

Lemma responses_inner (l : list event) : responses (map EvInner l) = [].
Proof. induction l; simpl; done. Qed.

Lemma fetched_subs_inner (l : list event) : fetched_subs (map EvInner l) = [].
Proof. induction l; simpl; done. Qed.

Lemma inner_map (l : list event) : inner (map EvInner l) = l.
Proof. induction l; simpl; congruence. Qed.

Lemma responses_opening l : responses (opening ++ l) = responses l.
Proof. done. Qed.

Lemma fetched_subs_opening l : fetched_subs (opening ++ l) = fetched_subs l.
Proof. done. Qed.

Lemma last_after {A} (l1 l2 : list A) a : last l2 = Some a -> last (l1 ++ l2) = Some a.
Proof. intros Hl. rewrite last_app. by rewrite Hl. Qed.

Lemma In_response (a : hook_event) l : is_response a = true -> In a l -> In a (responses l).
Proof. intros Ha Hin. by apply filter_In. Qed.

Lemma handled_facts s rest v :
  handled s rest v ->
  fetched_subs rest = []
  /\ match v with
     | None => responses rest = []
     | Some _ => responses rest = [EvWriteSuccess] /\ last rest = Some EvWriteSuccess
     end
  /\ match s with
     | None => rest = [] /\ v = None
     | Some s =>
         exists trp vp, exec (processSub s) trp vp
           /\ (vp = None <-> v = None)
           /\ exists logs, inner rest = (trp ++ logs)%list /\ forallb is_log logs = true
     end.
Proof.
  unfold handled. destruct s as [s|]; [|by intros [-> ->]].
  intros (trp & vp & Hp & Hcase).
  destruct vp as [[e|]|].
  - destruct Hcase as [-> ->].
    unfold responses, fetched_subs, inner.
    rewrite List.filter_app, !omap_app. fold (responses (map EvInner trp)).
    fold (fetched_subs (map EvInner trp)). fold (inner (map EvInner trp)).
    rewrite responses_inner, fetched_subs_inner, inner_map. simpl.
    split; [done|]. split.
    + split; [done|]. by rewrite (last_app _ [_; _]).
    + exists trp, (Some (Some e)). split; [done|]. split; [done|]. by eexists.
  - destruct Hcase as [-> ->].
    unfold responses, fetched_subs, inner.
    rewrite List.filter_app, !omap_app. fold (responses (map EvInner trp)).
    fold (fetched_subs (map EvInner trp)). fold (inner (map EvInner trp)).
    rewrite responses_inner, fetched_subs_inner, inner_map. simpl.
    split; [done|]. split.
    + split; [done|]. by rewrite last_snoc.
    + exists trp, (Some None). split; [done|]. split; [done|]. by exists [].
  - destruct Hcase as [-> ->].
    rewrite responses_inner, fetched_subs_inner, inner_map.
    split; [done|]. split; [done|].
    exists trp, None. split; [done|]. split; [done|]. exists []. by rewrite List.app_nil_r.
Qed.

Lemma handled_tail s rest v :
  handled s rest v ->
  (forall err code, ~ In (EvWriteError err code) rest)
  /\ (responses rest = []
      \/ (responses rest = [EvWriteSuccess] /\ last rest = Some EvWriteSuccess))
  /\ fetched_subs rest = []
  /\ (v = Some tt -> responses rest <> []).
Proof.
  intros Hh. destruct (handled_facts _ _ _ Hh) as (Hfs & Hresp & _).
  assert (responses rest = []
          \/ (responses rest = [EvWriteSuccess] /\ last rest = Some EvWriteSuccess)) as Hr.
  { destruct v; [by right | by left]. }
  split; [|split; [done|split; [done|]]].
  - intros err code Hin. apply (In_response (EvWriteError err code) _ eq_refl) in Hin.
    destruct Hr as [Hr|[Hr _]]; rewrite Hr in Hin; simpl in Hin; intuition discriminate.
  - intros ->. destruct Hresp as [-> _]. done.
Qed.

(** X19. [readStripeEvent] looks at the body of the request and at nothing
    else: no header, so no signature, changes its result.  It returns an
    event with the status 200 and no error exactly when the body is at most
    65536 bytes, was read without error and parses, and the event is what
    the parser made of the body; otherwise no event, with the status 400
    when the body does not parse and 503 when it could not be read, a body
    of more than 65536 bytes included. *)
Theorem readStripeEvent_reads_the_body_only (req : http.Request) :
  (forall req', http.Body req' = http.Body req ->
                readStripeEvent unmarshal_Event req' = readStripeEvent unmarshal_Event req)
  /\ (65536 < Z.of_nat (length (http.Body req).1) ->
      readStripeEvent unmarshal_Event req
      = (None, 503, Some (AddContext (ErrNew "http: request body too large")
                            "error reading request body")))
  /\ match readStripeEvent unmarshal_Event req with
     | (Some event, code, None) =>
         code = 200
         /\ Z.of_nat (length (http.Body req).1) <= 65536
         /\ (http.Body req).2 = None
         /\ unmarshal_Event (http.Body req).1 = inl event
     | (None, code, Some err) =>
         (code = 400 /\ exists e, unmarshal_Event (http.Body req).1 = inr e
                                  /\ err = AddContext e "error parsing request body")
         \/ (code = 503
             /\ (65536 < Z.of_nat (length (http.Body req).1) \/ (http.Body req).2 <> None))
     | _ => False
     end.
Proof.
  split; [|split].
  - intros req' Hbody. unfold readStripeEvent. by rewrite Hbody.
  - intros Hlong.
    destruct (readStripeEvent_cases req)
      as [(ev & _ & Hshort & _) | [(e & _ & Hshort & _) | [(e & _ & Hshort & _) | [Hr _]]]];
      [lia..|done].
  - destruct (readStripeEvent_cases req)
      as [(ev & -> & Hshort & Herr & Hev) | [(e & -> & Hshort & Herr & He)
         | [(e & -> & Hshort & Herr) | [-> Hlong]]]].
    + done.
    + left. split; [done|]. by exists e.
    + right. split; [done|]. right. by rewrite Herr.
    + right. split; [done|]. by left.
Qed.

(** X20. The handler answers a request at most once, and an answer is its last
    call.  It answers with an error exactly when [readStripeEvent] gave one,
    with the status that came with it, and then it has called nothing but
    the logger.  It asks Stripe for at most one subscription.  When it
    returns without an answer, the event's object did not parse, or names no
    subscription, or Stripe did not give the subscription. *)
Theorem stripeWebhookHandler_answers_at_most_once
    St (env : St -> forall c, hook_resp c * St) (st : St) (req : http.Request) :
  let r := frun mk_hook_event env st
             (stripeWebhookHandler unmarshal_Event unmarshal_Subscription
                unmarshal_hasSub req) in
  (responses r.1.2 = [] \/ exists a, responses r.1.2 = [a] /\ last r.1.2 = Some a)
  /\ (forall err code,
        In (EvWriteError err code) r.1.2
        <-> exists event, readStripeEvent unmarshal_Event req = (event, code, Some err))
  /\ (forall err code, In (EvWriteError err code) r.1.2 -> work r.1.2 = [])
  /\ (length (fetched_subs r.1.2) <= 1)%nat
  /\ (r.1.1 = Some tt -> responses r.1.2 = [] ->
      exists event data,
        readStripeEvent unmarshal_Event req = (Some event, 200, None)
        /\ Event_Data event = Some data
        /\ ((exists e, unmarshal_Subscription (Raw data) = inr e)
            \/ (exists e, unmarshal_hasSub (Raw data) = inr e)
            \/ unmarshal_hasSub (Raw data) = inl ""
            \/ exists id s e, In (EvSubGet id (s, Some e)) r.1.2)).
Proof.
  intros r. subst r.
  pose proof (frun_fexec mk_hook_event env st
                (stripeWebhookHandler unmarshal_Event unmarshal_Subscription
                   unmarshal_hasSub req)) as Hx.
  destruct (frun mk_hook_event env st _) as [[v tr] st']. cbn [fst snd] in *.
  apply stripeWebhookHandler_behaviour in Hx.
  destruct (readStripeEvent_cases req)
    as [(ev & Hr & _) | [(e & Hr & _) | [(e & Hr & _) | [Hr _]]]];
    rewrite Hr in *.
  2-4: destruct Hx as [-> ->]; (split; [right; by eexists|]);
       (split; [intros err code; split;
                [intros [[=]|[[= <- <-]|[]]]; by eexists
                |intros (event & [= <- <- <-]); right; by left]|]);
       (split; [intros; reflexivity|]); split; [simpl; lia | done].
  destruct (Event_Data ev) as [data|] eqn:Hdata.
  2:{ destruct Hx as [-> ->]. split; [by left|].
      split; [intros err code; split; [intros [[=]|[[=]|[]]] | intros (? & [=])]|].
      split; [intros err code [[=]|[[=]|[]]]|]. split; [simpl; lia | done]. }
  destruct Hx as (rest & -> & Hx).
  assert ((forall err code, ~ In (EvWriteError err code) rest)
          /\ (responses rest = []
              \/ (responses rest = [EvWriteSuccess] /\ last rest = Some EvWriteSuccess))
          /\ (length (fetched_subs rest) <= 1)%nat
          /\ (v = Some tt -> responses rest = [] ->
              (exists e, unmarshal_Subscription (Raw data) = inr e)
              \/ (exists e, unmarshal_hasSub (Raw data) = inr e)
              \/ unmarshal_hasSub (Raw data) = inl ""
              \/ exists id s e, In (EvSubGet id (s, Some e)) rest))
    as (Hnoerr & Hresp & Hfs & Hsilent).
  { destruct (strings.Contains (Event_Type ev) "customer.subscription").
    { destruct (unmarshal_Subscription (Raw data)) as [s|e] eqn:Hs.
      - destruct (handled_tail _ _ _ Hx) as (Hnoerr & Hresp & Hfs & Hans).
        rewrite Hfs. split; [done|]. split; [done|]. split; [simpl; lia|].
        intros Hv Hnone. by destruct (Hans Hv).
      - destruct Hx as [-> ->]. split; [|split; [by left|split; [simpl; lia|]]].
        + intros err code Hin. simpl in Hin. intuition discriminate.
        + intros _ _. left. by exists e. }
    destruct (strings.Contains (Event_Type ev) "subscription_schedule").
    2:{ destruct Hx as [-> ->]. split; [|split; [by right|split; [simpl; lia|done]]].
        intros err code Hin. simpl in Hin. intuition discriminate. }
    destruct (unmarshal_hasSub (Raw data)) as [sub|e] eqn:Hsub.
    2:{ destruct Hx as [-> ->]. split; [|split; [by left|split; [simpl; lia|]]].
        - intros err code Hin. simpl in Hin. intuition discriminate.
        - intros _ _. right. left. by exists e. }
    destruct (String.eqb_spec sub "") as [->|Hne].
    { destruct Hx as [-> ->]. split; [|split; [by left|split; [simpl; lia|]]].
      - intros err code Hin. simpl in Hin. intuition discriminate.
      - intros _ _. right. right. by left. }
    destruct Hx as ([s [e|]] & rest' & -> & Hx); cbn [fst snd] in Hx.
    - destruct Hx as [-> ->]. split; [|split; [by left|split; [simpl; lia|]]].
      + intros err code Hin. simpl in Hin. intuition discriminate.
      + intros _ _. right. right. right. exists sub, s, e. by left.
    - destruct (handled_tail _ _ _ Hx) as (Hnoerr & Hresp & Hfs & Hans).
      change (responses (EvSubGet sub (s, None) :: rest')) with (responses rest').
      change (fetched_subs (EvSubGet sub (s, None) :: rest'))
        with (sub :: fetched_subs rest').
      rewrite Hfs. split; [|split; [|split; [simpl; lia|]]].
      + intros err code [Hin|Hin]; [discriminate | by apply Hnoerr in Hin].
      + destruct Hresp as [->|[-> Hlast]]; [by left|]. right. split; [done|].
        by rewrite last_cons, Hlast.
      + intros Hv Hnone. by destruct (Hans Hv). }
  split; [|split; [|split; [|split]]].
  - rewrite responses_opening. destruct Hresp as [->|[-> Hlast]]; [by left|].
    right. exists EvWriteSuccess. split; [done|]. by apply last_after.
  - intros err code. split; [|intros (? & [=])].
    intros Hin. apply in_app_or in Hin as [Hin|Hin];
      [simpl in Hin; intuition discriminate | by apply Hnoerr in Hin].
  - intros err code Hin. exfalso. apply in_app_or in Hin as [Hin|Hin];
      [simpl in Hin; intuition discriminate | by apply Hnoerr in Hin].
  - by rewrite fetched_subs_opening.
  - rewrite responses_opening. intros Hv Hnone. exists ev, data.
    split; [done|]. split; [done|].
    destruct (Hsilent Hv Hnone) as [?|[?|[?|(id & s & e & Hin)]]];
      [by left | by right; left | by right; right; left |].
    right. right. right. exists id, s, e. apply in_or_app. by right.
Qed.

Lemma processSub_database_error_returns s trp vp :
  exec (processSub s) trp vp ->
  (exists u e, In (EvUserSave u (Some e)) trp)
  \/ (exists id u e, In (EvUserByStripeID id (u, Some e)) trp) ->
  exists err, vp = Some (Some err).
Proof.
  intros Hx Hin. apply processSub_behaviour in Hx.
  destruct (Subscription_Customer s) as [c|].
  2:{ destruct Hx as [-> ->].
      destruct Hin as [(u & e & Hin) | (id & u & e & Hin)];
        simpl in Hin; intuition discriminate. }
  destruct Hx as (r & rest & -> & Hr).
  destruct r as [[u0|] [e0|]]; try (destruct Hr as [-> ->]; by eexists).
  2:{ destruct Hr as [-> ->].
      destruct Hin as [(u & e & Hin) | (id & u & e & Hin)];
        simpl in Hin; intuition discriminate. }
  destruct (reconciled s u0) as [u1|].
  - destruct Hr as (details & Hr). destruct (changed u0 u1).
    + destruct Hr as (a & -> & ->).
      destruct Hin as [(u & e & Hin) | (id & u & e & Hin)]; simpl in Hin.
      * destruct Hin as [Hin|[Hin|[Hin|[Hin|[Hin|[]]]]]]; try discriminate.
        injection Hin as _ ->. by eexists.
      * intuition discriminate.
    + destruct Hr as [-> ->].
      destruct Hin as [(u & e & Hin) | (id & u & e & Hin)];
        simpl in Hin; intuition discriminate.
  - destruct Hr as [-> ->].
    destruct Hin as [(u & e & Hin) | (id & u & e & Hin)];
      simpl in Hin; intuition discriminate.
Qed.

Lemma In_inner (e : event) (l : list hook_event) : In (EvInner e) l <-> In e (inner l).
Proof.
  unfold inner. rewrite <- !list_elem_of_In, list_elem_of_omap. split.
  - intros Hin. by exists (EvInner e).
  - intros ([] & Hin & Heq); try discriminate. by injection Heq as ->.
Qed.

(** X21. For an event of the class [customer.subscription] whose object
    parses, the handler runs [processSub] on the subscription and asks
    Stripe for nothing.  Unless [processSub] panics it answers with success,
    also when the lookup or the save of the user failed: the error is
    logged, and Stripe is not told. *)
Theorem stripeWebhookHandler_hides_processing_errors
    St (env : St -> forall c, hook_resp c * St) (st : St) (req : http.Request)
    (event : Event) (data : EventData) (s : Subscription) :
  readStripeEvent unmarshal_Event req = (Some event, 200, None) ->
  Event_Data event = Some data ->
  strings.Contains (Event_Type event) "customer.subscription" = true ->
  unmarshal_Subscription (Raw data) = inl s ->
  let r := frun mk_hook_event env st
             (stripeWebhookHandler unmarshal_Event unmarshal_Subscription
                unmarshal_hasSub req) in
  (exists rest, r.1.2 = (opening ++ rest)%list /\ handled (Some s) rest r.1.1)
  /\ fetched_subs r.1.2 = []
  /\ (r.1.1 = Some tt -> responses r.1.2 = [EvWriteSuccess])
  /\ (r.1.1 = None -> responses r.1.2 = [])
  /\ (forall u e, In (EvInner (EvUserSave u (Some e))) r.1.2 ->
                  responses r.1.2 = [EvWriteSuccess])
  /\ (forall id u e, In (EvInner (EvUserByStripeID id (u, Some e))) r.1.2 ->
                     responses r.1.2 = [EvWriteSuccess]).
Proof.
  intros Hread Hdata Htype Hsub r. subst r.
  pose proof (frun_fexec mk_hook_event env st
                (stripeWebhookHandler unmarshal_Event unmarshal_Subscription
                   unmarshal_hasSub req)) as Hx.
  destruct (frun mk_hook_event env st _) as [[v tr] st']. cbn [fst snd] in *.
  apply stripeWebhookHandler_behaviour in Hx.
  rewrite Hread, Hdata in Hx. destruct Hx as (rest & -> & Hx).
  rewrite Htype, Hsub in Hx.
  destruct (handled_facts _ _ _ Hx) as (Hfs & Hresp & trp & vp & Hp & Hpanic & logs & Hinner & Hlogs).
  rewrite responses_opening, fetched_subs_opening.
  assert (forall e, is_log e = false -> In (EvInner e) (opening ++ rest) ->
                    In e trp) as Hwork.
  { intros e He Hin. apply in_app_or in Hin as [Hin|Hin].
    - simpl in Hin. destruct Hin as [[= <-]|[[= <-]|[[= <-]|[]]]]; discriminate.
    - apply In_inner in Hin. rewrite Hinner in Hin.
      apply in_app_or in Hin as [Hin|Hin]; [done|].
      rewrite forallb_forall in Hlogs. apply Hlogs in Hin. congruence. }
  assert (forall err, vp = Some (Some err) -> responses rest = [EvWriteSuccess]) as Hret.
  { intros err ->. destruct v as [[]|]; [by destruct Hresp|].
    by destruct Hpanic as [_ Hpanic]; specialize (Hpanic eq_refl). }
  split; [by exists rest|]. split; [done|].
  split; [intros ->; by destruct Hresp|]. split; [by intros ->|].
  split.
  - intros u e Hin. apply Hwork in Hin; [|done].
    destruct (processSub_database_error_returns s trp vp Hp) as [err Herr];
      [left; by exists u, e | by apply (Hret err)].
  - intros id u e Hin. apply Hwork in Hin; [|done].
    destruct (processSub_database_error_returns s trp vp Hp) as [err Herr];
      [right; by exists id, u, e | by apply (Hret err)].
Qed.

(** X22. An event that parses and whose type names neither
    [customer.subscription] nor [subscription_schedule] makes the handler
    call neither the database nor Stripe.  When the event has a data object
    it is answered with success at once, after three log lines.  When it
    has none, the read of [event.Data.Raw] is a read through [nil]: the
    handler panics after two log lines and writes no response. *)
Theorem stripeWebhookHandler_ignores_other_events
    St (env : St -> forall c, hook_resp c * St) (st : St) (req : http.Request)
    (event : Event) :
  readStripeEvent unmarshal_Event req = (Some event, 200, None) ->
  strings.Contains (Event_Type event) "customer.subscription" = false ->
  strings.Contains (Event_Type event) "subscription_schedule" = false ->
  let r := frun mk_hook_event env st
             (stripeWebhookHandler unmarshal_Event unmarshal_Subscription
                unmarshal_hasSub req) in
  work r.1.2 = []
  /\ match Event_Data event with
     | Some _ =>
         r.1.2 = (opening ++ [EvWriteSuccess])%list
         /\ r.1.1 = Some tt
         /\ responses r.1.2 = [EvWriteSuccess]
     | None =>
         r.1.2 = take 2 opening
         /\ r.1.1 = None
         /\ responses r.1.2 = []
     end.
Proof.
  intros Hread Htype1 Htype2 r. subst r.
  pose proof (frun_fexec mk_hook_event env st
                (stripeWebhookHandler unmarshal_Event unmarshal_Subscription
                   unmarshal_hasSub req)) as Hx.
  destruct (frun mk_hook_event env st _) as [[v tr] st']. cbn [fst snd] in *.
  apply stripeWebhookHandler_behaviour in Hx.
  rewrite Hread in Hx.
  destruct (Event_Data event) as [data|].
  - destruct Hx as (rest & -> & Hx).
    rewrite Htype1, Htype2 in Hx. by destruct Hx as [-> ->].
  - by destruct Hx as [-> ->].
Qed.

(** X23. For an event of the class [subscription_schedule] (and not of the
    class [customer.subscription]) that names a subscription, the handler
    asks Stripe for that subscription, once.  When Stripe gives it, it is
    processed as a subscription event is, and answered with success unless
    [processSub] panics; when Stripe answers with an error, the handler logs
    it, touches no user and returns without an answer. *)
Theorem stripeWebhookHandler_fetches_scheduled_subscription
    St (env : St -> forall c, hook_resp c * St) (st : St) (req : http.Request)
    (event : Event) (data : EventData) (sub : string) :
  readStripeEvent unmarshal_Event req = (Some event, 200, None) ->
  Event_Data event = Some data ->
  strings.Contains (Event_Type event) "customer.subscription" = false ->
  strings.Contains (Event_Type event) "subscription_schedule" = true ->
  unmarshal_hasSub (Raw data) = inl sub ->
  sub <> "" ->
  let r := frun mk_hook_event env st
             (stripeWebhookHandler unmarshal_Event unmarshal_Subscription
                unmarshal_hasSub req) in
  exists answer rest,
    r.1.2 = (opening ++ EvSubGet sub answer :: rest)%list
    /\ fetched_subs r.1.2 = [sub]
    /\ match answer with
       | (_, Some _) =>
           rest = [EvInner (EvLog "debug" "Failed to fetch sub:")]
           /\ r.1.1 = Some tt /\ responses r.1.2 = []
       | (s, None) =>
           handled s rest r.1.1
           /\ (r.1.1 = Some tt -> responses r.1.2 = [EvWriteSuccess])
           /\ (r.1.1 = None -> responses r.1.2 = [])
       end.
Proof.
  intros Hread Hdata Htype1 Htype2 Hsub Hne r. subst r.
  pose proof (frun_fexec mk_hook_event env st
                (stripeWebhookHandler unmarshal_Event unmarshal_Subscription
                   unmarshal_hasSub req)) as Hx.
  destruct (frun mk_hook_event env st _) as [[v tr] st']. cbn [fst snd] in *.
  apply stripeWebhookHandler_behaviour in Hx.
  rewrite Hread, Hdata in Hx. destruct Hx as (rest & -> & Hx).
  rewrite Htype1, Htype2, Hsub in Hx.
  destruct (String.eqb_spec sub "") as [->|_]; [done|].
  destruct Hx as ([s [e|]] & rest' & -> & Hx); cbn [fst snd] in Hx.
  - destruct Hx as [-> ->]. by eexists (s, Some e), _.
  - destruct (handled_facts _ _ _ Hx) as (Hfs & Hresp & _).
    exists (s, None), rest'. split; [done|].
    rewrite responses_opening, fetched_subs_opening.
    change (responses (EvSubGet sub (s, None) :: rest')) with (responses rest').
    change (fetched_subs (EvSubGet sub (s, None) :: rest')) with (sub :: fetched_subs rest').
    rewrite Hfs. split; [done|]. split; [done|].
    split; [intros ->; by destruct Hresp | by intros ->].
Qed.

End WebhookRuns.

(* ===================================================================== *)
(** * Part XIX. More theorems at concrete inputs *)
(* ===================================================================== *)

Lemma listing_rows_newest_first_witness :
  exists out,
    run_pipeline eq_matches demo_db
      (generateDownloadsPipeline [("$match", BDoc [("user_id", BOid "u1")])] 0 10)
      (demo_db "downloads") = Ok out
    /\ Sorted newer_or_same out.
Proof.
  apply (listing_rows_newest_first eq_matches demo_db (BDoc [("user_id", BOid "u1")])
           0 10 (demo_db "downloads") generateDownloadsPipeline);
    [by right | lia | lia |].
  intros d Hin _. simpl in Hin.
  destruct Hin as [<-|[<-|[<-|[]]]]; discriminate.
Defined.

Lemma listing_page_length_witness :
  exists out,
    run_pipeline eq_matches demo_db
      (generateUploadsPipeline [("$match", BDoc [("user_id", BOid "u1")])] 1 5)
      (demo_db "downloads") = Ok out
    /\ Z.of_nat (length out)
       = Z.min 5 (Z.max 0 (Z.of_nat (length (List.filter
                    (eq_matches (BDoc [("user_id", BOid "u1")])) (demo_db "downloads"))) - 1)).
Proof.
  apply (listing_page_length eq_matches demo_db (BDoc [("user_id", BOid "u1")])
           1 5 (demo_db "downloads") generateUploadsPipeline);
    [by left | lia | lia].
Defined.

Lemma listing_pages_compose_witness :
  let f := BDoc [("user_id", BOid "u1")] in
  (forall s1 s2,
      s1 ≡ₚ List.filter (eq_matches f) (demo_db "downloads") -> Sorted newer_or_same s1 ->
      s2 ≡ₚ List.filter (eq_matches f) (demo_db "downloads") -> Sorted newer_or_same s2 ->
      s1 = s2)
  /\ exists p1 p2,
       run_pipeline eq_matches demo_db
         (generateDownloadsPipeline [("$match", f)] 0 1) (demo_db "downloads") = Ok p1
       /\ run_pipeline eq_matches demo_db
            (generateDownloadsPipeline [("$match", f)] (0 + 1) 1) (demo_db "downloads")
          = Ok p2
       /\ run_pipeline eq_matches demo_db
            (generateDownloadsPipeline [("$match", f)] 0 (1 + 1)) (demo_db "downloads")
          = Ok (p1 ++ p2)%list
       /\ NoDup (map date_of (p1 ++ p2)).
Proof.
  apply (listing_pages_compose eq_matches demo_db (BDoc [("user_id", BOid "u1")])
           0 1 1 (demo_db "downloads") generateDownloadsPipeline);
    [by right | lia | lia | lia |].
  exists [10; 20]. split; [reflexivity | compute_done].
Defined.

Lemma processSub_nil_pointer_witness :
  let R := run (happy_env demo_user) tt (@processSub demo_tiers planless_sub) in
  db_writes (trace R) = []
  /\ value R <> Some None
  /\ (fetched (trace R) <> [] \/ Subscription_Customer planless_sub = None
      -> value R = None).
Proof.
  apply (@processSub_nil_pointer demo_tiers unit (happy_env demo_user) tt planless_sub).
  right. split; [reflexivity | exact I].
Defined.

Lemma processSub_known_plan_promotes_witness :
  let s := demo_sub "active" "prod_J06Qu7zg1unO8R" 1700000000 in
  let R := run (happy_env demo_user) tt (@processSub demo_tiers s) in
  let expiry := time.mkTime 1700000000 0 time.LocUTC in
  let u' := set_SubscribedUntil expiry (set_Tier 3 demo_user) in
  (Tier demo_user = 3 /\ SubscribedUntil demo_user = expiry ->
     db_writes (trace R) = [] /\ value R = Some None)
  /\ (Tier demo_user <> 3 \/ SubscribedUntil demo_user <> expiry ->
        exists a, db_writes (trace R) = [EvUserSave u' a] /\ value R = Some a)
  /\ Tier u' = 3 /\ SubscribedUntil u' = expiry
  /\ (User_ID u', Sub u', FirstName u', LastName u', Email u', PasswordHash u', StripeId u')
     = (User_ID demo_user, Sub demo_user, FirstName demo_user, LastName demo_user,
        Email demo_user, PasswordHash demo_user, StripeId demo_user).
Proof.
  apply (@processSub_known_plan_promotes demo_tiers unit (happy_env demo_user) tt
           (demo_sub "active" "prod_J06Qu7zg1unO8R" 1700000000)
           {| Plan_Product := Some {| Product_ID := "prod_J06Qu7zg1unO8R" |} |}
           {| Product_ID := "prod_J06Qu7zg1unO8R" |} 3 demo_user); reflexivity.
Defined.

Lemma processSub_lookup_failure_witness :
  let R := run (db_down_env 0) 0%nat
             (@processSub demo_tiers (demo_sub "active" "prod_J06Qu7zg1unO8R" 1700000000)) in
  value R
  = Some (Some (AddContext (ErrNew "db down")
                  "failed to fetch user from DB based on subscription info"))
  /\ db_writes (trace R) = [].
Proof.
  apply (@processSub_lookup_failure demo_tiers nat (db_down_env 0) 0%nat
           (demo_sub "active" "prod_J06Qu7zg1unO8R" 1700000000)
           "cus_1" None (ErrNew "db down")).
  simpl. right. left. reflexivity.
Defined.

Lemma plan_tier_round_trip_witness :
  let order := reverse (map_to_list (@stripePlans demo_tiers)) in
  (forall t, t ∈ [1; 2; 3; 4] -> @tierForPlan demo_tiers (planForTier order t) = t)
  /\ (forall t, t ∉ [1; 2; 3; 4] ->
        planForTier order t = "" /\ @tierForPlan demo_tiers (planForTier order t) = 1)
  /\ (NoDup [1; 2; 3; 4] ->
      forall plan, is_Some (@stripePlans demo_tiers !! plan) ->
                   planForTier order (@tierForPlan demo_tiers plan) = plan).
Proof.
  apply (@plan_tier_round_trip demo_tiers
           (reverse (map_to_list (@stripePlans demo_tiers)))).
  apply reverse_Permutation.
Defined.

Lemma ensureDBSchema_indexes_every_collection_witness :
  let db := mongo.mkDatabase 1%nat dbName in
  let r := frun mk_setup_event empty_driver []
             (ensureDBSchema (map_to_list schema) db LoggerZero) in
  length (indexed r.1.2) = 6%nat
  /\ List.filter setup_failed r.1.2 = []
  /\ forall name models, schema !! name = Some models ->
       exists c, In (c, models) (indexed r.1.2)
                 /\ In (EvCollection db name (Some c)) r.1.2.
Proof.
  apply (ensureDBSchema_indexes_every_collection (list string) empty_driver []
           (map_to_list schema) (mongo.mkDatabase 1%nat dbName) LoggerZero).
  - by unfold schema_range.
  - vm_compute. reflexivity.
Defined.

Lemma stripeWebhookHandler_hides_processing_errors_witness :
  let s := demo_sub "active" "prod_J06Qu7zg1unO8R" 1700000000 in
  let r := frun mk_hook_event (hook_env (db_down_env 0) (None, None)) 0%nat
             (@stripeWebhookHandler demo_tiers
                (fun _ => inl (demo_event "customer.subscription.updated"))
                (fun _ => inl s) (fun _ => inl "") demo_request) in
  (exists rest, r.1.2 = (opening ++ rest)%list /\ @handled demo_tiers (Some s) rest r.1.1)
  /\ fetched_subs r.1.2 = []
  /\ (r.1.1 = Some tt -> responses r.1.2 = [EvWriteSuccess])
  /\ (r.1.1 = None -> responses r.1.2 = [])
  /\ (forall u e, In (EvInner (EvUserSave u (Some e))) r.1.2 ->
                  responses r.1.2 = [EvWriteSuccess])
  /\ (forall id u e, In (EvInner (EvUserByStripeID id (u, Some e))) r.1.2 ->
                     responses r.1.2 = [EvWriteSuccess]).
Proof.
  apply (@stripeWebhookHandler_hides_processing_errors demo_tiers
           (fun _ => inl (demo_event "customer.subscription.updated"))
           (fun _ => inl (demo_sub "active" "prod_J06Qu7zg1unO8R" 1700000000))
           (fun _ => inl "") nat (hook_env (db_down_env 0) (None, None)) 0%nat
           demo_request (demo_event "customer.subscription.updated") {| Raw := [] |}
           (demo_sub "active" "prod_J06Qu7zg1unO8R" 1700000000)); reflexivity.
Defined.

Lemma stripeWebhookHandler_ignores_other_events_witness :
  let run_on (event : Event) :=
    frun mk_hook_event (hook_env (happy_env demo_user) (None, None)) tt
      (@stripeWebhookHandler demo_tiers (fun _ => inl event)
         (fun _ => inr (ErrNew "not a subscription")) (fun _ => inl "") demo_request) in
  let paid := demo_event "invoice.paid" in
  let bare := {| Event_Type := "invoice.paid"; Event_Data := None |} in
  (work (run_on paid).1.2 = []
   /\ (run_on paid).1.2 = (opening ++ [EvWriteSuccess])%list
   /\ (run_on paid).1.1 = Some tt
   /\ responses (run_on paid).1.2 = [EvWriteSuccess])
  /\ (work (run_on bare).1.2 = []
      /\ (run_on bare).1.2 = take 2 opening
      /\ (run_on bare).1.1 = None
      /\ responses (run_on bare).1.2 = []).
Proof.
  intros run_on paid bare. split.
  - apply (@stripeWebhookHandler_ignores_other_events demo_tiers
             (fun _ => inl paid)
             (fun _ => inr (ErrNew "not a subscription")) (fun _ => inl "")
             unit (hook_env (happy_env demo_user) (None, None)) tt
             demo_request paid); reflexivity.
  - apply (@stripeWebhookHandler_ignores_other_events demo_tiers
             (fun _ => inl bare)
             (fun _ => inr (ErrNew "not a subscription")) (fun _ => inl "")
             unit (hook_env (happy_env demo_user) (None, None)) tt
             demo_request bare); reflexivity.
Defined.

Lemma stripeWebhookHandler_fetches_scheduled_subscription_witness :
  let s := demo_sub "canceled" "prod_J06Qu7zg1unO8R" 1700000000 in
  let r := frun mk_hook_event (hook_env (happy_env demo_user) (Some s, None)) tt
             (@stripeWebhookHandler demo_tiers
                (fun _ => inl (demo_event "subscription_schedule.updated"))
                (fun _ => inr (ErrNew "not a subscription")) (fun _ => inl "sub_1")
                demo_request) in
  exists answer rest,
    r.1.2 = (opening ++ EvSubGet "sub_1" answer :: rest)%list
    /\ fetched_subs r.1.2 = ["sub_1"]
    /\ match answer with
       | (_, Some _) =>
           rest = [EvInner (EvLog "debug" "Failed to fetch sub:")]
           /\ r.1.1 = Some tt /\ responses r.1.2 = []
       | (s, None) =>
           @handled demo_tiers s rest r.1.1
           /\ (r.1.1 = Some tt -> responses r.1.2 = [EvWriteSuccess])
           /\ (r.1.1 = None -> responses r.1.2 = [])
       end.
Proof.
  apply (@stripeWebhookHandler_fetches_scheduled_subscription demo_tiers
           (fun _ => inl (demo_event "subscription_schedule.updated"))
           (fun _ => inr (ErrNew "not a subscription")) (fun _ => inl "sub_1")
           unit (hook_env (happy_env demo_user) (Some (demo_sub "canceled"
                   "prod_J06Qu7zg1unO8R" 1700000000), None)) tt
           demo_request (demo_event "subscription_schedule.updated") {| Raw := [] |}
           "sub_1"); try reflexivity.
  discriminate.
Defined.

(* ===================================================================== *)
(** * Part XX. Counting and listing together; customers of paying users *)
(* ===================================================================== *)

(** X24. [count] and the listing pipelines agree: on the reference driver,
    [count] returns the number [n] of documents that match, and a valid page
    of either pipeline on the same collection and filter has
    [min pageSize (max 0 (n - offset))] rows, so the pages up to [n] hold
    every row and those past it are empty. *)
Theorem count_agrees_with_listing
    (qm : bson -> doc -> bool) (colls : string -> list doc) (coll : string) (f : bson)
    (gen : doc -> Z -> Z -> list doc) (offset pageSize : Z) :
  is_listing_builder gen -> 0 <= offset -> 0 < pageSize ->
  exists n out,
    value (run (mongo_env qm) (mkMongo colls []) (count coll [("$match", f)]))
    = Some (n, None)
    /\ run_pipeline qm colls (gen [("$match", f)] offset pageSize) (colls coll) = Ok out
    /\ Z.of_nat (length out) = Z.min pageSize (Z.max 0 (n - offset)).
Proof.
  intros Hgen Hoff Hps.
  destruct (listing_run_valid qm colls f (colls coll) gen Hgen) as (h & Hrun & _).
  exists (Z.of_nat (length (List.filter (qm f) (colls coll)))),
    (map h (page_of qm f offset pageSize (colls coll))).
  split; [|split; [by apply Hrun|]].
  - unfold count. cbn -[run_pipeline List.filter]. rewrite count_pipeline_rows.
    destruct (List.filter (qm f) (colls coll)) as [|d l] eqn:E; reflexivity.
  - rewrite length_map. by apply page_of_length.
Qed.

Lemma count_agrees_with_listing_witness :
  exists n out,
    value (run (mongo_env eq_matches) (mkMongo demo_db [])
             (count "downloads" [("$match", BDoc [("user_id", BOid "u1")])]))
    = Some (n, None)
    /\ run_pipeline eq_matches demo_db
         (generateDownloadsPipeline [("$match", BDoc [("user_id", BOid "u1")])] 1 10)
         (demo_db "downloads") = Ok out
    /\ Z.of_nat (length out) = Z.min 10 (Z.max 0 (n - 1)).
Proof.
  apply (count_agrees_with_listing eq_matches demo_db "downloads"
           (BDoc [("user_id", BOid "u1")]) generateDownloadsPipeline 1 10);
    [by right | lia | lia].
Defined.

Section PayingCustomers.

Context `{TierConsts}.

(** X25. [createStripeCustomer] puts the customer on the plan of the tier the
    user has, not on the free plan as such: for a user on one of the paying
    tiers, the four tiers being distinct, the one call it makes creates the
    customer on the plan the table maps to that tier, which is not a plan of
    the free tier; nothing is written to the database. *)
Theorem createStripeCustomer_keeps_paying_tier
    St (env : Env St) (st : St) (order : list (string * Z)) (u : User) (plan : string) :
  NoDup [TierFree; TierPremium5; TierPremium20; TierPremium80] ->
  range_of stripePlans order ->
  stripePlans !! plan = Some (Tier u) ->
  Tier u <> TierFree ->
  let r := run env st (createStripeCustomer order u) in
  (exists answer,
      trace r = [ EvCustomerNew
                    {| Description := Some (Sub u);
                       Params_Email := Some (Email u);
                       Name := Some (FirstName u ++ " " ++ LastName u);
                       Params_Plan := Some plan |} answer ]
      /\ value r = Some (u, answer))
  /\ stripePlans !! plan <> Some TierFree
  /\ db_writes (trace r) = [].
Proof.
  intros Hnd Hrange Hplan Hpaying r. subst r. unfold createStripeCustomer.
  cbn [run bind perform].
  destruct (env st _) as [answer st'] eqn:Henv. cbn.
  assert (planForTier order (Tier u) = plan) as Hp.
  { apply planForTier_unique.
    - unfold range_of in Hrange. rewrite Hrange, stripePlans_entries. exact Hnd.
    - by apply (range_of_lookup _ _ _ Hrange). }
  rewrite Hp in Henv |- *.
  split; [by exists answer|]. split; [|done].
  rewrite Hplan. congruence.
Qed.

End PayingCustomers.

Lemma createStripeCustomer_keeps_paying_tier_witness :
  let r := run (happy_env demo_user) tt
             (createStripeCustomer (reverse (map_to_list (@stripePlans demo_tiers)))
                demo_user) in
  (exists answer,
      trace r = [ EvCustomerNew
                    {| Description := Some (Sub demo_user);
                       Params_Email := Some (Email demo_user);
                       Name := Some (FirstName demo_user ++ " " ++ LastName demo_user);
                       Params_Plan := Some "prod_J06Q7nJH3HJcYN" |} answer ]
      /\ value r = Some (demo_user, answer))
  /\ @stripePlans demo_tiers !! "prod_J06Q7nJH3HJcYN" <> Some 1
  /\ db_writes (trace r) = [].
Proof.
  apply (@createStripeCustomer_keeps_paying_tier demo_tiers unit (happy_env demo_user) tt
           (reverse (map_to_list (@stripePlans demo_tiers))) demo_user
           "prod_J06Q7nJH3HJcYN").
  - compute_done.
  - apply reverse_Permutation.
  - reflexivity.
  - discriminate.
Defined.

(* ===================================================================== *)
(** * Part XXI. The downloads of the example database *)
(* ===================================================================== *)

(** The downloads of user [u1] in the example database: the record with
    byte count 0 (the newer one) is listed first with the Skylink's size
    200, the one with byte count 50 second with size 50. *)
Lemma downloads_effective_size_witness :
  let f := BDoc [("user_id", BOid "u1")] in
  let sized (d o : doc) :=
    forall sky others sz,
      joined (demo_db "skylinks") "skylink_id" "_id" d = sky :: others ->
      doc_get "size" d = None ->
      doc_get "size" sky = Some sz ->
      (forall b, doc_get "bytes" d = Some (BInt b) ->
                 doc_get "size" o = Some (if 0 <? b then BInt b else sz))
      /\ (doc_get "bytes" d = None -> doc_get "bytes" sky = None ->
          doc_get "size" o = Some sz) in
  ((exists out,
       run_pipeline eq_matches demo_db
         (generateDownloadsPipeline [("$match", f)] 0 10) (demo_db "downloads") = Ok out
       /\ Forall2 sized (page_of eq_matches f 0 10 (demo_db "downloads")) out)
   /\ (forall d sky others,
         eq_matches f d = true ->
         joined (demo_db "skylinks") "skylink_id" "_id" d = sky :: others ->
         doc_get "size" d = None ->
         doc_get "size" sky = Some (BInt 200) ->
         (doc_get "bytes" d = Some (BInt 50) ->
          exists o,
            run_pipeline eq_matches demo_db
              (generateDownloadsPipeline [("$match", f)] 0 1) [d] = Ok [o]
            /\ doc_get "size" o = Some (BInt 50))
         /\ (doc_get "bytes" d = Some (BInt 0) ->
             exists o,
               run_pipeline eq_matches demo_db
                 (generateDownloadsPipeline [("$match", f)] 0 1) [d] = Ok [o]
               /\ doc_get "size" o = Some (BInt 200))))
  /\ match run_pipeline eq_matches demo_db
             (generateDownloadsPipeline [("$match", f)] 0 10) (demo_db "downloads") with
     | Ok out => map (fun o => (doc_get "_id" o, doc_get "size" o)) out
                 = [ (Some (BOid "d2"), Some (BInt 200)); (Some (BOid "d1"), Some (BInt 50)) ]
     | Err _ => False
     end.
Proof.
  intros f sized. split.
  - apply (downloads_effective_size eq_matches demo_db f 0 10 (demo_db "downloads")); lia.
  - reflexivity.
Defined.

(* ===================================================================== *)
(** * Part XXII. Where the code departs from what is said of it *)
(* ===================================================================== *)

(** C7. [count] does not return every failure of the aggregation.  It returns
    the error of [Aggregate] and that of [Decode], with a context, but it
    reads a [Next] that answers [false] as a cursor with no row and never
    asks the cursor for its error: in any environment a run in which [Next]
    answered [false] returns [(0, nil)].  On the example database, where two
    downloads match and the reference driver counts 2, a driver that loses
    its connection while the cursor is read makes [count] return 0 with no
    error, the error staying with the cursor; a driver whose [Aggregate]
    fails gets its error back. *)
Theorem count_hides_cursor_failure :
  let f := BDoc [("user_id", BOid "u1")] in
  let pipeline := [[("$match", f)]; [("$count", BStr "count")]] in
  let r := run (broken_cursor_env eq_matches) (mkMongo demo_db [], None)
             (count "downloads" [("$match", f)]) in
  (forall St (env : Env St) (st : St) coll matchStage c,
      In (EvNext c false) (trace (run env st (count coll matchStage))) ->
      value (run env st (count coll matchStage)) = Some (0, None))
  /\ length (List.filter (eq_matches f) (demo_db "downloads")) = 2%nat
  /\ value (run (mongo_env eq_matches) (mkMongo demo_db [])
              (count "downloads" [("$match", f)])) = Some (2, None)
  /\ trace r = [ EvAggregate "downloads" pipeline (Some 0%nat, None);
                 EvNext 0%nat false;
                 EvClose 0%nat None ]
  /\ (final r).2 = Some (ErrNew "connection reset by peer")
  /\ value r = Some (0, None)
  /\ value (run (db_down_env 0) 0%nat (count "downloads" [("$match", f)]))
     = Some (0, Some (ErrContext (ErrNew "db down") "DB query failed")).
Proof.
  intros f pipeline r. split; [|by repeat split].
  intros St env st coll matchStage c Hin.
  pose proof (run_exec env st (count coll matchStage)) as Hx.
  set (tr := trace _) in *. set (v := value _) in *. clearbody tr v.
  unfold count in Hx.
  exec_call Hx. destruct x as [c0 [e|]].
  { exec_end Hx. simpl in Hin. intuition discriminate. }
  destruct c0 as [c0|]; [|exec_end Hx; simpl in Hin; intuition discriminate].
  exec_call Hx. destruct x.
  - exfalso. exec_call Hx.
    destruct x as [n [e|]]; apply exec_closing in Hx as [[-> | (e' & ->)] _];
      simpl in Hin; intuition discriminate.
  - by apply exec_closing in Hx as [_ ->].
Qed.

(** C8. [createStripeCustomer] does not put every new customer on the free
    plan: the plan it sends is that of the tier the user record holds.  For
    the example user, who is on the premium-5 tier, its one call creates the
    customer on the premium-5 plan, in either order of the table, and that
    plan is not one of the free tier; for a user whose tier the table does
    not have it sends the empty plan.  For a user on the free tier it sends
    the free plan. *)
Theorem createStripeCustomer_not_always_free :
  let order := map_to_list (@stripePlans demo_tiers) in
  let sent (order : list (string * Z)) (u : User) :=
    omap (fun e => match e with EvCustomerNew cp _ => Params_Plan cp | _ => None end)
      (trace (run (happy_env u) tt (createStripeCustomer order u))) in
  Tier demo_user = @TierPremium5 demo_tiers
  /\ sent order demo_user = ["prod_J06Q7nJH3HJcYN"]
  /\ sent (reverse order) demo_user = ["prod_J06Q7nJH3HJcYN"]
  /\ @stripePlans demo_tiers !! "prod_J06Q7nJH3HJcYN" = Some (@TierPremium5 demo_tiers)
  /\ @stripePlans demo_tiers !! "prod_J06Q7nJH3HJcYN" <> Some (@TierFree demo_tiers)
  /\ sent order (set_Tier 0 demo_user) = [""]
  /\ sent order (set_Tier (@TierFree demo_tiers) demo_user) = ["prod_J2FBsxvEl4VoUK"].
Proof. intros order sent. by repeat split. Qed.
